(** * Node storage and ICS23 proof assembly of the IAVL tree

    A shallow embedding of [nodedb.go] and [proof_ics23.go]: the node
    database (batch, caches, orphan bookkeeping, version deletion, the
    storage-version string, reader counts) and the conversion of range
    proofs to ICS23 existence and non-existence proofs.

    Go values are modelled as follows.  [int64] and [uint32] are [Z] with
    the wrap-around written out; a [[]byte] is a list of [Z] in
    [0..255]; a Go [string] is a [string]; a Go [map] is a [gmap]; a
    possibly-nil slice is an [option]; a function returning [error] runs
    in the state monad [M] over the [nodeDB] record and a Go [panic] is
    the outcome [Panic]. *)

From Stdlib Require Import ZArith List String Ascii Bool Lia DecimalString Sorted.
From stdpp Require Import base gmap strings list fin_maps.
Local Open Scope Z_scope.

Abbreviation bytes := (list Z).

(** ** Machine integers *)

Module Int64.

Definition MinInt64 : Z := - 2 ^ 63.
Definition MaxInt64 : Z := 2 ^ 63 - 1.

(** Two's complement wrap-around of a mathematical integer to [int64]. *)
Definition wrap (x : Z) : Z := (x + 2 ^ 63) mod 2 ^ 64 - 2 ^ 63.

Definition add (x y : Z) : Z := wrap (x + y).
Definition sub (x y : Z) : Z := wrap (x - y).

Definition in_range (x : Z) : Prop := MinInt64 <= x <= MaxInt64.

End Int64.

Module Uint32.

Definition wrap (x : Z) : Z := x mod 2 ^ 32.
Definition in_range (x : Z) : Prop := 0 <= x < 2 ^ 32.

End Uint32.

(** ** Byte slices and Go strings *)

(** [bytes.Compare]: lexicographic order on byte slices. *)
Fixpoint bytes_compare (a b : bytes) : comparison :=
  match a, b with
  | [], [] => Eq
  | [], _ :: _ => Lt
  | _ :: _, [] => Gt
  | x :: a', y :: b' =>
      match x ?= y with
      | Eq => bytes_compare a' b'
      | c => c
      end
  end.

Definition bytes_ltb (a b : bytes) : bool :=
  match bytes_compare a b with Lt => true | _ => false end.

Definition bytes_leb (a b : bytes) : bool :=
  match bytes_compare a b with Gt => false | _ => true end.

(** [bytes.HasPrefix]. *)
Fixpoint HasPrefix (s prefix : bytes) : bool :=
  match prefix, s with
  | [], _ => true
  | _ :: _, [] => false
  | p :: prefix', x :: s' => (x =? p) && HasPrefix s' prefix'
  end.

(** The conversion [[]byte(s)] of a Go string. *)
Definition bytes_of_string (s : string) : bytes :=
  List.map (fun c => Z.of_N (N_of_ascii c)) (list_ascii_of_string s).

(** Go's [>=] on strings: byte-wise lexicographic order. *)
Definition string_geb (a b : string) : bool := String.leb b a.

(** [strings.Split(s, sep)] for a non-empty separator.  [skip] counts the
    bytes of a separator occurrence that are still to be dropped. *)
Fixpoint Split_from (sep : string) (skip : nat) (s : string) : list string :=
  match s with
  | EmptyString => [EmptyString]
  | String c s' =>
      match skip with
      | S k => Split_from sep k s'
      | O =>
          if String.prefix sep s
          then EmptyString :: Split_from sep (String.length sep - 1) s'
          else match Split_from sep O s' with
               | hd :: tl => String c hd :: tl
               | [] => [String c EmptyString]
               end
      end
  end.

Definition Split (s sep : string) : list string := Split_from sep O s.

(** [strconv.Itoa]: the decimal representation, with a leading [-] for a
    negative number. *)
Definition Itoa (i : Z) : string := NilZero.string_of_int (Z.to_int i).

(** ** Errors and outcomes *)

Inductive error : Type :=
| errNew (msg : string)
| errActiveReaders (version readers : Z)
| errRootNotFound (version : Z)
| errCannotDeleteLatest (latest : Z)
| errNonConsecutive (expected got : Z)
| errBatchClosed.

Inductive result (A : Type) : Type :=
| Ok (a : A)
| Err (e : error)
| Panic (msg : string)
| OutOfFuel.

Arguments Ok {A} a.
Arguments Err {A} e.
Arguments Panic {A} msg.
Arguments OutOfFuel {A}.

(** ** The key codec *)

Module KeyFormat.

(** Modelled from the spec: the KeyFormat codec is not part of the sources
    at hand.  A key is the prefix byte followed by its fields; an integer
    field is eight bytes, big-endian; [Scan] reverses the encoding and skips
    the prefix. *)
Fixpoint be_bytes (n : nat) (x : Z) : bytes :=
  match n with
  | O => []
  | S n' => be_bytes n' (x / 256) ++ [x mod 256]
  end.

(** Modelled from the spec: the codec, absent from the sources; the value
    of a big-endian byte string. *)
Definition be_value (bs : bytes) : Z :=
  fold_left (fun acc b => acc * 256 + b) bs 0.

(** Modelled from the spec: the codec, absent from the sources; an [int64]
    field is the eight big-endian bytes of its two's complement. *)
Definition packInt64 (v : Z) : bytes := be_bytes 8 (v mod 2 ^ 64).

(** Modelled from the spec: the codec, absent from the sources; the inverse
    of [packInt64]. *)
Definition unpackInt64 (bs : bytes) : Z := Int64.wrap (be_value bs).

Definition int64Size : nat := 8.
Definition hashSize : nat := 32.

(** Modelled from the spec: the codec, absent from the sources; the node
    key [n<hash>]. *)
Definition nodeKey (hash : bytes) : bytes := 110 :: hash.

(** Modelled from the spec: the codec, absent from the sources; the orphan
    key [o<last-version><first-version><hash>]. *)
Definition orphanKeyFormat_Key (toVersion fromVersion : Z) (hash : bytes) : bytes :=
  111 :: packInt64 toVersion ++ packInt64 fromVersion ++ hash.

(** Modelled from the spec: the codec, absent from the sources; the prefix
    [orphanKeyFormat.Key(version)] of the orphans ending at a version. *)
Definition orphanKeyFormat_Key1 (toVersion : Z) : bytes :=
  111 :: packInt64 toVersion.

(** Modelled from the spec: the codec, absent from the sources; the prefix
    [orphanKeyFormat.Key()] of all orphans. *)
Definition orphanKeyFormat_Key0 : bytes := [111].

(** Modelled from the spec: the codec, absent from the sources;
    [orphanKeyFormat.Scan(key, &toVersion, &fromVersion)]. *)
Definition orphanKeyFormat_Scan (key : bytes) : Z * Z :=
  (unpackInt64 (take int64Size (drop 1 key)),
   unpackInt64 (take int64Size (drop (1 + int64Size) key))).

(** Modelled from the spec: the codec, absent from the sources; the fast
    node key [f<keystring>]. *)
Definition fastNodeKey (key : bytes) : bytes := 102 :: key.

(** Modelled from the spec: the codec, absent from the sources; the prefix
    [fastKeyFormat.Key()] of all fast nodes. *)
Definition fastKeyFormat_Key0 : bytes := [102].

(** Modelled from the spec: the codec, absent from the sources; the
    metadata key [m<keystring>]. *)
Definition metadataKeyFormat_Key (name : bytes) : bytes := 109 :: name.

(** Modelled from the spec: the codec, absent from the sources; the root
    key [r<version>]. *)
Definition rootKey (version : Z) : bytes := 114 :: packInt64 version.

(** Modelled from the spec: the codec, absent from the sources; the prefix
    [rootKeyFormat.Key()] of all roots. *)
Definition rootKeyFormat_Key0 : bytes := [114].

(** Modelled from the spec: the codec, absent from the sources;
    [rootKeyFormat.Scan(key, &version)]. *)
Definition rootKeyFormat_Scan (key : bytes) : Z :=
  unpackInt64 (take int64Size (drop 1 key)).

End KeyFormat.

Import KeyFormat.

Definition orphanKey (fromVersion toVersion : Z) (hash : bytes) : bytes :=
  orphanKeyFormat_Key toVersion fromVersion hash.

(** ** The backing key-value store *)

Module dbm.

(** Modelled from the spec: the key-value engine is an external
    collaborator.  A store is the list of its records in key order; reads
    are total; a batch buffers [Set] and [Delete] calls and rejects them
    once it is closed. *)
Abbreviation DB := (list (bytes * bytes)).

(** Modelled from the spec: the key-value engine; [get(key)] answers the
    value of the record under the key, if any. *)
Definition Get (db : DB) (key : bytes) : option bytes :=
  snd <$> List.find (fun kv => bool_decide (kv.1 = key)) db.

(** Modelled from the spec: the key-value engine; the keys an iterator over
    [start, end) visits, a missing bound being open. *)
Definition in_domain (start end_ : option bytes) (k : bytes) : bool :=
  match start with Some s => bytes_leb s k | None => true end
  && match end_ with Some e => bytes_ltb k e | None => true end.

(** Modelled from the spec: the key-value engine; [iterator(start, end)]
    yields the records of the range in key order. *)
Definition Iterator (db : DB) (start end_ : option bytes) : DB :=
  List.filter (fun kv => in_domain start end_ kv.1) db.

(** Modelled from the spec: the key-value engine;
    [reverse_iterator(start, end)] yields the same records, last first. *)
Definition ReverseIterator (db : DB) (start end_ : option bytes) : DB :=
  rev (Iterator db start end_).

(** Modelled from the spec: the key-value engine; [prefix_iterator] yields
    the records whose key starts with the prefix, in key order. *)
Definition IteratePrefix (db : DB) (prefix : bytes) : DB :=
  List.filter (fun kv => HasPrefix kv.1 prefix) db.

Inductive BatchOp : Type :=
| BSet (key value : bytes)
| BDelete (key : bytes).

Record Batch : Type := mkBatch { ops : list BatchOp; closed : bool }.

Definition NewBatch : Batch := mkBatch [] false.

(** Modelled from the spec: the key-value engine; a batch buffers the
    write, and fails once it is closed. *)
Definition Batch_Set (b : Batch) (key value : bytes) : error + Batch :=
  if closed b then inl errBatchClosed
  else inr (mkBatch (ops b ++ [BSet key value]) false).

(** Modelled from the spec: the key-value engine; a batch buffers the
    deletion, and fails once it is closed. *)
Definition Batch_Delete (b : Batch) (key : bytes) : error + Batch :=
  if closed b then inl errBatchClosed
  else inr (mkBatch (ops b ++ [BDelete key]) false).

End dbm.

Import dbm.

(** ** Nodes, fast nodes and the LRU queue *)

Module Node.

(** The fields of a tree node that the node database reads or writes. *)
Record t : Type := mk {
  key : bytes;
  value : option bytes;
  hash : bytes;
  leftHash : option bytes;
  rightHash : option bytes;
  version : Z;
  size : Z;
  height : Z;
  persisted : bool
}.

Definition set_loaded (h : bytes) (n : t) : t :=
  mk (key n) (value n) h (leftHash n) (rightHash n) (version n) (size n)
     (height n) true.

End Node.

Module FastNode.

Record t : Type := mk {
  key : bytes;
  versionLastUpdatedAt : Z;
  value : bytes
}.

End FastNode.

Module golist.

(** [container/list]: a doubly-linked list whose elements have an identity.
    An [Element] is the pointer the cache maps hold; [id] stands for its
    address. *)
Record Element (V : Type) : Type := mkElement { id : nat; Value : V }.
Arguments mkElement {V} id Value.
Arguments id {V} e.
Arguments Value {V} e.

Record List (V : Type) : Type := mkList { elems : list (Element V); fresh : nat }.
Arguments mkList {V} elems fresh.
Arguments elems {V} l.
Arguments fresh {V} l.

Definition New {V : Type} : List V := mkList [] O.

Definition PushBack {V : Type} (v : V) (l : List V) : Element V * List V :=
  let e := mkElement (fresh l) v in
  (e, mkList (elems l ++ [e]) (S (fresh l))).

Definition Remove {V : Type} (e : Element V) (l : List V) : List V :=
  mkList (List.filter (fun x => negb (Nat.eqb (id x) (id e))) (elems l)) (fresh l).

Definition MoveToBack {V : Type} (e : Element V) (l : List V) : List V :=
  mkList (List.filter (fun x => negb (Nat.eqb (id x) (id e))) (elems l)
          ++ List.filter (fun x => Nat.eqb (id x) (id e)) (elems l))
         (fresh l).

Definition Front {V : Type} (l : List V) : option (Element V) := head (elems l).

Definition Len {V : Type} (l : List V) : Z := Z.of_nat (length (elems l)).

End golist.

(** ** The node database *)

Definition genesisVersion : Z := 1.
Definition storageVersionKey : string := "storage_version".
Definition fastStorageVersionDelimiter : string := "-".
Definition defaultStorageVersionValue : string := "1.0.0".
Definition fastStorageVersionValue : string := "1.1.0".

Definition errInvalidFastStorageVersion : string :=
  "Fast storage version must be in the format <storage version>"
  ++ fastStorageVersionDelimiter ++ "<latest fast cache version>".

Record nodeDB : Type := mkNodeDB {
  db : DB;
  batch : Batch;
  opts_Sync : bool;
  versionReaders : gmap Z Z;
  storageVersion : string;
  latestVersion : Z;
  nodeCache : gmap bytes (golist.Element Node.t);
  nodeCacheSize : Z;
  nodeCacheQueue : golist.List Node.t;
  fastNodeCache : gmap bytes (golist.Element FastNode.t);
  fastNodeCacheSize : Z;
  fastNodeCacheQueue : golist.List FastNode.t
}.

Definition set_batch (b : Batch) (n : nodeDB) : nodeDB :=
  mkNodeDB (db n) b (opts_Sync n) (versionReaders n) (storageVersion n)
    (latestVersion n) (nodeCache n) (nodeCacheSize n) (nodeCacheQueue n)
    (fastNodeCache n) (fastNodeCacheSize n) (fastNodeCacheQueue n).

Definition set_versionReaders (r : gmap Z Z) (n : nodeDB) : nodeDB :=
  mkNodeDB (db n) (batch n) (opts_Sync n) r (storageVersion n)
    (latestVersion n) (nodeCache n) (nodeCacheSize n) (nodeCacheQueue n)
    (fastNodeCache n) (fastNodeCacheSize n) (fastNodeCacheQueue n).

Definition set_storageVersion (s : string) (n : nodeDB) : nodeDB :=
  mkNodeDB (db n) (batch n) (opts_Sync n) (versionReaders n) s
    (latestVersion n) (nodeCache n) (nodeCacheSize n) (nodeCacheQueue n)
    (fastNodeCache n) (fastNodeCacheSize n) (fastNodeCacheQueue n).

Definition set_latestVersion (v : Z) (n : nodeDB) : nodeDB :=
  mkNodeDB (db n) (batch n) (opts_Sync n) (versionReaders n) (storageVersion n)
    v (nodeCache n) (nodeCacheSize n) (nodeCacheQueue n)
    (fastNodeCache n) (fastNodeCacheSize n) (fastNodeCacheQueue n).

Definition set_nodeCache (c : gmap bytes (golist.Element Node.t))
    (q : golist.List Node.t) (n : nodeDB) : nodeDB :=
  mkNodeDB (db n) (batch n) (opts_Sync n) (versionReaders n) (storageVersion n)
    (latestVersion n) c (nodeCacheSize n) q
    (fastNodeCache n) (fastNodeCacheSize n) (fastNodeCacheQueue n).

Definition set_fastNodeCache (c : gmap bytes (golist.Element FastNode.t))
    (q : golist.List FastNode.t) (n : nodeDB) : nodeDB :=
  mkNodeDB (db n) (batch n) (opts_Sync n) (versionReaders n) (storageVersion n)
    (latestVersion n) (nodeCache n) (nodeCacheSize n) (nodeCacheQueue n)
    c (fastNodeCacheSize n) q.

(** The state monad of the node database.  The state is returned with every
    outcome: Go mutates the receiver in place, also on the paths that end
    in an error. *)
Definition M (A : Type) : Type := nodeDB -> result A * nodeDB.

Definition ret {A : Type} (a : A) : M A := fun ndb => (Ok a, ndb).

Definition bind {A B : Type} (m : M A) (k : A -> M B) : M B :=
  fun ndb =>
    match m ndb with
    | (Ok a, ndb') => k a ndb'
    | (Err e, ndb') => (Err e, ndb')
    | (Panic msg, ndb') => (Panic msg, ndb')
    | (OutOfFuel, ndb') => (OutOfFuel, ndb')
    end.

Definition fail {A : Type} (e : error) : M A := fun ndb => (Err e, ndb).
Definition panic {A : Type} (msg : string) : M A := fun ndb => (Panic msg, ndb).
Definition gets {A : Type} (f : nodeDB -> A) : M A := fun ndb => (Ok (f ndb), ndb).
Definition modify (f : nodeDB -> nodeDB) : M unit := fun ndb => (Ok tt, f ndb).

Declare Scope ndb_scope.
Delimit Scope ndb_scope with ndb.
Notation "'let*' x ':=' m 'in' k" := (bind m (fun x => k))
  (at level 10, x name, m at level 100, k at level 200) : ndb_scope.
Local Open Scope ndb_scope.

(** [err := ndb.batch.Set(key, value)]: the error is handed back as a
    value, the way the Go call does. *)
Definition batch_Set (key value : bytes) : M (option error) :=
  fun ndb =>
    match Batch_Set (batch ndb) key value with
    | inl e => (Ok (Some e), ndb)
    | inr b => (Ok None, set_batch b ndb)
    end.

Definition batch_Delete (key : bytes) : M (option error) :=
  fun ndb =>
    match Batch_Delete (batch ndb) key with
    | inl e => (Ok (Some e), ndb)
    | inr b => (Ok None, set_batch b ndb)
    end.

(** The loop [for ; itr.Valid(); itr.Next()] over the records an iterator
    yields, which stops at the first error. *)
Fixpoint iterate (fn : bytes -> bytes -> M unit) (items : DB) : M unit :=
  match items with
  | [] => ret tt
  | (k, v) :: rest => let* _ := fn k v in iterate fn rest
  end.

Fixpoint for_versions (body : Z -> M unit) (versions : list Z) : M unit :=
  match versions with
  | [] => ret tt
  | v :: rest => let* _ := body v in for_versions body rest
  end.

Definition newNodeDB (d : DB) (cacheSize : Z) (sync : bool) : nodeDB :=
  let storeVersion :=
    match Get d (metadataKeyFormat_Key (bytes_of_string storageVersionKey)) with
    | Some v => string_of_list_ascii (List.map (fun b => ascii_of_N (Z.to_N b)) v)
    | None => defaultStorageVersionValue
    end in
  mkNodeDB d NewBatch sync ∅ storeVersion 0 ∅ cacheSize golist.New
    ∅ cacheSize golist.New.

Definition getStorageVersion (ndb : nodeDB) : string := storageVersion ndb.

Definition hasUpgradedToFastStorage (ndb : nodeDB) : bool :=
  string_geb (getStorageVersion ndb) fastStorageVersionValue.

Definition getPreviousVersion (version : Z) (ndb : nodeDB) : Z :=
  match ReverseIterator (db ndb) (Some (rootKey 1)) (Some (rootKey version)) with
  | (k, _) :: _ => rootKeyFormat_Scan k
  | [] => 0
  end.

Definition getLatestVersion : M Z :=
  fun ndb =>
    if latestVersion ndb =? 0
    then let v := getPreviousVersion (2 ^ 63 - 1) ndb in
         (Ok v, set_latestVersion v ndb)
    else (Ok (latestVersion ndb), ndb).

Definition updateLatestVersion (version : Z) : M unit :=
  modify (fun ndb =>
    if latestVersion ndb <? version then set_latestVersion version ndb else ndb).

Definition resetLatestVersion (version : Z) : M unit :=
  modify (set_latestVersion version).

Definition uncacheNode (hash : bytes) : M unit :=
  modify (fun ndb =>
    match nodeCache ndb !! hash with
    | Some elem =>
        set_nodeCache (delete hash (nodeCache ndb))
                      (golist.Remove elem (nodeCacheQueue ndb)) ndb
    | None => ndb
    end).

Definition cacheNode (node : Node.t) : M unit :=
  modify (fun ndb =>
    let (elem, q) := golist.PushBack node (nodeCacheQueue ndb) in
    let c := <[Node.hash node := elem]> (nodeCache ndb) in
    if nodeCacheSize ndb <? golist.Len q
    then match golist.Front q with
         | Some oldest =>
             set_nodeCache (delete (Node.hash (golist.Value oldest)) c)
                           (golist.Remove oldest q) ndb
         | None => set_nodeCache c q ndb
         end
    else set_nodeCache c q ndb).

Definition uncacheFastNode (key : bytes) : M unit :=
  modify (fun ndb =>
    match fastNodeCache ndb !! key with
    | Some elem =>
        set_fastNodeCache (delete key (fastNodeCache ndb))
                          (golist.Remove elem (fastNodeCacheQueue ndb)) ndb
    | None => ndb
    end).

Definition cacheFastNode (node : FastNode.t) : M unit :=
  modify (fun ndb =>
    let (elem, q) := golist.PushBack node (fastNodeCacheQueue ndb) in
    let c := <[FastNode.key node := elem]> (fastNodeCache ndb) in
    if fastNodeCacheSize ndb <? golist.Len q
    then match golist.Front q with
         | Some oldest =>
             set_fastNodeCache (delete (FastNode.key (golist.Value oldest)) c)
                               (golist.Remove oldest q) ndb
         | None => set_fastNodeCache c q ndb
         end
    else set_fastNodeCache c q ndb).

Definition readers_conflict (p : Z -> bool) (ndb : nodeDB) : option (Z * Z) :=
  List.find (fun vr => p vr.1 && negb (vr.2 =? 0)) (map_to_list (versionReaders ndb)).

(** *** Storage version *)

Definition setFastStorageVersionToBatch : M unit :=
  let* cur := gets storageVersion in
  let* newVersion :=
    (if string_geb cur fastStorageVersionValue
     then
       let versions := Split cur fastStorageVersionDelimiter in
       if (2 <? length versions)%nat
       then fail (errNew errInvalidFastStorageVersion)
       else ret (nth 0 versions EmptyString)
     else ret fastStorageVersionValue) in
  let* latest := getLatestVersion in
  let newVersion := (newVersion ++ fastStorageVersionDelimiter ++ Itoa latest)%string in
  let* err := batch_Set (metadataKeyFormat_Key (bytes_of_string storageVersionKey))
                        (bytes_of_string newVersion) in
  match err with
  | Some e => fail e
  | None => modify (set_storageVersion newVersion)
  end.

Definition shouldForceFastStorageUpgrade : M bool :=
  let* cur := gets storageVersion in
  let versions := Split cur fastStorageVersionDelimiter in
  if (length versions =? 2)%nat
  then
    let* latest := getLatestVersion in
    if negb (String.eqb (nth 1 versions EmptyString) (Itoa latest))
    then ret true
    else ret false
  else ret false.

(** *** Orphans and roots *)

Definition saveOrphan (hash : bytes) (fromVersion toVersion : Z) : M unit :=
  if toVersion <? fromVersion
  then panic "Orphan expires before it comes alive."
  else
    let key := orphanKey fromVersion toVersion hash in
    let* err := batch_Set key hash in
    match err with
    | Some _ => panic "batch.Set"
    | None => ret tt
    end.

Definition traversePrefix (prefix : bytes) (fn : bytes -> bytes -> M unit) : M unit :=
  let* d := gets db in
  iterate fn (IteratePrefix d prefix).

Definition traverseRange (start end_ : option bytes) (fn : bytes -> bytes -> M unit)
    : M unit :=
  let* d := gets db in
  iterate fn (Iterator d start end_).

Definition traverseOrphans (fn : bytes -> bytes -> M unit) : M unit :=
  traversePrefix orphanKeyFormat_Key0 fn.

Definition traverseFastNodes (fn : bytes -> bytes -> M unit) : M unit :=
  traversePrefix fastKeyFormat_Key0 fn.

Definition traverseOrphansVersion (version : Z) (fn : bytes -> bytes -> M unit)
    : M unit :=
  traversePrefix (orphanKeyFormat_Key1 version) fn.

(** The closure [deleteOrphans] hands to the traversal. *)
Definition deleteOrphans_fn (predecessor : Z) (key hash : bytes) : M unit :=
  let '(toVersion, fromVersion) := orphanKeyFormat_Scan key in
  let* err := batch_Delete key in
  match err with
  | Some e => fail e
  | None =>
      if (predecessor <? fromVersion) || (fromVersion =? toVersion)
      then
        let* err := batch_Delete (nodeKey hash) in
        match err with
        | Some e => fail e
        | None => uncacheNode hash
        end
      else saveOrphan hash fromVersion predecessor
  end.

Definition deleteOrphans (version : Z) : M unit :=
  let* predecessor := gets (getPreviousVersion version) in
  traverseOrphansVersion version (deleteOrphans_fn predecessor).

Definition deleteRoot (version : Z) (checkLatestVersion : bool) : M unit :=
  let* isLatest :=
    (if checkLatestVersion
     then let* latest := getLatestVersion in ret (version =? latest)
     else ret false) in
  if isLatest
  then fail (errNew "Tried to delete latest version")
  else
    let* err := batch_Delete (rootKey version) in
    match err with
    | Some e => fail e
    | None => ret tt
    end.

Definition DeleteVersion (version : Z) (checkLatestVersion : bool) : M unit :=
  let* readers := gets (fun ndb => default 0 (versionReaders ndb !! version)) in
  if 0 <? readers
  then fail (errActiveReaders version readers)
  else
    let* _ := deleteOrphans version in
    deleteRoot version checkLatestVersion.

Definition saveRoot (hash : bytes) (version : Z) : M unit :=
  let* latest := getLatestVersion in
  if (0 <? latest) && negb (version =? Int64.add latest 1)
  then fail (errNonConsecutive (Int64.add latest 1) version)
  else
    let* err := batch_Set (rootKey version) hash in
    match err with
    | Some e => fail e
    | None => updateLatestVersion version
    end.

Definition SaveRoot (root : Node.t) (version : Z) : M unit :=
  if (length (Node.hash root) =? 0)%nat
  then panic "SaveRoot: root hash should not be empty"
  else saveRoot (Node.hash root) version.

Definition SaveEmptyRoot (version : Z) : M unit := saveRoot [] version.

(** *** Version readers *)

Definition incrVersionReaders (version : Z) : M unit :=
  modify (fun ndb =>
    set_versionReaders
      (<[version := Uint32.wrap (default 0 (versionReaders ndb !! version) + 1)]>
         (versionReaders ndb)) ndb).

Definition decrVersionReaders (version : Z) : M unit :=
  modify (fun ndb =>
    if 0 <? default 0 (versionReaders ndb !! version)
    then set_versionReaders
           (<[version := Uint32.wrap (default 0 (versionReaders ndb !! version) - 1)]>
              (versionReaders ndb)) ndb
    else ndb).

(** *** Deleting a range of versions *)

Definition evictFastNodes (fromVersion toVersion : Z) : M unit :=
  modify (fun ndb =>
    fold_right
      (fun (ke : bytes * golist.Element FastNode.t) (n : nodeDB) =>
         let fastNode := golist.Value ke.2 in
         if (fromVersion <=? FastNode.versionLastUpdatedAt fastNode)
            && (FastNode.versionLastUpdatedAt fastNode <? toVersion)
         then set_fastNodeCache (delete ke.1 (fastNodeCache n))
                                (golist.Remove ke.2 (fastNodeCacheQueue n)) n
         else n)
      ndb (map_to_list (fastNodeCache ndb))).

(** The closure [DeleteVersionsRange] hands to the orphan traversal. *)
Definition DeleteVersionsRange_fn (predecessor : Z) (key hash : bytes) : M unit :=
  let '(to, from) := orphanKeyFormat_Scan key in
  let* err := batch_Delete key in
  match err with
  | Some e => fail e
  | None =>
      if predecessor <? from
      then
        let* err := batch_Delete (nodeKey hash) in
        match err with
        | Some _ => panic "batch.Delete"
        | None =>
            let* _ := uncacheNode hash in
            uncacheFastNode key
        end
      else saveOrphan hash from predecessor
  end.

(** The closure that deletes every root record the range traversal yields. *)
Definition deleteRecord_fn (k v : bytes) : M unit :=
  let* err := batch_Delete k in
  match err with
  | Some e => fail e
  | None => ret tt
  end.

Definition DeleteVersionsRange (fromVersion toVersion : Z) : M unit :=
  if toVersion <=? fromVersion
  then fail (errNew "toVersion must be greater than fromVersion")
  else if toVersion =? 0
  then fail (errNew "toVersion must be greater than 0")
  else
    let* latest := getLatestVersion in
    if latest <? toVersion
    then fail (errCannotDeleteLatest latest)
    else
      let* predecessor := gets (getPreviousVersion fromVersion) in
      let* conflict := gets (readers_conflict
                               (fun v => (v <? toVersion) && (predecessor <? v))) in
      match conflict with
      | Some (v, r) => fail (errActiveReaders v r)
      | None =>
          let* _ :=
            for_versions (fun version =>
              traverseOrphansVersion version (DeleteVersionsRange_fn predecessor))
              (seqZ fromVersion (toVersion - fromVersion)) in
          let* _ := evictFastNodes fromVersion toVersion in
          traverseRange (Some (rootKey fromVersion)) (Some (rootKey toVersion))
            deleteRecord_fn
      end.

(** *** Rolling back the latest versions *)

Section Decoders.

(** The binary encoding of node and fast-node records is an external
    collaborator: the decoders are parameters of the operations that read
    records back. *)
Variable MakeNode : bytes -> error + Node.t.
Variable DeserializeFastNode : bytes -> bytes -> error + FastNode.t.

Definition GetNode (hash : bytes) : M Node.t :=
  if (length hash =? 0)%nat
  then panic "nodeDB.GetNode() requires hash"
  else
    let* cached := gets (fun ndb => nodeCache ndb !! hash) in
    match cached with
    | Some elem =>
        let* _ := modify (fun ndb =>
                    set_nodeCache (nodeCache ndb)
                      (golist.MoveToBack elem (nodeCacheQueue ndb)) ndb) in
        ret (golist.Value elem)
    | None =>
        let* buf := gets (fun ndb => Get (db ndb) (nodeKey hash)) in
        match buf with
        | None => panic "Value missing for hash"
        | Some buf =>
            match MakeNode buf with
            | inl _ => panic "Error reading Node."
            | inr node =>
                let node := Node.set_loaded hash node in
                let* _ := cacheNode node in
                ret node
            end
        end
    end.

Definition DeleteFastNode (key : bytes) : M unit :=
  let* err := batch_Delete (fastNodeKey key) in
  match err with
  | Some e => fail e
  | None => uncacheFastNode key
  end.

(** The recursion follows the hashes stored in the database, which need
    not be well-founded: [fuel] bounds its depth. *)
Fixpoint deleteNodesFrom (fuel : nat) (version : Z) (hash : bytes) : M unit :=
  if (length hash =? 0)%nat
  then ret tt
  else
    match fuel with
    | O => fun ndb => (OutOfFuel, ndb)
    | S fuel' =>
        let* node := GetNode hash in
        let* _ :=
          match Node.leftHash node with
          | Some h => deleteNodesFrom fuel' version h
          | None => ret tt
          end in
        let* _ :=
          match Node.rightHash node with
          | Some h => deleteNodesFrom fuel' version h
          | None => ret tt
          end in
        if version <=? Node.version node
        then
          let* err := batch_Delete (nodeKey hash) in
          match err with
          | Some e => fail e
          | None => uncacheNode hash
          end
        else ret tt
    end.

Definition getRoot (version : Z) (ndb : nodeDB) : option bytes :=
  Get (db ndb) (rootKey version).

(** The closure [DeleteVersionsFrom] hands to the traversal of all orphans. *)
Definition DeleteVersionsFrom_orphan_fn (version : Z) (key hash : bytes) : M unit :=
  let '(toVersion, fromVersion) := orphanKeyFormat_Scan key in
  if version <=? fromVersion
  then
    let* err := batch_Delete key in
    match err with
    | Some e => fail e
    | None =>
        let* err := batch_Delete (nodeKey hash) in
        match err with
        | Some e => fail e
        | None => ret tt
        end
    end
  else if Int64.sub version 1 <=? toVersion
  then
    let* err := batch_Delete key in
    match err with
    | Some e => fail e
    | None => ret tt
    end
  else ret tt.

(** The closure [DeleteVersionsFrom] hands to the traversal of fast nodes. *)
Definition DeleteVersionsFrom_fast_fn (version : Z) (keyWithPrefix v : bytes)
    : M unit :=
  let key := drop 1 keyWithPrefix in
  match DeserializeFastNode key v with
  | inl e => fail e
  | inr fastNode =>
      if version <=? FastNode.versionLastUpdatedAt fastNode
      then DeleteFastNode (FastNode.key fastNode)
      else ret tt
  end.

Definition DeleteVersionsFrom (fuel : nat) (version : Z) : M unit :=
  let* latest := getLatestVersion in
  if latest <? version
  then ret tt
  else
    let* root := gets (getRoot latest) in
    match root with
    | None => fail (errRootNotFound latest)
    | Some root =>
        let* conflict := gets (readers_conflict (fun v => version <=? v)) in
        match conflict with
        | Some (v, r) => fail (errActiveReaders v r)
        | None =>
            let* _ := deleteNodesFrom fuel version root in
            let* _ := traverseOrphans (DeleteVersionsFrom_orphan_fn version) in
            let* _ :=
              traverseRange (Some (rootKey version)) (Some (rootKey Int64.MaxInt64))
                deleteRecord_fn in
            traverseFastNodes (DeleteVersionsFrom_fast_fn version)
        end
    end.

End Decoders.

(** ** ICS23 proofs *)

Module binary.

(** [encoding/binary.PutUvarint] on a [uint64]; ten bytes always suffice. *)
Fixpoint PutUvarint (fuel : nat) (x : Z) : bytes :=
  match fuel with
  | O => []
  | S fuel' =>
      if 128 <=? x
      then Z.lor (x mod 256) 128 :: PutUvarint fuel' (Z.shiftr x 7)
      else [x mod 256]
  end.

Definition MaxVarintLen64 : nat := 10.

(** [encoding/binary.PutVarint]: zig-zag encoding of an [int64]. *)
Definition PutVarint (x : Z) : bytes :=
  let ux := Z.shiftl (x mod 2 ^ 64) 1 mod 2 ^ 64 in
  let ux := if x <? 0 then Z.lxor ux (2 ^ 64 - 1) else ux in
  PutUvarint MaxVarintLen64 ux.

End binary.

Module ics23.

Inductive HashOp : Type := HashOp_NO_HASH | HashOp_SHA256.
Inductive LengthOp : Type := LengthOp_NO_PREFIX | LengthOp_VAR_PROTO.

Module LeafOp.
Record t : Type := mk {
  Hash : HashOp;
  PrehashValue : HashOp;
  Length : LengthOp;
  Prefix : bytes
}.
End LeafOp.

Module InnerOp.
Record t : Type := mk {
  Hash : HashOp;
  Prefix : bytes;
  Suffix : bytes
}.
End InnerOp.

Module ExistenceProof.
Record t : Type := mk {
  Key : bytes;
  Value : bytes;
  Leaf : LeafOp.t;
  Path : list InnerOp.t
}.
End ExistenceProof.

Module NonExistenceProof.
Record t : Type := mk {
  Key : bytes;
  Left : option ExistenceProof.t;
  Right : option ExistenceProof.t
}.
End NonExistenceProof.

Inductive CommitmentProof : Type :=
| CommitmentProof_Exist (Exist : ExistenceProof.t)
| CommitmentProof_Nonexist (Nonexist : NonExistenceProof.t).

End ics23.

Module ProofInnerNode.
Record t : Type := mk {
  Height : Z;
  Size : Z;
  Version : Z;
  Left : bytes;
  Right : bytes
}.
End ProofInnerNode.

Module ProofLeafNode.
Record t : Type := mk {
  Key : bytes;
  ValueHash : bytes;
  Version : Z
}.
End ProofLeafNode.

Abbreviation PathToLeaf := (list ProofInnerNode.t).

Module RangeProof.
Record t : Type := mk {
  LeftPath : PathToLeaf;
  Leaves : list ProofLeafNode.t
}.
End RangeProof.

Definition convertVarIntToBytes (orig : Z) : bytes := binary.PutVarint orig.

Definition convertLeafOp (version : Z) : ics23.LeafOp.t :=
  let prefix := convertVarIntToBytes 0 in
  let prefix := prefix ++ convertVarIntToBytes 1 in
  let prefix := prefix ++ convertVarIntToBytes version in
  ics23.LeafOp.mk ics23.HashOp_SHA256 ics23.HashOp_SHA256
    ics23.LengthOp_VAR_PROTO prefix.

Definition lengthByte : Z := 32.

(** The body of the loop of [convertInnerOps] at one path step. *)
Definition convertInnerOps_step (p : ProofInnerNode.t) : ics23.InnerOp.t :=
  let prefix := convertVarIntToBytes (ProofInnerNode.Height p) in
  let prefix := prefix ++ convertVarIntToBytes (ProofInnerNode.Size p) in
  let prefix := prefix ++ convertVarIntToBytes (ProofInnerNode.Version p) in
  if (0 <? length (ProofInnerNode.Left p))%nat
  then
    let prefix := prefix ++ [lengthByte] in
    let prefix := prefix ++ ProofInnerNode.Left p in
    let prefix := prefix ++ [lengthByte] in
    ics23.InnerOp.mk ics23.HashOp_SHA256 prefix []
  else
    let prefix := prefix ++ [lengthByte] in
    let suffix := [lengthByte] in
    let suffix := suffix ++ ProofInnerNode.Right p in
    ics23.InnerOp.mk ics23.HashOp_SHA256 prefix suffix.

(** The loop [for i := len(path) - 1; i >= 0; i--]: [n] is [i + 1]. *)
Fixpoint convertInnerOps_loop (path : PathToLeaf) (n : nat)
    (steps : list ics23.InnerOp.t) : list ics23.InnerOp.t :=
  match n with
  | O => steps
  | S i =>
      match path !! i with
      | Some p => convertInnerOps_loop path i (steps ++ [convertInnerOps_step p])
      | None => steps
      end
  end.

Definition convertInnerOps (path : PathToLeaf) : list ics23.InnerOp.t :=
  convertInnerOps_loop path (length path) [].

Definition convertExistenceProof (p : RangeProof.t) (key value : bytes)
    : error + ics23.ExistenceProof.t :=
  if negb (length (RangeProof.Leaves p) =? 1)%nat
  then inl (errNew "existence proof requires RangeProof to have exactly one leaf")
  else
    match RangeProof.Leaves p with
    | leaf :: _ =>
        inr (ics23.ExistenceProof.mk key value
               (convertLeafOp (ProofLeafNode.Version leaf))
               (convertInnerOps (RangeProof.LeftPath p)))
    | [] => inl (errNew "existence proof requires RangeProof to have exactly one leaf")
    end.

Module ImmutableTree.

(** Modelled from the spec: the in-memory tree is an external collaborator.
    A tree is the list of its leaves in key order; [GetWithIndex] locates
    the index at which a key is or would be inserted, with its value when
    present; [GetByIndex] reads the leaf at an index. *)
Abbreviation t := (list (bytes * bytes)).

(** Modelled from the spec: the tree's lookup, absent from the sources;
    the index at which the key is or would be inserted, and the value when
    the key is present. *)
Fixpoint GetWithIndex (tree : t) (key : bytes) : Z * option bytes :=
  match tree with
  | [] => (0, None)
  | (k, v) :: rest =>
      match bytes_compare k key with
      | Lt => let (i, r) := GetWithIndex rest key in (i + 1, r)
      | Eq => (0, Some v)
      | Gt => (0, None)
      end
  end.

(** Modelled from the spec: the tree's lookup, absent from the sources;
    the key and value at an index, if any. *)
Definition GetByIndex (tree : t) (index : Z) : option (bytes * bytes) :=
  if index <? 0 then None else tree !! Z.to_nat index.

End ImmutableTree.

Section Proofs.

(** [GetWithProof] builds the range proof of a key by walking the tree;
    it is a parameter here. *)
Variable GetWithProof :
  ImmutableTree.t -> bytes -> error + (option bytes * RangeProof.t).

Definition createExistenceProof (tree : ImmutableTree.t) (key : bytes)
    : error + ics23.ExistenceProof.t :=
  match GetWithProof tree key with
  | inl e => inl e
  | inr (None, _) =>
      inl (errNew "cannot create ExistanceProof when Key not in State")
  | inr (Some value, proof) => convertExistenceProof proof key value
  end.

Definition getNonMembershipProof (tree : ImmutableTree.t) (key : bytes)
    : error + ics23.NonExistenceProof.t :=
  let (idx, val) := ImmutableTree.GetWithIndex tree key in
  match val with
  | Some _ => inl (errNew "cannot create NonExistanceProof when Key in State")
  | None =>
      let lproof :=
        if 1 <=? idx
        then
          let leftkey :=
            match ImmutableTree.GetByIndex tree (idx - 1) with
            | Some (k, _) => k
            | None => []
            end in
          match createExistenceProof tree leftkey with
          | inl e => inl e
          | inr p => inr (Some p)
          end
        else inr None in
      match lproof with
      | inl e => inl e
      | inr lproof =>
          match ImmutableTree.GetByIndex tree idx with
          | Some (rightkey, _) =>
              match createExistenceProof tree rightkey with
              | inl e => inl e
              | inr p => inr (ics23.NonExistenceProof.mk key lproof (Some p))
              end
          | None => inr (ics23.NonExistenceProof.mk key lproof None)
          end
      end
  end.

Definition GetMembershipProof (tree : ImmutableTree.t) (key : bytes)
    : error + ics23.CommitmentProof :=
  match createExistenceProof tree key with
  | inl e => inl e
  | inr ex => inr (ics23.CommitmentProof_Exist ex)
  end.

Definition GetNonMembershipProof (tree : ImmutableTree.t) (key : bytes)
    : error + ics23.CommitmentProof :=
  match getNonMembershipProof tree key with
  | inl e => inl e
  | inr nonexist => inr (ics23.CommitmentProof_Nonexist nonexist)
  end.

End Proofs.

(** ** Observations used in the statements *)

(** The version [getLatestVersion] answers with in a state. *)
Definition latest_of (ndb : nodeDB) : Z :=
  match (getLatestVersion ndb).1 with
  | Ok v => v
  | _ => 0
  end.

(** The reader count of a version: a Go map answers 0 for a missing key. *)
Definition readers (ndb : nodeDB) (version : Z) : Z :=
  default 0 (versionReaders ndb !! version).

Inductive ReaderCall : Type :=
| Incr (version : Z)
| Decr (version : Z).

Definition run_reader_call (ndb : nodeDB) (c : ReaderCall) : nodeDB :=
  match c with
  | Incr v => (incrVersionReaders v ndb).2
  | Decr v => (decrVersionReaders v ndb).2
  end.

Definition run_reader_calls (calls : list ReaderCall) (ndb : nodeDB) : nodeDB :=
  fold_left run_reader_call calls ndb.

(** The inner operation the spec describes for one path step. *)
Definition spec_InnerOp (p : ProofInnerNode.t) : ics23.InnerOp.t :=
  let common :=
    binary.PutVarint (ProofInnerNode.Height p)
    ++ binary.PutVarint (ProofInnerNode.Size p)
    ++ binary.PutVarint (ProofInnerNode.Version p) in
  match ProofInnerNode.Left p with
  | [] =>
      ics23.InnerOp.mk ics23.HashOp_SHA256 (common ++ [32])
        (32 :: ProofInnerNode.Right p)
  | _ :: _ =>
      ics23.InnerOp.mk ics23.HashOp_SHA256
        (common ++ [32] ++ ProofInnerNode.Left p ++ [32]) []
  end.

(** The part of the state that version deletion reads but never writes. *)
Definition same_store (n n' : nodeDB) : Prop :=
  db n' = db n /\ latestVersion n' = latestVersion n
  /\ versionReaders n' = versionReaders n
  /\ storageVersion n' = storageVersion n.

(** The batch operations [deleteOrphans] issues for one orphan record. *)
Definition deleteOrphans_effect (predecessor : Z) (key hash : bytes)
    : list BatchOp :=
  let '(toVersion, fromVersion) := orphanKeyFormat_Scan key in
  BDelete key
  :: (if (predecessor <? fromVersion) || (fromVersion =? toVersion)
      then [BDelete (nodeKey hash)]
      else [BSet (orphanKey fromVersion predecessor hash) hash]).

(** ** A small database used in the examples

    Three versions.  Version 3 is the live tree: the root [hR3] over the
    leaves [hL] (key 8, written at version 1) and [hN] (key 7, written at
    version 3).  The leaf [hA] held key 7 at version 1 and [hM] at version
    2; [hB] lived through versions 1 and 2; [hR1] and [hR2] are the earlier
    roots.  Records are listed in key order. *)
Module Sample.

Definition hA : bytes := repeat 10 32.
Definition hB : bytes := repeat 11 32.
Definition hM : bytes := repeat 12 32.
Definition hL : bytes := repeat 14 32.
Definition hN : bytes := repeat 15 32.
Definition hR1 : bytes := repeat 21 32.
Definition hR2 : bytes := repeat 22 32.
Definition hR3 : bytes := repeat 23 32.

(** A decoder for the examples: a record is the version, one key byte and,
    for an inner node, the two child hashes. *)
Definition MakeNode (buf : bytes) : error + Node.t :=
  match buf with
  | [version; k] =>
      inr (Node.mk [k] (Some []) [] None None version 1 0 false)
  | version :: k :: children =>
      inr (Node.mk [k] None [] (Some (take 32 children))
             (Some (drop 32 children)) version 2 1 false)
  | _ => inl (errNew "invalid node record")
  end.

(** A decoder for the examples: a fast record is the version and the value. *)
Definition DeserializeFastNode (key v : bytes) : error + FastNode.t :=
  match v with
  | version :: value => inr (FastNode.mk key version value)
  | [] => inl (errNew "invalid fast node record")
  end.

Definition records : DB :=
  [ (fastNodeKey [7], [3; 70]);
    (fastNodeKey [8], [1; 80]);
    (nodeKey hA, [1; 7]);
    (nodeKey hB, [1; 9]);
    (nodeKey hM, [2; 7]);
    (nodeKey hL, [1; 8]);
    (nodeKey hN, [3; 7]);
    (nodeKey hR1, [1; 8]);
    (nodeKey hR2, [2; 8]);
    (nodeKey hR3, 3 :: 8 :: hL ++ hN);
    (orphanKey 1 1 hA, hA);
    (orphanKey 1 1 hR1, hR1);
    (orphanKey 1 2 hB, hB);
    (orphanKey 2 2 hM, hM);
    (orphanKey 2 2 hR2, hR2);
    (rootKey 1, hR1);
    (rootKey 2, hR2);
    (rootKey 3, hR3) ].

(** The database opened on these records, with the orphaned leaf [hA] in
    the node cache and the current fast node of its key 7 in the fast-node
    cache. *)
Definition ndb : nodeDB :=
  (cacheFastNode (FastNode.mk [7] 3 [70])
     (cacheNode (Node.mk [7] (Some []) hA None None 1 1 0 true)
        (newNodeDB records 16 false)).2).2.

(** A tree of three leaves, and a stand-in for [GetWithProof] that answers
    for a key of the tree with its value and a proof of one leaf. *)
Definition tree : ImmutableTree.t := [([1], [10]); ([3], [30]); ([5], [50])].

Definition GetWithProof (t : ImmutableTree.t) (key : bytes)
    : error + (option bytes * RangeProof.t) :=
  match List.find (fun kv => bool_decide (kv.1 = key)) t with
  | Some (_, v) => inr (Some v, RangeProof.mk [] [ProofLeafNode.mk key v 1])
  | None => inr (None, RangeProof.mk [] [])
  end.

End Sample.


(** A step that keeps the store, keeps the batch open or closed as it was,
    and only appends to the batch. *)
Definition extends_batch (n n' : nodeDB) : Prop :=
  same_store n n'
  /\ closed (batch n') = closed (batch n)
  /\ exists added, ops (batch n') = ops (batch n) ++ added.

(** A computation all of whose outcomes extend the batch. *)
Definition frames {A : Type} (m : M A) : Prop :=
  forall n r n', m n = (r, n') -> extends_batch n n'.


(** The leaves of a tree are in strictly increasing key order. *)
Definition keys_sorted (tree : ImmutableTree.t) : Prop :=
  StronglySorted (fun a b => bytes_compare a.1 b.1 = Lt) tree.

(** The batch operations [DeleteVersionsRange] issues for one orphan record. *)
Definition DeleteVersionsRange_effect (predecessor : Z) (key hash : bytes)
    : list BatchOp :=
  let '(toVersion, fromVersion) := orphanKeyFormat_Scan key in
  BDelete key
  :: (if predecessor <? fromVersion
      then [BDelete (nodeKey hash)]
      else [BSet (orphanKey fromVersion predecessor hash) hash]).

(** A step that keeps the store and removes entries from the caches at
    most. *)
Definition caches_shrink (n n' : nodeDB) : Prop :=
  same_store n n'
  /\ (forall h, nodeCache n !! h = None -> nodeCache n' !! h = None)
  /\ (forall k, fastNodeCache n !! k = None -> fastNodeCache n' !! k = None).

(** ** Further operations of the node database *)

Definition set_db (d : DB) (n : nodeDB) : nodeDB :=
  mkNodeDB d (batch n) (opts_Sync n) (versionReaders n) (storageVersion n)
    (latestVersion n) (nodeCache n) (nodeCacheSize n) (nodeCacheQueue n)
    (fastNodeCache n) (fastNodeCacheSize n) (fastNodeCacheQueue n).

(** [Has]: whether a node record exists under the hash. *)
Definition Has (hash : bytes) (ndb : nodeDB) : bool :=
  match Get (db ndb) (nodeKey hash) with
  | Some _ => true
  | None => false
  end.

Definition HasRoot (version : Z) (ndb : nodeDB) : bool :=
  match Get (db ndb) (rootKey version) with
  | Some _ => true
  | None => false
  end.

(** [getRoots]: the map the traversal of the root prefix fills in, record
    after record. *)
Definition getRoots (ndb : nodeDB) : gmap Z bytes :=
  fold_left (fun (roots : gmap Z bytes) (kv : bytes * bytes) =>
               <[rootKeyFormat_Scan kv.1 := kv.2]> roots)
    (IteratePrefix (db ndb) rootKeyFormat_Key0) ∅.

(** [getFastIterator]: the records between the formatted bounds; a [nil]
    bound is the fast prefix itself, with its byte incremented at the
    end. *)
Definition getFastIterator (start end_ : option bytes) (ascending : bool)
    (ndb : nodeDB) : DB :=
  let startFormatted :=
    match start with
    | Some s => fastNodeKey s
    | None => fastKeyFormat_Key0
    end in
  let endFormatted :=
    match end_ with
    | Some e => fastNodeKey e
    | None =>
        match fastKeyFormat_Key0 with
        | b :: rest => (b + 1) mod 256 :: rest
        | [] => []
        end
    end in
  if ascending
  then Iterator (db ndb) (Some startFormatted) (Some endFormatted)
  else ReverseIterator (db ndb) (Some startFormatted) (Some endFormatted).

(** The loop of [SaveOrphans] over the entries of the orphan map. *)
Fixpoint saveOrphans_loop (toVersion : Z) (orphans : list (bytes * Z)) : M unit :=
  match orphans with
  | [] => ret tt
  | (hash, fromVersion) :: rest =>
      let* _ := saveOrphan hash fromVersion toVersion in
      saveOrphans_loop toVersion rest
  end.

Definition SaveOrphans (version : Z) (orphans : gmap bytes Z) : M unit :=
  let* toVersion := gets (getPreviousVersion version) in
  saveOrphans_loop toVersion (map_to_list orphans).

(** Modelled from the spec: the key-value engine; a record set in a store,
    which stays in key order. *)
Fixpoint db_set (d : DB) (k v : bytes) : DB :=
  match d with
  | [] => [(k, v)]
  | (k0, v0) :: rest =>
      match bytes_compare k k0 with
      | Lt => (k, v) :: d
      | Eq => (k, v) :: rest
      | Gt => (k0, v0) :: db_set rest k v
      end
  end.

(** Modelled from the spec: the key-value engine; a record deleted from a
    store. *)
Definition db_delete (d : DB) (k : bytes) : DB :=
  List.filter (fun kv => negb (bool_decide (kv.1 = k))) d.

(** Modelled from the spec: the key-value engine; the effect of one buffered
    operation. *)
Definition db_apply (d : DB) (op : BatchOp) : DB :=
  match op with
  | BSet k v => db_set d k v
  | BDelete k => db_delete d k
  end.

(** Modelled from the spec: the key-value engine; [write] applies the
    buffered operations in order, all or none, and fails on a closed
    batch. *)
Definition Batch_Write (b : Batch) (d : DB) : error + DB :=
  if closed b then inl errBatchClosed
  else inr (fold_left db_apply (ops b) d).

(** Modelled from the spec: the key-value engine; [write_sync] is [write]
    made durable. *)
Definition Batch_WriteSync (b : Batch) (d : DB) : error + DB := Batch_Write b d.

Definition Commit : M unit :=
  fun ndb =>
    let written :=
      if opts_Sync ndb
      then Batch_WriteSync (batch ndb) (db ndb)
      else Batch_Write (batch ndb) (db ndb) in
    match written with
    | inl _ => (Err (errNew "failed to write batch"), ndb)
    | inr d => (Ok tt, set_batch NewBatch (set_db d ndb))
    end.

Definition resetBatch : M unit :=
  fun ndb =>
    let written :=
      if opts_Sync ndb
      then Batch_WriteSync (batch ndb) (db ndb)
      else Batch_Write (batch ndb) (db ndb) in
    match written with
    | inl e => (Err e, ndb)
    | inr d => (Ok tt, set_batch NewBatch (set_db d ndb))
    end.

Section FastNodes.

Variable DeserializeFastNode : bytes -> bytes -> error + FastNode.t.

Definition GetFastNode (key : bytes) : M (option FastNode.t) :=
  let* upgraded := gets hasUpgradedToFastStorage in
  if negb upgraded
  then fail (errNew "storage version is not fast")
  else if (length key =? 0)%nat
  then fail (errNew "nodeDB.GetFastNode() requires key, len(key) equals 0")
  else
    let* cached := gets (fun ndb => fastNodeCache ndb !! key) in
    match cached with
    | Some elem =>
        let* _ := modify (fun ndb =>
                    set_fastNodeCache (fastNodeCache ndb)
                      (golist.MoveToBack elem (fastNodeCacheQueue ndb)) ndb) in
        ret (Some (golist.Value elem))
    | None =>
        let* buf := gets (fun ndb => Get (db ndb) (fastNodeKey key)) in
        match buf with
        | None => ret None
        | Some buf =>
            match DeserializeFastNode key buf with
            | inl _ => fail (errNew "error reading FastNode.")
            | inr fastNode =>
                let* _ := cacheFastNode fastNode in
                ret (Some fastNode)
            end
        end
    end.

End FastNodes.

(** ** The non-membership proof over the fast layer *)

(** Modelled from the spec: the tree's ascending iterator over all keys,
    absent from the sources; it yields the leaves in key order. *)
Definition ImmutableTree_Iterator (tree : ImmutableTree.t) : list (bytes * bytes) :=
  tree.

(** The loop [for ; !done && itr.Valid(); itr.Next()] of
    [getNonMembershipProofFast]. *)
Fixpoint nonMembershipFast_loop (key : bytes) (items : list (bytes * bytes))
    (index : Z) (prevKey nextKey : option bytes) (done : bool)
    : Z * option bytes * option bytes * bool :=
  match items with
  | [] => (index, prevKey, nextKey, done)
  | (k, _) :: rest =>
      if done
      then (index, prevKey, nextKey, done)
      else
        match bytes_compare k key with
        | Lt => nonMembershipFast_loop key rest (index + 1) (Some k) nextKey done
        | Gt => nonMembershipFast_loop key rest index prevKey (Some k) true
        | Eq => nonMembershipFast_loop key rest index prevKey nextKey true
        end
  end.

Section ProofsFast.

Variable GetWithProof :
  ImmutableTree.t -> bytes -> error + (option bytes * RangeProof.t).

Definition getNonMembershipProofFast (tree : ImmutableTree.t) (key : bytes)
    : error + ics23.NonExistenceProof.t :=
  let '(index, prevKey, nextKey, done) :=
    nonMembershipFast_loop key (ImmutableTree_Iterator tree) 0 None None false in
  if done && match nextKey with None => true | Some _ => false end
  then inl (errNew "cannot create NonExistanceProof when Key in State")
  else
    let lproof :=
      match prevKey with
      | Some prevKey =>
          match createExistenceProof GetWithProof tree prevKey with
          | inl e => inl e
          | inr p => inr (Some p)
          end
      | None => inr None
      end in
    match lproof with
    | inl e => inl e
    | inr lproof =>
        match nextKey with
        | Some nextKey =>
            match createExistenceProof GetWithProof tree nextKey with
            | inl e => inl e
            | inr p => inr (ics23.NonExistenceProof.mk key lproof (Some p))
            end
        | None => inr (ics23.NonExistenceProof.mk key lproof None)
        end
    end.

End ProofsFast.

(** The last operation a list of buffered operations holds for a key, if
    any: [Some (Some v)] for a set, [Some None] for a deletion. *)
Definition staged (operations : list BatchOp) (k : bytes)
    : option (option bytes) :=
  fold_left
    (fun acc op =>
       match op with
       | BSet k' v => if decide (k' = k) then Some (Some v) else acc
       | BDelete k' => if decide (k' = k) then Some None else acc
       end)
    operations None.

(** ** Coherence of a cache *)

(** A cache map and its queue agree: every entry of the map is an element
    of the queue whose value has the entry's key, every element of the
    queue is the entry of its value's key, and the elements are distinct
    and older than the next fresh one. *)
Definition lru_coherent {V : Type} (keyof : V -> bytes)
    (cache : gmap bytes (golist.Element V)) (queue : golist.List V) : Prop :=
  (forall k e, cache !! k = Some e ->
     In e (golist.elems queue) /\ keyof (golist.Value e) = k)
  /\ (forall e, In e (golist.elems queue) ->
        cache !! keyof (golist.Value e) = Some e)
  /\ List.NoDup (List.map golist.id (golist.elems queue))
  /\ (forall e, In e (golist.elems queue) ->
        (golist.id e < golist.fresh queue)%nat).

(** A coherent cache within its size limit. *)
Definition lru_ok {V : Type} (keyof : V -> bytes)
    (cache : gmap bytes (golist.Element V)) (queue : golist.List V)
    (size : Z) : Prop :=
  lru_coherent keyof cache queue /\ golist.Len queue <= Z.max 0 size.

Definition nodeCache_ok (ndb : nodeDB) : Prop :=
  lru_ok Node.hash (nodeCache ndb) (nodeCacheQueue ndb) (nodeCacheSize ndb).

Definition fastNodeCache_ok (ndb : nodeDB) : Prop :=
  lru_ok FastNode.key (fastNodeCache ndb) (fastNodeCacheQueue ndb)
    (fastNodeCacheSize ndb).

(** Both caches are coherent, within their limit, and of the given size. *)
Definition caches_ok (size : Z) (ndb : nodeDB) : Prop :=
  nodeCache_ok ndb /\ fastNodeCache_ok ndb
  /\ nodeCacheSize ndb = size /\ fastNodeCacheSize ndb = size.

(** An operation that preserves a property of the state, however it
    ends. *)
Definition keeps {A : Type} (P : nodeDB -> Prop) (m : M A) : Prop :=
  forall n r n', P n -> m n = (r, n') -> P n'.

(** ** Sequences of calls *)

Section Calls.

Variable MakeNode : bytes -> error + Node.t.
Variable DeserializeFastNode : bytes -> bytes -> error + FastNode.t.

(** The operations of the node database modelled here, as a caller issues
    them. *)
Inductive Call : Type :=
| CallGetNode (hash : bytes)
| CallGetFastNode (key : bytes)
| CallDeleteVersion (version : Z) (checkLatestVersion : bool)
| CallDeleteVersionsFrom (fuel : nat) (version : Z)
| CallDeleteVersionsRange (fromVersion toVersion : Z)
| CallSaveOrphans (version : Z) (orphans : gmap bytes Z)
| CallSaveRoot (root : Node.t) (version : Z)
| CallSaveEmptyRoot (version : Z)
| CallSetFastStorageVersionToBatch
| CallCommit
| CallIncrVersionReaders (version : Z)
| CallDecrVersionReaders (version : Z).

(** The state a call leaves, whatever it answers. *)
Definition run_call (ndb : nodeDB) (c : Call) : nodeDB :=
  match c with
  | CallGetNode hash => (GetNode MakeNode hash ndb).2
  | CallGetFastNode key => (GetFastNode DeserializeFastNode key ndb).2
  | CallDeleteVersion version checkLatestVersion =>
      (DeleteVersion version checkLatestVersion ndb).2
  | CallDeleteVersionsFrom fuel version =>
      (DeleteVersionsFrom MakeNode DeserializeFastNode fuel version ndb).2
  | CallDeleteVersionsRange fromVersion toVersion =>
      (DeleteVersionsRange fromVersion toVersion ndb).2
  | CallSaveOrphans version orphans => (SaveOrphans version orphans ndb).2
  | CallSaveRoot root version => (SaveRoot root version ndb).2
  | CallSaveEmptyRoot version => (SaveEmptyRoot version ndb).2
  | CallSetFastStorageVersionToBatch => (setFastStorageVersionToBatch ndb).2
  | CallCommit => (Commit ndb).2
  | CallIncrVersionReaders version => (incrVersionReaders version ndb).2
  | CallDecrVersionReaders version => (decrVersionReaders version ndb).2
  end.

Definition run_calls (calls : list Call) (ndb : nodeDB) : nodeDB :=
  fold_left run_call calls ndb.

End Calls.

(** A database in key order whose records under the root prefix all have
    the root key of some version. *)
Definition roots_wf (d : DB) : Prop :=
  keys_sorted d
  /\ forall k v,
       In (k, v) d -> HasPrefix k rootKeyFormat_Key0 = true ->
       exists w, Int64.in_range w /\ k = rootKey w.

(** A string without the delimiter of fast storage versions. *)
Fixpoint no_delimiter (s : string) : bool :=
  match s with
  | EmptyString => true
  | String c s' => negb (Ascii.eqb c "-") && no_delimiter s'
  end.

(** ** The nodes stored under a hash *)

(** The shape of the nodes [deleteNodesFrom] walks: nothing under an empty
    or missing child hash, and otherwise the node read under the hash with
    what is under its two children. *)
Inductive NodeTree : Type :=
| TNil
| TNode (hash : bytes) (node : Node.t) (left right : NodeTree).

Section Stored.

Variable MakeNode : bytes -> error + Node.t.

(** The records of the database under [hash] decode to the tree. *)
Inductive stored (d : DB) : bytes -> NodeTree -> Prop :=
| stored_nil (hash : bytes) :
    length hash = 0%nat -> stored d hash TNil
| stored_node (hash buf : bytes) (raw : Node.t) (l r : NodeTree) :
    length hash <> 0%nat ->
    Get d (nodeKey hash) = Some buf ->
    MakeNode buf = inr raw ->
    (forall h, Node.leftHash raw = Some h -> stored d h l) ->
    (Node.leftHash raw = None -> l = TNil) ->
    (forall h, Node.rightHash raw = Some h -> stored d h r) ->
    (Node.rightHash raw = None -> r = TNil) ->
    stored d hash (TNode hash (Node.set_loaded hash raw) l r).

(** Every cached node is the node its record decodes to. *)
Definition cache_agrees (n : nodeDB) : Prop :=
  forall h e,
    nodeCache n !! h = Some e ->
    exists buf raw,
      Get (db n) (nodeKey h) = Some buf
      /\ MakeNode buf = inr raw
      /\ golist.Value e = Node.set_loaded h raw.

End Stored.

(** The hashes [deleteNodesFrom] deletes in a tree, children first. *)
Fixpoint doomed (version : Z) (t : NodeTree) : list bytes :=
  match t with
  | TNil => []
  | TNode hash node l r =>
      doomed version l ++ doomed version r
      ++ (if version <=? Node.version node then [hash] else [])
  end.

Fixpoint tree_hashes (t : NodeTree) : list bytes :=
  match t with
  | TNil => []
  | TNode hash _ l r => hash :: tree_hashes l ++ tree_hashes r
  end.

Fixpoint tree_depth (t : NodeTree) : nat :=
  match t with
  | TNil => O
  | TNode _ _ l r => S (Nat.max (tree_depth l) (tree_depth r))
  end.

(** The key a buffered operation names. *)
Definition op_key (op : BatchOp) : bytes :=
  match op with
  | BSet k _ => k
  | BDelete k => k
  end.

(** * Properties *)

Ltac unfold_M := unfold bind, ret, gets, fail, panic, modify in *.

(** ** Basic facts *)

Lemma set_latestVersion_id (ndb : nodeDB) :
  set_latestVersion (latestVersion ndb) ndb = ndb.
Proof. destruct ndb; reflexivity. Qed.

Lemma getLatestVersion_eq (ndb : nodeDB) :
  getLatestVersion ndb
  = (Ok (latest_of ndb), set_latestVersion (latest_of ndb) ndb).
Proof.
  unfold latest_of, getLatestVersion.
  destruct (latestVersion ndb =? 0); simpl; [reflexivity |].
  now rewrite set_latestVersion_id.
Qed.

Lemma latest_of_set_latestVersion (v : Z) (ndb : nodeDB) :
  v <> 0 -> latest_of (set_latestVersion v ndb) = v.
Proof.
  intros Hv. unfold latest_of, getLatestVersion. simpl.
  destruct (v =? 0) eqn:E; [lia | reflexivity].
Qed.

(** ** Storage version *)

(** C6.  [shouldForceFastStorageUpgrade] answers true exactly when the
    storage-version string has two parts around the delimiter and the second
    differs from the decimal latest version; with latest version 100 it
    answers true for 1.1.0-99 and false for 1.1.0-100. *)
Theorem shouldForceFastStorageUpgrade_iff :
  (forall ndb : nodeDB,
     exists b : bool,
       (shouldForceFastStorageUpgrade ndb).1 = Ok b
       /\ (b = true <->
           exists version suffix : string,
             Split (storageVersion ndb) fastStorageVersionDelimiter
             = [version; suffix]
             /\ suffix <> Itoa (latest_of ndb)))
  /\ (forall ndb : nodeDB,
        (shouldForceFastStorageUpgrade
           (set_storageVersion "1.1.0-99" (set_latestVersion 100 ndb))).1
        = Ok true)
  /\ (forall ndb : nodeDB,
        (shouldForceFastStorageUpgrade
           (set_storageVersion "1.1.0-100" (set_latestVersion 100 ndb))).1
        = Ok false).
Proof.
  split; [| split; intros ndb; reflexivity].
  intros ndb. unfold shouldForceFastStorageUpgrade. unfold_M. simpl.
  destruct (Split (storageVersion ndb) fastStorageVersionDelimiter)
    as [| version [| suffix [| extra rest]]] eqn:Hsplit; simpl.
  - exists false. split; [reflexivity |].
    split; [discriminate | intros (v & s & H & _); discriminate].
  - exists false. split; [reflexivity |].
    split; [discriminate | intros (v & s & H & _); discriminate].
  - rewrite getLatestVersion_eq. simpl.
    destruct (String.eqb suffix (Itoa (latest_of ndb))) eqn:Heq; simpl.
    + exists false. split; [reflexivity |].
      split; [discriminate |].
      intros (v & s & H & Hne). inversion H; subst.
      apply String.eqb_eq in Heq. contradiction.
    + exists true. split; [reflexivity |].
      split; [| reflexivity].
      intros _. exists version, suffix. split; [reflexivity |].
      now apply String.eqb_neq.
  - exists false. split; [reflexivity |].
    split; [discriminate | intros (v & s & H & _); discriminate].
Qed.

(** ** Inner operations of an existence proof *)

Lemma convertInnerOps_step_spec (p : ProofInnerNode.t) :
  convertInnerOps_step p = spec_InnerOp p.
Proof.
  unfold convertInnerOps_step, spec_InnerOp, convertVarIntToBytes, lengthByte.
  destruct (ProofInnerNode.Left p) as [| b l]; simpl.
  - now rewrite <- !app_assoc.
  - now rewrite <- !app_assoc.
Qed.

Lemma convertInnerOps_loop_rev (path : PathToLeaf) :
  forall (n : nat) (steps : list ics23.InnerOp.t),
    (n <= length path)%nat ->
    convertInnerOps_loop path n steps
    = steps ++ List.map convertInnerOps_step (rev (take n path)).
Proof.
  induction n as [| i IH]; intros steps Hn; simpl.
  - now rewrite app_nil_r.
  - destruct (path !! i) as [p |] eqn:Hp.
    + rewrite IH by lia.
      rewrite (take_S_r path i p Hp), rev_app_distr. simpl.
      now rewrite <- app_assoc.
    + apply lookup_ge_None in Hp. lia.
Qed.

(** C8.  [convertInnerOps] emits one inner operation per path step, from the
    leaf toward the root, each with the prefix and suffix the spec
    describes. *)
Theorem convertInnerOps_reversed_spec (path : PathToLeaf) :
  convertInnerOps path = List.map spec_InnerOp (rev path).
Proof.
  unfold convertInnerOps.
  rewrite convertInnerOps_loop_rev by lia.
  rewrite firstn_all. simpl.
  apply map_ext. intros p. apply convertInnerOps_step_spec.
Qed.

(** ** Reader counts *)

Lemma readers_incr (ndb : nodeDB) (v w : Z) :
  readers (incrVersionReaders v ndb).2 w
  = if decide (v = w) then Uint32.wrap (readers ndb v + 1) else readers ndb w.
Proof.
  unfold readers, incrVersionReaders, modify. simpl.
  rewrite lookup_insert. destruct (decide (v = w)); reflexivity.
Qed.

Lemma readers_decr (ndb : nodeDB) (v w : Z) :
  readers (decrVersionReaders v ndb).2 w
  = if decide (v = w)
    then (if 0 <? readers ndb v then Uint32.wrap (readers ndb v - 1) else readers ndb v)
    else readers ndb w.
Proof.
  unfold readers, decrVersionReaders, modify. simpl.
  destruct (0 <? default 0 (versionReaders ndb !! v)) eqn:E; simpl.
  - rewrite lookup_insert. destruct (decide (v = w)); reflexivity.
  - destruct (decide (v = w)); subst; reflexivity.
Qed.

Lemma readers_in_range (calls : list ReaderCall) :
  forall ndb : nodeDB,
    (forall w, Uint32.in_range (readers ndb w)) ->
    forall w, Uint32.in_range (readers (run_reader_calls calls ndb) w).
Proof.
  induction calls as [| c calls IH]; intros ndb Hndb w;
    cbn [run_reader_calls fold_left]; [apply Hndb |].
  apply IH. clear w. intros w. destruct c as [v | v]; cbn [run_reader_call].
  - rewrite readers_incr. destruct (decide (v = w)); [| apply Hndb].
    unfold Uint32.in_range, Uint32.wrap. apply Z.mod_pos_bound. lia.
  - rewrite readers_decr. destruct (decide (v = w)); [| apply Hndb].
    destruct (0 <? readers ndb v); [| apply Hndb].
    unfold Uint32.in_range, Uint32.wrap. apply Z.mod_pos_bound. lia.
Qed.

(** C9.  From the empty reader map of a fresh node database, after any
    sequence of increments and decrements every reader count is a
    non-negative [uint32], and a decrement subtracts one truncated at zero:
    at count zero it leaves zero. *)
Theorem version_readers_never_negative :
  forall (d : DB) (cacheSize : Z) (sync : bool) (calls : list ReaderCall)
         (version : Z),
    let ndb := run_reader_calls calls (newNodeDB d cacheSize sync) in
    0 <= readers ndb version < 2 ^ 32
    /\ readers (decrVersionReaders version ndb).2 version
       = Z.max 0 (readers ndb version - 1).
Proof.
  intros d cacheSize sync calls version ndb.
  assert (Hr : Uint32.in_range (readers ndb version)).
  { apply readers_in_range. intros w. unfold readers. simpl.
    rewrite lookup_empty. simpl. unfold Uint32.in_range. lia. }
  split; [exact Hr |].
  rewrite readers_decr. destruct (decide (version = version)); [| congruence].
  unfold Uint32.in_range in Hr.
  destruct (0 <? readers ndb version) eqn:E.
  - apply Z.ltb_lt in E. unfold Uint32.wrap.
    rewrite Z.mod_small by lia. lia.
  - apply Z.ltb_ge in E. lia.
Qed.

(** ** Batch writes *)

Lemma batch_Set_open (key value : bytes) (ndb : nodeDB) :
  closed (batch ndb) = false ->
  batch_Set key value ndb
  = (Ok None, set_batch (mkBatch (ops (batch ndb) ++ [BSet key value]) false) ndb).
Proof. intros H. unfold batch_Set, Batch_Set. now rewrite H. Qed.

Lemma batch_Set_closed (key value : bytes) (ndb : nodeDB) :
  closed (batch ndb) = true ->
  batch_Set key value ndb = (Ok (Some errBatchClosed), ndb).
Proof. intros H. unfold batch_Set, Batch_Set. now rewrite H. Qed.

Lemma batch_Delete_open (key : bytes) (ndb : nodeDB) :
  closed (batch ndb) = false ->
  batch_Delete key ndb
  = (Ok None, set_batch (mkBatch (ops (batch ndb) ++ [BDelete key]) false) ndb).
Proof. intros H. unfold batch_Delete, Batch_Delete. now rewrite H. Qed.

Lemma batch_Delete_closed (key : bytes) (ndb : nodeDB) :
  closed (batch ndb) = true ->
  batch_Delete key ndb = (Ok (Some errBatchClosed), ndb).
Proof. intros H. unfold batch_Delete, Batch_Delete. now rewrite H. Qed.

(** ** Saving a root *)

Lemma saveRoot_eq (hash : bytes) (version : Z) (ndb : nodeDB) :
  saveRoot hash version ndb
  = let latest := latest_of ndb in
    let n1 := set_latestVersion latest ndb in
    if (0 <? latest) && negb (version =? Int64.add latest 1)
    then (Err (errNonConsecutive (Int64.add latest 1) version), n1)
    else if closed (batch ndb)
    then (Err errBatchClosed, n1)
    else
      let n2 :=
        set_batch (mkBatch (ops (batch ndb) ++ [BSet (rootKey version) hash]) false) n1 in
      (Ok tt, if latest <? version then set_latestVersion version n2 else n2).
Proof.
  unfold saveRoot. unfold_M. rewrite getLatestVersion_eq. cbv zeta.
  destruct ((0 <? latest_of ndb) && negb (version =? Int64.add (latest_of ndb) 1));
    [reflexivity |].
  unfold batch_Set, Batch_Set. cbn [batch set_latestVersion].
  destruct (closed (batch ndb)); reflexivity.
Qed.




(** ** Setting the fast storage version *)

Lemma setFastStorageVersionToBatch_eq (ndb : nodeDB) :
  setFastStorageVersionToBatch ndb
  = let cur := storageVersion ndb in
    let parts := Split cur fastStorageVersionDelimiter in
    let fast := string_geb cur fastStorageVersionValue in
    if fast && (2 <? length parts)%nat
    then (Err (errNew errInvalidFastStorageVersion), ndb)
    else
      let n1 := set_latestVersion (latest_of ndb) ndb in
      let newVersion :=
        ((if fast then nth 0 parts EmptyString else fastStorageVersionValue)
         ++ fastStorageVersionDelimiter ++ Itoa (latest_of ndb))%string in
      if closed (batch ndb)
      then (Err errBatchClosed, n1)
      else
        (Ok tt,
         set_storageVersion newVersion
           (set_batch
              (mkBatch
                 (ops (batch ndb)
                  ++ [BSet (metadataKeyFormat_Key (bytes_of_string storageVersionKey))
                           (bytes_of_string newVersion)]) false) n1)).
Proof.
  unfold setFastStorageVersionToBatch. unfold_M. cbv zeta.
  destruct (string_geb (storageVersion ndb) fastStorageVersionValue);
    cbn [andb]; [destruct (2 <? _)%nat; [reflexivity |] |];
    rewrite getLatestVersion_eq; unfold batch_Set, Batch_Set;
    cbn [batch set_latestVersion]; destruct (closed (batch ndb)); reflexivity.
Qed.

(** C5, as amended.  When the stored string is already fast and has more
    than two parts the call fails with [errInvalidFastStorageVersion] and
    changes nothing.  Otherwise the new string is the first part of a fast
    string, or 1.1.0 for a legacy string, followed by the delimiter and the
    decimal latest version; when the batch accepts the write the in-memory
    string becomes the new one, and when the write fails it is unchanged. *)
Theorem setFastStorageVersionToBatch_cases (ndb : nodeDB) :
  let cur := storageVersion ndb in
  let parts := Split cur fastStorageVersionDelimiter in
  let fast := string_geb cur fastStorageVersionValue in
  let newVersion :=
    ((if fast then nth 0 parts EmptyString else fastStorageVersionValue)
     ++ fastStorageVersionDelimiter ++ Itoa (latest_of ndb))%string in
  let r := setFastStorageVersionToBatch ndb in
  (fast = true -> (2 < length parts)%nat ->
     r.1 = Err (errNew errInvalidFastStorageVersion) /\ r.2 = ndb)
  /\ (fast = false \/ (length parts <= 2)%nat ->
      (closed (batch ndb) = false ->
         r.1 = Ok tt
         /\ storageVersion r.2 = newVersion
         /\ ops (batch r.2)
            = ops (batch ndb)
              ++ [BSet (metadataKeyFormat_Key (bytes_of_string storageVersionKey))
                       (bytes_of_string newVersion)])
      /\ (closed (batch ndb) = true ->
          r.1 = Err errBatchClosed
          /\ storageVersion r.2 = cur
          /\ batch r.2 = batch ndb)).
Proof.
  cbv zeta. rewrite setFastStorageVersionToBatch_eq. cbv zeta.
  destruct (string_geb (storageVersion ndb) fastStorageVersionValue) eqn:Hfast;
    cbn [andb].
  - destruct (Nat.ltb_spec 2 (length (Split (storageVersion ndb)
                                         fastStorageVersionDelimiter)))
      as [Hparts | Hparts].
    + split; [intros _ _; split; reflexivity |].
      intros [H | H]; [discriminate | lia].
    + split; [intros _ H; lia |]. intros _.
      destruct (closed (batch ndb)); cbn;
        (split; intros H; [try discriminate | try discriminate]);
        repeat split; reflexivity.
  - split; [discriminate |]. intros _.
    destruct (closed (batch ndb)); cbn;
      (split; intros H; [try discriminate | try discriminate]);
      repeat split; reflexivity.
Qed.

(** A fast string of two parts keeps its first part; a legacy string
    becomes 1.1.0; a closed batch leaves the string as it was; a fast string
    of three parts is refused. *)
Lemma setFastStorageVersionToBatch_cases_witness :
  let fresh := set_latestVersion 7 (newNodeDB [] 16 false) in
  let fast := set_storageVersion "1.1.1-3" fresh in
  let failing := set_batch (mkBatch [] true) fresh in
  let invalid := set_storageVersion "1.1.0-1-2" fresh in
  storageVersion (setFastStorageVersionToBatch fresh).2 = "1.1.0-7"%string
  /\ storageVersion (setFastStorageVersionToBatch fast).2 = "1.1.1-7"%string
  /\ ((setFastStorageVersionToBatch failing).1 = Err errBatchClosed
      /\ storageVersion (setFastStorageVersionToBatch failing).2 = "1.0.0"%string)
  /\ (setFastStorageVersionToBatch invalid).1
     = Err (errNew errInvalidFastStorageVersion).
Proof.
  cbv zeta.
  split; [| split; [| split]].
  - destruct (setFastStorageVersionToBatch_cases
                (set_latestVersion 7 (newNodeDB [] 16 false))) as (_ & H).
    destruct H as (H & _); [left; reflexivity |].
    destruct H as (_ & H & _); [reflexivity |]. exact H.
  - destruct (setFastStorageVersionToBatch_cases
                (set_storageVersion "1.1.1-3"
                   (set_latestVersion 7 (newNodeDB [] 16 false)))) as (_ & H).
    destruct H as (H & _); [right; vm_compute; lia |].
    destruct H as (_ & H & _); [reflexivity |]. exact H.
  - destruct (setFastStorageVersionToBatch_cases
                (set_batch (mkBatch [] true)
                   (set_latestVersion 7 (newNodeDB [] 16 false)))) as (_ & H).
    destruct H as (_ & H); [left; reflexivity |].
    destruct H as (H1 & H2 & _); [reflexivity |]. split; [exact H1 | exact H2].
  - destruct (setFastStorageVersionToBatch_cases
                (set_storageVersion "1.1.0-1-2"
                   (set_latestVersion 7 (newNodeDB [] 16 false)))) as (H & _).
    destruct H as (H & _); [reflexivity | vm_compute; lia |]. exact H.
Defined.

(** The claim as first stated fails for a legacy string of three parts: the
    parts are not counted and the call succeeds. *)
Lemma setFastStorageVersionToBatch_legacy_three_parts :
  let ndb := set_storageVersion "1.0.0-1-2"
               (set_latestVersion 7 (newNodeDB [] 16 false)) in
  let r := setFastStorageVersionToBatch ndb in
  Split (storageVersion ndb) fastStorageVersionDelimiter
  = ["1.0.0"; "1"; "2"]%string
  /\ r.1 = Ok tt
  /\ r.1 <> Err (errNew errInvalidFastStorageVersion)
  /\ storageVersion r.2 = "1.1.0-7"%string.
Proof. vm_compute. repeat split; discriminate. Qed.

(** ** Traversals *)

(** A traversal whose callback, on an open batch, succeeds, appends the
    operations [eff] gives for the record, and moves the state along a
    preorder [R], appends the operations of all records in order.  A
    postcondition [Q] each callback establishes for its record, and which
    [R] preserves, holds of every record at the end. *)
Lemma iterate_effect
    (R : nodeDB -> nodeDB -> Prop) (Q : bytes -> bytes -> nodeDB -> Prop)
    (fn : bytes -> bytes -> M unit) (eff : bytes -> bytes -> list BatchOp) :
  (forall n, R n n) ->
  (forall n1 n2 n3, R n1 n2 -> R n2 n3 -> R n1 n3) ->
  (forall k v n n', Q k v n -> R n n' -> Q k v n') ->
  (forall k v n,
     closed (batch n) = false ->
     exists n',
       fn k v n = (Ok tt, n')
       /\ closed (batch n') = false
       /\ ops (batch n') = ops (batch n) ++ eff k v
       /\ R n n' /\ Q k v n') ->
  forall (items : DB) (n : nodeDB),
    closed (batch n) = false ->
    exists n',
      iterate fn items n = (Ok tt, n')
      /\ closed (batch n') = false
      /\ ops (batch n')
         = ops (batch n) ++ flat_map (fun kv => eff kv.1 kv.2) items
      /\ R n n'
      /\ (forall k v, In (k, v) items -> Q k v n').
Proof.
  intros Hrefl Htrans Hstable Hstep.
  induction items as [| [k v] items IH]; intros n Hopen; simpl.
  - exists n. unfold ret. rewrite app_nil_r.
    repeat split; auto. intros k v [].
  - destruct (Hstep k v n Hopen) as (n1 & Hfn & Hopen1 & Hops1 & HR1 & HQ1).
    destruct (IH n1 Hopen1) as (n2 & Hit & Hopen2 & Hops2 & HR2 & HQ2).
    exists n2. unfold bind. rewrite Hfn, Hit.
    repeat split; auto.
    + now rewrite Hops2, Hops1, <- app_assoc.
    + eauto.
    + intros k' v' [Heq | Hin].
      * inversion Heq; subst. eauto.
      * eauto.
Qed.

Lemma for_versions_effect
    (Inv : nodeDB -> Prop)
    (R : nodeDB -> nodeDB -> Prop) (Q : Z -> nodeDB -> Prop)
    (body : Z -> M unit) (eff : Z -> list BatchOp) :
  (forall n, R n n) ->
  (forall n1 n2 n3, R n1 n2 -> R n2 n3 -> R n1 n3) ->
  (forall v n n', Q v n -> R n n' -> Q v n') ->
  (forall v n,
     Inv n ->
     exists n',
       body v n = (Ok tt, n')
       /\ Inv n'
       /\ ops (batch n') = ops (batch n) ++ eff v
       /\ R n n' /\ Q v n') ->
  forall (versions : list Z) (n : nodeDB),
    Inv n ->
    exists n',
      for_versions body versions n = (Ok tt, n')
      /\ Inv n'
      /\ ops (batch n') = ops (batch n) ++ flat_map eff versions
      /\ R n n'
      /\ (forall v, In v versions -> Q v n').
Proof.
  intros Hrefl Htrans Hstable Hstep.
  induction versions as [| v versions IH]; intros n Hinv; simpl.
  - exists n. unfold ret. rewrite app_nil_r.
    repeat split; auto. intros v [].
  - destruct (Hstep v n Hinv) as (n1 & Hfn & Hinv1 & Hops1 & HR1 & HQ1).
    destruct (IH n1 Hinv1) as (n2 & Hit & Hinv2 & Hops2 & HR2 & HQ2).
    exists n2. unfold bind. rewrite Hfn, Hit.
    repeat split; auto.
    + now rewrite Hops2, Hops1, <- app_assoc.
    + eauto.
    + intros v' [Heq | Hin]; subst; eauto.
Qed.

Lemma same_store_refl (n : nodeDB) : same_store n n.
Proof. unfold same_store. auto. Qed.

Lemma same_store_trans (n1 n2 n3 : nodeDB) :
  same_store n1 n2 -> same_store n2 n3 -> same_store n1 n3.
Proof. unfold same_store. intuition congruence. Qed.

Lemma latest_of_same_store (n n' : nodeDB) :
  same_store n n' -> latest_of n' = latest_of n.
Proof.
  intros (Hd & Hl & _). unfold latest_of, getLatestVersion, getPreviousVersion.
  rewrite Hl, Hd. destruct (latestVersion n =? 0); reflexivity.
Qed.

Lemma getPreviousVersion_same_store (v : Z) (n n' : nodeDB) :
  same_store n n' -> getPreviousVersion v n' = getPreviousVersion v n.
Proof. intros (Hd & _). unfold getPreviousVersion. now rewrite Hd. Qed.

(** ** Cache eviction *)

Lemma uncacheNode_run (hash : bytes) (n : nodeDB) :
  uncacheNode hash n = (Ok tt, (uncacheNode hash n).2).
Proof. reflexivity. Qed.

Lemma uncacheNode_frame (hash : bytes) (n : nodeDB) :
  let n' := (uncacheNode hash n).2 in
  batch n' = batch n /\ same_store n n'
  /\ fastNodeCache n' = fastNodeCache n
  /\ fastNodeCacheQueue n' = fastNodeCacheQueue n.
Proof.
  unfold uncacheNode, modify, same_store. simpl.
  destruct (nodeCache n !! hash); simpl; auto 10.
Qed.

Lemma uncacheNode_evicts (hash h : bytes) (n : nodeDB) :
  nodeCache (uncacheNode hash n).2 !! h
  = if decide (hash = h) then None else nodeCache n !! h.
Proof.
  unfold uncacheNode, modify. simpl.
  destruct (nodeCache n !! hash) eqn:E; simpl.
  - rewrite lookup_delete. destruct (decide (hash = h)); reflexivity.
  - destruct (decide (hash = h)); subst; auto.
Qed.

Lemma uncacheFastNode_run (key : bytes) (n : nodeDB) :
  uncacheFastNode key n = (Ok tt, (uncacheFastNode key n).2).
Proof. reflexivity. Qed.

Lemma uncacheFastNode_frame (key : bytes) (n : nodeDB) :
  let n' := (uncacheFastNode key n).2 in
  batch n' = batch n /\ same_store n n'
  /\ nodeCache n' = nodeCache n
  /\ nodeCacheQueue n' = nodeCacheQueue n.
Proof.
  unfold uncacheFastNode, modify, same_store. simpl.
  destruct (fastNodeCache n !! key); simpl; auto 10.
Qed.

Lemma uncacheFastNode_evicts (key k : bytes) (n : nodeDB) :
  fastNodeCache (uncacheFastNode key n).2 !! k
  = if decide (key = k) then None else fastNodeCache n !! k.
Proof.
  unfold uncacheFastNode, modify. simpl.
  destruct (fastNodeCache n !! key) eqn:E; simpl.
  - rewrite lookup_delete. destruct (decide (key = k)); reflexivity.
  - destruct (decide (key = k)); subst; auto.
Qed.

(** ** Deleting one version *)

Lemma same_store_set_batch (b : Batch) (n : nodeDB) :
  same_store n (set_batch b n).
Proof. unfold same_store. cbn. auto. Qed.

Lemma deleteOrphans_fn_step (predecessor : Z) (key hash : bytes) (n : nodeDB) :
  closed (batch n) = false ->
  exists n',
    deleteOrphans_fn predecessor key hash n = (Ok tt, n')
    /\ closed (batch n') = false
    /\ ops (batch n') = ops (batch n) ++ deleteOrphans_effect predecessor key hash
    /\ same_store n n' /\ True.
Proof.
  intros Hopen. unfold deleteOrphans_fn, deleteOrphans_effect.
  destruct (orphanKeyFormat_Scan key) as [toVersion fromVersion].
  unfold bind at 1. rewrite batch_Delete_open by exact Hopen.
  destruct ((predecessor <? fromVersion) || (fromVersion =? toVersion)) eqn:Hcond.
  - unfold bind. rewrite batch_Delete_open by reflexivity.
    rewrite uncacheNode_run. eexists. split; [reflexivity |].
    match goal with
    | |- context [uncacheNode hash ?N] =>
        destruct (uncacheNode_frame hash N) as (Hb & Hs & _)
    end.
    cbv zeta in Hb, Hs. rewrite Hb.
    split; [reflexivity |]. split; [cbn; now rewrite <- app_assoc |].
    split; [| exact I].
    eapply same_store_trans; [| exact Hs].
    eapply same_store_trans; apply same_store_set_batch.
  - apply orb_false_iff in Hcond. destruct Hcond as [Hpred _].
    unfold saveOrphan. rewrite Hpred. unfold bind.
    rewrite batch_Set_open by reflexivity. unfold ret. eexists.
    split; [reflexivity |].
    split; [reflexivity |]. split; [cbn; now rewrite <- app_assoc |].
    split; [| exact I].
    eapply same_store_trans; apply same_store_set_batch.
Qed.

Lemma traversePrefix_eq (prefix : bytes) (fn : bytes -> bytes -> M unit)
    (n : nodeDB) :
  traversePrefix prefix fn n = iterate fn (IteratePrefix (db n) prefix) n.
Proof. reflexivity. Qed.

Lemma traverseRange_eq (start end_ : option bytes) (fn : bytes -> bytes -> M unit)
    (n : nodeDB) :
  traverseRange start end_ fn n = iterate fn (Iterator (db n) start end_) n.
Proof. reflexivity. Qed.

Lemma deleteOrphans_run (version : Z) (n : nodeDB) :
  closed (batch n) = false ->
  exists n',
    deleteOrphans version n = (Ok tt, n')
    /\ closed (batch n') = false
    /\ ops (batch n')
       = ops (batch n)
         ++ flat_map (fun kv => deleteOrphans_effect (getPreviousVersion version n)
                                  kv.1 kv.2)
              (IteratePrefix (db n) (orphanKeyFormat_Key1 version))
    /\ same_store n n'.
Proof.
  intros Hopen. unfold deleteOrphans, traverseOrphansVersion.
  unfold bind, gets. rewrite traversePrefix_eq.
  destruct (iterate_effect same_store (fun _ _ _ => True)
              (deleteOrphans_fn (getPreviousVersion version n))
              (deleteOrphans_effect (getPreviousVersion version n))
              same_store_refl same_store_trans (fun _ _ _ _ _ _ => I)
              (deleteOrphans_fn_step (getPreviousVersion version n))
              (IteratePrefix (db n) (orphanKeyFormat_Key1 version)) n Hopen)
    as (n' & Hrun & Hopen' & Hops & Hsame & _).
  exists n'. auto.
Qed.

Lemma DeleteVersion_run (version : Z) (checkLatestVersion : bool) (ndb : nodeDB) :
  (0 <? readers ndb version) = false ->
  closed (batch ndb) = false ->
  exists n1,
    same_store ndb n1
    /\ closed (batch n1) = false
    /\ ops (batch n1)
       = ops (batch ndb)
         ++ flat_map
              (fun kv => deleteOrphans_effect (getPreviousVersion version ndb)
                           kv.1 kv.2)
              (IteratePrefix (db ndb) (orphanKeyFormat_Key1 version))
    /\ DeleteVersion version checkLatestVersion ndb
       = let n2 := if checkLatestVersion
                   then set_latestVersion (latest_of ndb) n1 else n1 in
         if checkLatestVersion && (version =? latest_of ndb)
         then (Err (errNew "Tried to delete latest version"), n2)
         else (Ok tt,
               set_batch
                 (mkBatch (ops (batch n1) ++ [BDelete (rootKey version)]) false) n2).
Proof.
  intros Hr Hopen.
  destruct (deleteOrphans_run version ndb Hopen)
    as (n1 & Hrun & Hopen1 & Hops1 & Hsame).
  exists n1. repeat (split; [assumption |]).
  unfold DeleteVersion, bind, gets. fold (readers ndb version).
  rewrite Hr, Hrun. unfold deleteRoot, bind.
  destruct checkLatestVersion; cbv zeta; cbn [andb].
  - rewrite getLatestVersion_eq. unfold ret.
    rewrite (latest_of_same_store _ _ Hsame).
    destruct (version =? latest_of ndb); [reflexivity |].
    rewrite batch_Delete_open by exact Hopen1. reflexivity.
  - unfold ret. rewrite batch_Delete_open by exact Hopen1. reflexivity.
Qed.

(** C3, as amended.  With a reader on the version, [DeleteVersion] returns
    an error and leaves the state as it was.  Otherwise every orphan ending
    at the version is processed; then, when the guard is set and the
    version is the latest one, an error is returned and the root record is
    kept, and in every other case the root record is deleted.  The root
    step issues that single deletion, which is not of a node record. *)
Theorem DeleteVersion_cases (version : Z) (checkLatestVersion : bool)
    (ndb : nodeDB) :
  let r := DeleteVersion version checkLatestVersion ndb in
  let orphanOps :=
    flat_map
      (fun kv => deleteOrphans_effect (getPreviousVersion version ndb) kv.1 kv.2)
      (IteratePrefix (db ndb) (orphanKeyFormat_Key1 version)) in
  (0 < readers ndb version ->
     r.1 = Err (errActiveReaders version (readers ndb version)) /\ r.2 = ndb)
  /\ (readers ndb version <= 0 -> closed (batch ndb) = false ->
      (checkLatestVersion = true /\ version = latest_of ndb ->
         r.1 = Err (errNew "Tried to delete latest version")
         /\ ops (batch r.2) = ops (batch ndb) ++ orphanOps)
      /\ (checkLatestVersion = false \/ version <> latest_of ndb ->
          r.1 = Ok tt
          /\ ops (batch r.2)
             = ops (batch ndb) ++ orphanOps ++ [BDelete (rootKey version)]))
  /\ (forall hash : bytes, rootKey version <> nodeKey hash).
Proof.
  cbv zeta. split; [| split].
  - intros Hr. unfold DeleteVersion, bind, gets. fold (readers ndb version).
    apply Z.ltb_lt in Hr. rewrite Hr. split; reflexivity.
  - intros Hr Hopen. apply Z.ltb_ge in Hr.
    destruct (DeleteVersion_run version checkLatestVersion ndb Hr Hopen)
      as (n1 & Hsame & Hopen1 & Hops1 & Heq).
    rewrite Heq. cbv zeta.
    destruct checkLatestVersion; cbn [andb].
    + destruct (Z.eqb_spec version (latest_of ndb)) as [Hv | Hv].
      * split; [| intros [H | H]; [discriminate | contradiction]].
        intros _. cbn. split; [reflexivity | exact Hops1].
      * split; [intros [_ H]; contradiction |]. intros _.
        cbn. rewrite Hops1.
        split; [reflexivity | now rewrite <- app_assoc].
    + split; [intros [H _]; discriminate |]. intros _.
      cbn. rewrite Hops1.
      split; [reflexivity | now rewrite <- app_assoc].
  - intros hash. unfold rootKey, nodeKey. intros H. inversion H.
Qed.

(** A reader on version 2 blocks its deletion; without one, deleting
    version 2 rewrites the orphan of [hB] to end at version 1, deletes the
    two nodes that lived at version 2 only, and deletes the root record;
    deleting the latest version under the guard is refused. *)
Lemma DeleteVersion_cases_witness :
  let busy := (incrVersionReaders 2 Sample.ndb).2 in
  (DeleteVersion 2 false busy).2 = busy
  /\ ops (batch (DeleteVersion 2 false Sample.ndb).2)
     = [ BDelete (orphanKey 1 2 Sample.hB);
         BSet (orphanKey 1 1 Sample.hB) Sample.hB;
         BDelete (orphanKey 2 2 Sample.hM);
         BDelete (nodeKey Sample.hM);
         BDelete (orphanKey 2 2 Sample.hR2);
         BDelete (nodeKey Sample.hR2);
         BDelete (rootKey 2) ]
  /\ (DeleteVersion 3 true Sample.ndb).1
     = Err (errNew "Tried to delete latest version").
Proof.
  cbv zeta. split; [| split].
  - destruct (DeleteVersion_cases 2 false (incrVersionReaders 2 Sample.ndb).2)
      as (H & _ & _).
    destruct H as (_ & H); [vm_compute; reflexivity | exact H].
  - destruct (DeleteVersion_cases 2 false Sample.ndb) as (_ & H & _).
    destruct H as (_ & H); [vm_compute; discriminate | reflexivity |].
    destruct H as (_ & H); [left; reflexivity |].
    rewrite H. vm_compute. reflexivity.
  - destruct (DeleteVersion_cases 3 true Sample.ndb) as (_ & H & _).
    destruct H as (H & _); [vm_compute; discriminate | reflexivity |].
    destruct H as (H & _); [split; [reflexivity | vm_compute; reflexivity] |].
    exact H.
Defined.

(** The claim as first stated fails when the guard is set and the version
    is the latest one: no reader holds it, yet an error is returned and the
    root record is not deleted. *)
Lemma DeleteVersion_latest_guard :
  let r := DeleteVersion 3 true Sample.ndb in
  readers Sample.ndb 3 = 0
  /\ r.1 = Err (errNew "Tried to delete latest version")
  /\ ops (batch r.2) = [].
Proof. vm_compute. repeat split. Qed.

(** ** Rolling back from a version *)

(** C10.  When the latest version is below the given one,
    [DeleteVersionsFrom] returns success at once: the batch, the database
    and both caches are as they were. *)
Theorem DeleteVersionsFrom_above_latest
    (MakeNode : bytes -> error + Node.t)
    (DeserializeFastNode : bytes -> bytes -> error + FastNode.t)
    (fuel : nat) (version : Z) (ndb : nodeDB) :
  latest_of ndb < version ->
  let r := DeleteVersionsFrom MakeNode DeserializeFastNode fuel version ndb in
  r.1 = Ok tt
  /\ db r.2 = db ndb
  /\ batch r.2 = batch ndb
  /\ nodeCache r.2 = nodeCache ndb
  /\ nodeCacheQueue r.2 = nodeCacheQueue ndb
  /\ fastNodeCache r.2 = fastNodeCache ndb
  /\ fastNodeCacheQueue r.2 = fastNodeCacheQueue ndb.
Proof.
  intros Hlt. cbv zeta. unfold DeleteVersionsFrom, bind.
  rewrite getLatestVersion_eq.
  apply Z.ltb_lt in Hlt. rewrite Hlt. unfold ret. cbn. auto 10.
Qed.

(** The latest version of the sample database is 3: rolling back from
    version 4 changes nothing. *)
Lemma DeleteVersionsFrom_above_latest_witness :
  latest_of Sample.ndb = 3
  /\ (DeleteVersionsFrom Sample.MakeNode Sample.DeserializeFastNode 8 4
        Sample.ndb).1 = Ok tt
  /\ batch (DeleteVersionsFrom Sample.MakeNode Sample.DeserializeFastNode 8 4
              Sample.ndb).2 = batch Sample.ndb.
Proof.
  split; [vm_compute; reflexivity |].
  destruct (DeleteVersionsFrom_above_latest Sample.MakeNode
              Sample.DeserializeFastNode 8 4 Sample.ndb)
    as (H1 & _ & H2 & _); [vm_compute; reflexivity |].
  split; [exact H1 | exact H2].
Defined.

Lemma extends_batch_refl (n : nodeDB) : extends_batch n n.
Proof.
  split; [apply same_store_refl |]. split; [reflexivity |].
  exists []. now rewrite app_nil_r.
Qed.



Lemma extends_batch_set_fastNodeCache
    (c : gmap bytes (golist.Element FastNode.t)) (q : golist.List FastNode.t)
    (n : nodeDB) :
  extends_batch n (set_fastNodeCache c q n).
Proof.
  split; [unfold same_store; cbn; auto |]. split; [reflexivity |].
  exists []. cbn. now rewrite app_nil_r.
Qed.





Lemma frames_modify (f : nodeDB -> nodeDB) :
  (forall n, extends_batch n (f n)) -> frames (modify f).
Proof. intros Hf n r n' H. inversion H; subst. apply Hf. Qed.



Lemma frames_batch_Set (key value : bytes) : frames (batch_Set key value).
Proof.
  intros n r n' H. unfold batch_Set, Batch_Set in H.
  destruct (closed (batch n)) eqn:Hc; inversion H; subst.
  - apply extends_batch_refl.
  - split; [apply same_store_set_batch |]. split; [cbn; congruence |].
    eexists. reflexivity.
Qed.


Lemma frames_uncacheFastNode (key : bytes) : frames (uncacheFastNode key).
Proof.
  apply frames_modify. intros n.
  destruct (fastNodeCache n !! key);
    [apply extends_batch_set_fastNodeCache | apply extends_batch_refl].
Qed.




(** ** The key codec *)

Lemma be_value_snoc (bs : bytes) (b : Z) :
  be_value (bs ++ [b]) = be_value bs * 256 + b.
Proof. unfold be_value. now rewrite fold_left_app. Qed.

Lemma length_be_bytes (n : nat) : forall x : Z, length (be_bytes n x) = n.
Proof.
  induction n as [| n IH]; intros x; simpl; [reflexivity |].
  rewrite length_app, IH. simpl. lia.
Qed.

Lemma be_value_be_bytes (n : nat) :
  forall x : Z, be_value (be_bytes n x) = x mod 256 ^ Z.of_nat n.
Proof.
  induction n as [| n IH]; intros x.
  - simpl. now rewrite Z.mod_1_r.
  - cbn [be_bytes]. rewrite be_value_snoc, IH.
    rewrite Nat2Z.inj_succ, Z.pow_succ_r by lia.
    rewrite Z.rem_mul_r by (try apply Z.pow_pos_nonneg; lia). lia.
Qed.

Lemma wrap_in_range (v : Z) : Int64.in_range v -> Int64.wrap v = v.
Proof.
  unfold Int64.in_range, Int64.MinInt64, Int64.MaxInt64, Int64.wrap. intros H.
  rewrite Z.mod_small by lia. lia.
Qed.

Lemma unpackInt64_packInt64 (v : Z) :
  Int64.in_range v -> unpackInt64 (packInt64 v) = v.
Proof.
  intros Hv. unfold unpackInt64, packInt64.
  rewrite be_value_be_bytes.
  change (256 ^ Z.of_nat 8) with (2 ^ 64).
  rewrite Z.mod_mod by lia.
  rewrite <- (wrap_in_range v Hv) at 2. unfold Int64.wrap.
  now rewrite Zplus_mod_idemp_l.
Qed.

Lemma length_packInt64 (v : Z) : length (packInt64 v) = 8%nat.
Proof. apply length_be_bytes. Qed.

Lemma orphanKeyFormat_Scan_Key (toVersion fromVersion : Z) (hash : bytes) :
  Int64.in_range toVersion -> Int64.in_range fromVersion ->
  orphanKeyFormat_Scan (orphanKeyFormat_Key toVersion fromVersion hash)
  = (toVersion, fromVersion).
Proof.
  intros Hto Hfrom. unfold orphanKeyFormat_Scan, orphanKeyFormat_Key, int64Size.
  cbn [drop Nat.add]. rewrite drop_0.
  rewrite (take_app_length' (packInt64 toVersion) _ 8
             (length_packInt64 toVersion)).
  rewrite (drop_app_length' (packInt64 toVersion) _ 8
             (length_packInt64 toVersion)).
  rewrite (take_app_length' (packInt64 fromVersion) _ 8
             (length_packInt64 fromVersion)).
  now rewrite !unpackInt64_packInt64.
Qed.

Lemma rootKeyFormat_Scan_Key (version : Z) :
  Int64.in_range version -> rootKeyFormat_Scan (rootKey version) = version.
Proof.
  intros Hv. unfold rootKeyFormat_Scan, rootKey, int64Size. cbn [drop].
  rewrite drop_0.
  rewrite (firstn_all2 (packInt64 version))
    by (rewrite (length_packInt64 version); lia).
  now apply unpackInt64_packInt64.
Qed.

Lemma HasPrefix_app (prefix rest : bytes) : HasPrefix (prefix ++ rest) prefix = true.
Proof.
  induction prefix as [| p prefix IH]; simpl; [destruct rest; reflexivity |].
  now rewrite Z.eqb_refl, IH.
Qed.

Lemma orphanKey_HasPrefix_all (fromVersion toVersion : Z) (hash : bytes) :
  HasPrefix (orphanKey fromVersion toVersion hash) orphanKeyFormat_Key0 = true.
Proof. reflexivity. Qed.

Lemma orphanKey_HasPrefix_version (fromVersion toVersion : Z) (hash : bytes) :
  HasPrefix (orphanKey fromVersion toVersion hash) (orphanKeyFormat_Key1 toVersion)
  = true.
Proof.
  unfold orphanKey, orphanKeyFormat_Key, orphanKeyFormat_Key1.
  change (111 :: packInt64 toVersion ++ packInt64 fromVersion ++ hash)
    with ((111 :: packInt64 toVersion) ++ packInt64 fromVersion ++ hash).
  apply HasPrefix_app.
Qed.

(** ** Rolling back: the orphan traversal *)





Lemma readers_conflict_none (p : Z -> bool) (ndb : nodeDB) :
  (forall v, p v = true -> readers ndb v = 0) ->
  readers_conflict p ndb = None.
Proof.
  intros Hfree. unfold readers_conflict.
  destruct (List.find _ _) as [[v r] |] eqn:Hfind; [| reflexivity].
  apply find_some in Hfind. destruct Hfind as [Hin Hp].
  apply andb_true_iff in Hp. destruct Hp as [Hpv Hr]. cbn in Hpv, Hr.
  apply list_elem_of_In, elem_of_map_to_list in Hin.
  specialize (Hfree v Hpv). unfold readers in Hfree. rewrite Hin in Hfree.
  cbn in Hfree. subst r. discriminate.
Qed.









(** ** Non-membership proofs *)

Lemma bytes_compare_eq (a : bytes) :
  forall b : bytes, bytes_compare a b = Eq -> a = b.
Proof.
  induction a as [| x a IH]; intros [| y b] H; simpl in H;
    try discriminate; [reflexivity |].
  destruct (x ?= y) eqn:Hxy; try discriminate.
  apply Z.compare_eq in Hxy. subst. f_equal. now apply IH.
Qed.

Lemma bytes_compare_refl (a : bytes) : bytes_compare a a = Eq.
Proof.
  induction a as [| x a IH]; simpl; [reflexivity |].
  now rewrite Z.compare_refl.
Qed.

Lemma GetWithIndex_found (tree : ImmutableTree.t) (key : bytes) :
  forall (idx : Z) (v : bytes),
    ImmutableTree.GetWithIndex tree key = (idx, Some v) -> In (key, v) tree.
Proof.
  induction tree as [| [k w] tree IH]; intros idx v H; simpl in H;
    [discriminate |].
  destruct (bytes_compare k key) eqn:Hc.
  - apply bytes_compare_eq in Hc. inversion H; subst. now left.
  - destruct (ImmutableTree.GetWithIndex tree key) as [i r].
    inversion H; subst. right. eapply IH. reflexivity.
  - discriminate.
Qed.

Lemma GetWithIndex_present (tree : ImmutableTree.t) (key : bytes) :
  keys_sorted tree ->
  (exists v, In (key, v) tree) ->
  exists v, (ImmutableTree.GetWithIndex tree key).2 = Some v.
Proof.
  induction tree as [| [k w] tree IH]; intros Hsorted [v Hin]; [destruct Hin |].
  apply StronglySorted_inv in Hsorted. destruct Hsorted as [Hrest Hhead].
  simpl. destruct (bytes_compare k key) eqn:Hc.
  - eexists. reflexivity.
  - destruct Hin as [Heq | Hin].
    + inversion Heq; subst. rewrite bytes_compare_refl in Hc. discriminate.
    + destruct (IH Hrest (ex_intro _ v Hin)) as [v' Hv'].
      destruct (ImmutableTree.GetWithIndex tree key) as [i r]. eauto.
  - destruct Hin as [Heq | Hin].
    + inversion Heq; subst. rewrite bytes_compare_refl in Hc. discriminate.
    + rewrite List.Forall_forall in Hhead. specialize (Hhead _ Hin).
      cbn in Hhead. congruence.
Qed.

Lemma GetWithIndex_bounds (tree : ImmutableTree.t) (key : bytes) :
  0 <= (ImmutableTree.GetWithIndex tree key).1 <= Z.of_nat (length tree).
Proof.
  induction tree as [| [k w] tree IH]; simpl; [lia |].
  destruct (bytes_compare k key); cbn; try lia.
  destruct (ImmutableTree.GetWithIndex tree key) as [i r]. cbn in *. lia.
Qed.

Lemma bytes_compare_antisym (a : bytes) :
  forall b : bytes, bytes_compare b a = CompOpp (bytes_compare a b).
Proof.
  induction a as [| x a IH]; intros [| y b]; simpl; try reflexivity.
  rewrite (Z.compare_antisym x y).
  destruct (x ?= y); simpl; auto.
Qed.

Lemma bytes_compare_lt_trans (a : bytes) :
  forall b c : bytes,
    bytes_compare a b = Lt -> bytes_compare b c = Lt -> bytes_compare a c = Lt.
Proof.
  induction a as [| x a IH]; intros [| y b] [| z c] Hab Hbc; simpl in *;
    try discriminate; try reflexivity.
  destruct (Z.compare_spec x y) as [Hxy | Hxy | Hxy]; try discriminate;
    destruct (Z.compare_spec y z) as [Hyz | Hyz | Hyz]; try discriminate;
    destruct (Z.compare_spec x z) as [Hxz | Hxz | Hxz]; try lia;
    try reflexivity; eauto.
Qed.

(** In a sorted tree the index [GetWithIndex] answers with is the insertion
    point: the keys before it are smaller than the key, no other is. *)
Lemma GetWithIndex_insertion_point (tree : ImmutableTree.t) (key : bytes) :
  keys_sorted tree ->
  forall (i : nat) (k v : bytes),
    tree !! i = Some (k, v) ->
    (Z.of_nat i < (ImmutableTree.GetWithIndex tree key).1
     <-> bytes_compare k key = Lt).
Proof.
  induction tree as [| [k0 w] tree IH]; intros Hsorted i k v Hi;
    [discriminate |].
  apply StronglySorted_inv in Hsorted. destruct Hsorted as [Hrest Hhead].
  assert (Hlater :
    forall j k' v', tree !! j = Some (k', v') -> bytes_compare k0 k' = Lt).
  { intros j k' v' Hj. rewrite Forall_forall in Hhead.
    apply (Hhead (k', v')). eapply list_elem_of_lookup_2. exact Hj. }
  simpl. destruct (bytes_compare k0 key) eqn:Hc.
  - apply bytes_compare_eq in Hc. subst k0. cbn.
    destruct i as [| i]; cbn in Hi.
    + inversion Hi; subst. rewrite bytes_compare_refl. split; [lia | discriminate].
    + specialize (Hlater _ _ _ Hi). split; [lia |]. intros Hk.
      rewrite (bytes_compare_antisym key k), Hlater in Hk. discriminate.
  - destruct (ImmutableTree.GetWithIndex tree key) as [idx r] eqn:Hrec. cbn.
    destruct i as [| i]; cbn in Hi.
    + inversion Hi; subst. pose proof (GetWithIndex_bounds tree key) as Hb.
      rewrite Hrec in Hb. cbn in Hb. split; [auto | lia].
    + specialize (IH Hrest i k v Hi). cbn in IH.
      rewrite <- IH. lia.
  - cbn. destruct i as [| i]; cbn in Hi.
    + inversion Hi; subst. rewrite Hc. split; [lia | discriminate].
    + specialize (Hlater _ _ _ Hi). split; [lia |]. intros Hk.
      rewrite (bytes_compare_lt_trans k0 k key Hlater Hk) in Hc. discriminate.
Qed.

Lemma GetByIndex_Some (tree : ImmutableTree.t) (index : Z) :
  0 <= index < Z.of_nat (length tree) ->
  exists k v, ImmutableTree.GetByIndex tree index = Some (k, v)
              /\ In (k, v) tree.
Proof.
  intros Hi. unfold ImmutableTree.GetByIndex.
  destruct (Z.ltb_spec index 0); [lia |].
  destruct (lookup_lt_is_Some_2 tree (Z.to_nat index)) as [[k v] Hkv]; [lia |].
  exists k, v. split; [exact Hkv |].
  apply list_elem_of_In. eapply list_elem_of_lookup_2. exact Hkv.
Qed.

Lemma GetByIndex_In (tree : ImmutableTree.t) (index : Z) (k v : bytes) :
  ImmutableTree.GetByIndex tree index = Some (k, v) -> In (k, v) tree.
Proof.
  unfold ImmutableTree.GetByIndex. destruct (index <? 0); [discriminate |].
  intros H. apply list_elem_of_In. eapply list_elem_of_lookup_2. exact H.
Qed.

Section NonMembership.

Variable GetWithProof :
  ImmutableTree.t -> bytes -> error + (option bytes * RangeProof.t).

(** What the proof assembler consumes from the tree: for a key of the tree,
    its value and a range proof with exactly one leaf. *)
Hypothesis GetWithProof_present :
  forall (tree : ImmutableTree.t) (key : bytes),
    (exists v, In (key, v) tree) ->
    exists v p,
      GetWithProof tree key = inr (Some v, p)
      /\ length (RangeProof.Leaves p) = 1%nat.

Lemma createExistenceProof_present (tree : ImmutableTree.t) (key : bytes) :
  (exists v, In (key, v) tree) ->
  exists ep,
    createExistenceProof GetWithProof tree key = inr ep
    /\ ics23.ExistenceProof.Key ep = key.
Proof.
  intros Hin. destruct (GetWithProof_present tree key Hin) as (v & p & Hget & Hlen).
  unfold createExistenceProof, convertExistenceProof. rewrite Hget, Hlen.
  destruct (RangeProof.Leaves p) as [| leaf leaves]; [discriminate |].
  cbn. eexists. split; reflexivity.
Qed.


End NonMembership.

Lemma Sample_GetWithProof_present (tree : ImmutableTree.t) (key : bytes) :
  (exists v, In (key, v) tree) ->
  exists v p,
    Sample.GetWithProof tree key = inr (Some v, p)
    /\ length (RangeProof.Leaves p) = 1%nat.
Proof.
  intros [v Hin]. unfold Sample.GetWithProof.
  destruct (List.find _ tree) as [[k w] |] eqn:Hfind.
  - eexists _, _. split; reflexivity.
  - exfalso. apply (find_none _ _ Hfind) in Hin. cbn in Hin.
    rewrite bool_decide_eq_false in Hin. now apply Hin.
Qed.

Lemma Sample_tree_sorted : keys_sorted Sample.tree.
Proof. repeat constructor. Qed.


(** ** Deleting a range of versions *)

(** C1, at the input where the code departs from it.  In the sample
    database the orphan of [hA] ends at version 1 and was created at
    version 1, after the predecessor 0 of version 1; [hA] is the cached
    leaf of user key 7, whose current fast node is cached too.  Deleting
    the range from 1 to 2 deletes the orphan record and the node record and
    evicts the node from the node cache, as claimed, but user key 7 is
    still in the fast-node cache afterwards: the eviction is asked for the
    orphan key. *)
Theorem DeleteVersionsRange_user_key_stays_cached :
  let r := DeleteVersionsRange 1 2 Sample.ndb in
  getPreviousVersion 1 Sample.ndb = 0
  /\ latest_of Sample.ndb = 3
  /\ versionReaders Sample.ndb = ∅
  /\ In (orphanKey 1 1 Sample.hA, Sample.hA) (db Sample.ndb)
  /\ (Node.key <$> (golist.Value <$> nodeCache Sample.ndb !! Sample.hA))
     = Some [7]
  /\ (FastNode.key <$> (golist.Value <$> fastNodeCache Sample.ndb !! [7]))
     = Some [7]
  /\ r.1 = Ok tt
  /\ ops (batch r.2)
     = [ BDelete (orphanKey 1 1 Sample.hA);
         BDelete (nodeKey Sample.hA);
         BDelete (orphanKey 1 1 Sample.hR1);
         BDelete (nodeKey Sample.hR1);
         BDelete (rootKey 1) ]
  /\ nodeCache r.2 !! Sample.hA = None
  /\ (FastNode.key <$> (golist.Value <$> fastNodeCache r.2 !! [7]))
     = Some [7].
Proof.
  cbv zeta.
  repeat (split; [vm_compute; first [reflexivity | tauto] |]).
  vm_compute. reflexivity.
Qed.

Lemma caches_shrink_refl (n : nodeDB) : caches_shrink n n.
Proof. split; [apply same_store_refl | auto]. Qed.

Lemma caches_shrink_trans (n1 n2 n3 : nodeDB) :
  caches_shrink n1 n2 -> caches_shrink n2 n3 -> caches_shrink n1 n3.
Proof.
  intros (Hs1 & Hn1 & Hf1) (Hs2 & Hn2 & Hf2).
  split; [eapply same_store_trans; eassumption | auto].
Qed.

Lemma caches_shrink_set_batch (b : Batch) (n : nodeDB) :
  caches_shrink n (set_batch b n).
Proof. split; [apply same_store_set_batch | cbn; auto]. Qed.

Lemma caches_shrink_uncacheNode (hash : bytes) (n : nodeDB) :
  caches_shrink n (uncacheNode hash n).2.
Proof.
  destruct (uncacheNode_frame hash n) as (_ & Hs & Hf & _). cbv zeta in *.
  split; [exact Hs |]. split.
  - intros h Hh. rewrite uncacheNode_evicts.
    destruct (decide (hash = h)); auto.
  - intros k Hk. now rewrite Hf.
Qed.

Lemma caches_shrink_uncacheFastNode (key : bytes) (n : nodeDB) :
  caches_shrink n (uncacheFastNode key n).2.
Proof.
  destruct (uncacheFastNode_frame key n) as (_ & Hs & Hc & _). cbv zeta in *.
  split; [exact Hs |]. split.
  - intros h Hh. now rewrite Hc.
  - intros k Hk. rewrite uncacheFastNode_evicts.
    destruct (decide (key = k)); auto.
Qed.

Lemma DeleteVersionsRange_fn_step (predecessor : Z) (key hash : bytes)
    (n : nodeDB) :
  closed (batch n) = false ->
  exists n',
    DeleteVersionsRange_fn predecessor key hash n = (Ok tt, n')
    /\ closed (batch n') = false
    /\ ops (batch n') = ops (batch n) ++ DeleteVersionsRange_effect predecessor key hash
    /\ caches_shrink n n'
    /\ (predecessor < (orphanKeyFormat_Scan key).2 ->
        nodeCache n' !! hash = None /\ fastNodeCache n' !! key = None).
Proof.
  intros Hopen. unfold DeleteVersionsRange_fn, DeleteVersionsRange_effect.
  destruct (orphanKeyFormat_Scan key) as [toVersion fromVersion]. cbn [snd].
  unfold bind at 1. rewrite batch_Delete_open by exact Hopen.
  destruct (Z.ltb_spec predecessor fromVersion) as [Hlt | Hge].
  - unfold bind. rewrite batch_Delete_open by reflexivity.
    rewrite uncacheNode_run, uncacheFastNode_run. eexists.
    split; [reflexivity |].
    match goal with
    | |- context [uncacheNode hash ?N] =>
        set (n1 := N);
        destruct (uncacheNode_frame hash n1) as (Hb1 & _ & _);
        pose proof (caches_shrink_uncacheNode hash n1) as Hshrink1;
        pose proof (uncacheNode_evicts hash hash n1) as Hevict1
    end.
    set (n2 := (uncacheNode hash n1).2) in *.
    destruct (uncacheFastNode_frame key n2) as (Hb2 & _ & Hc2 & _).
    pose proof (caches_shrink_uncacheFastNode key n2) as Hshrink2.
    pose proof (uncacheFastNode_evicts key key n2) as Hevict2.
    cbv zeta in *. rewrite Hb2, Hb1.
    split; [reflexivity |].
    split; [subst n1; cbn; now rewrite <- app_assoc |].
    split.
    + eapply caches_shrink_trans; [| exact Hshrink2].
      eapply caches_shrink_trans; [| exact Hshrink1].
      subst n1. eapply caches_shrink_trans; apply caches_shrink_set_batch.
    + intros _. rewrite Hc2, Hevict1, Hevict2.
      destruct (decide (hash = hash)); [| congruence].
      destruct (decide (key = key)); [| congruence]. auto.
  - unfold saveOrphan.
    assert (Hnot : (predecessor <? fromVersion) = false) by (apply Z.ltb_ge; lia).
    rewrite Hnot. unfold bind. rewrite batch_Set_open by reflexivity.
    unfold ret. eexists. split; [reflexivity |].
    split; [reflexivity |]. split; [cbn; now rewrite <- app_assoc |].
    split; [| intros; lia].
    eapply caches_shrink_trans; apply caches_shrink_set_batch.
Qed.

Lemma evictFastNodes_frame (fromVersion toVersion : Z) (n : nodeDB) :
  let n' := (evictFastNodes fromVersion toVersion n).2 in
  batch n' = batch n /\ caches_shrink n n'.
Proof.
  unfold evictFastNodes, modify. cbn [snd].
  induction (map_to_list (fastNodeCache n)) as [| ke l IH]; cbn [fold_right].
  - split; [reflexivity | apply caches_shrink_refl].
  - destruct IH as [Hb Hs].
    destruct ((fromVersion <=? _) && (_ <? toVersion)); [| auto].
    split; [exact Hb |].
    eapply caches_shrink_trans; [exact Hs |].
    split; [unfold same_store; cbn; auto |]. split; [cbn; auto |].
    intros k Hk. cbn. rewrite lookup_delete.
    destruct (decide (ke.1 = k)); auto.
Qed.

Lemma deleteRecord_fn_shrink_step (k v : bytes) (n : nodeDB) :
  closed (batch n) = false ->
  exists n',
    deleteRecord_fn k v n = (Ok tt, n')
    /\ closed (batch n') = false
    /\ ops (batch n') = ops (batch n) ++ [BDelete k]
    /\ caches_shrink n n' /\ True.
Proof.
  intros Hopen. unfold deleteRecord_fn, bind.
  rewrite batch_Delete_open by exact Hopen. unfold ret. eexists.
  split; [reflexivity |]. split; [reflexivity |].
  split; [reflexivity |]. split; [| exact I].
  apply caches_shrink_set_batch.
Qed.

Lemma traverseOrphansVersion_range_step (d : DB) (predecessor version : Z)
    (n : nodeDB) :
  closed (batch n) = false /\ db n = d ->
  exists n',
    traverseOrphansVersion version (DeleteVersionsRange_fn predecessor) n
    = (Ok tt, n')
    /\ (closed (batch n') = false /\ db n' = d)
    /\ ops (batch n')
       = ops (batch n)
         ++ flat_map (fun kv => DeleteVersionsRange_effect predecessor kv.1 kv.2)
              (IteratePrefix d (orphanKeyFormat_Key1 version))
    /\ caches_shrink n n'
    /\ (forall k h,
          In (k, h) (IteratePrefix d (orphanKeyFormat_Key1 version)) ->
          predecessor < (orphanKeyFormat_Scan k).2 ->
          nodeCache n' !! h = None /\ fastNodeCache n' !! k = None).
Proof.
  intros [Hopen Hdb]. unfold traverseOrphansVersion.
  rewrite traversePrefix_eq, Hdb.
  destruct (iterate_effect caches_shrink
              (fun k h n' =>
                 predecessor < (orphanKeyFormat_Scan k).2 ->
                 nodeCache n' !! h = None /\ fastNodeCache n' !! k = None)
              (DeleteVersionsRange_fn predecessor)
              (DeleteVersionsRange_effect predecessor)
              caches_shrink_refl caches_shrink_trans) with
    (items := IteratePrefix d (orphanKeyFormat_Key1 version)) (n := n)
    as (n' & Hrun & Hopen' & Hops & Hshrink & HQ).
  - intros k h n1 n2 HQ (_ & Hn & Hf) Hlt. destruct (HQ Hlt). auto.
  - intros k h n1 Hopen1. apply DeleteVersionsRange_fn_step. exact Hopen1.
  - exact Hopen.
  - exists n'. split; [exact Hrun |]. split.
    + split; [exact Hopen' |]. destruct Hshrink as ((Hd & _) & _). congruence.
    + split; [exact Hops |]. split; [exact Hshrink |].
      intros k h Hin Hp. apply (HQ k h); assumption.
Qed.

Lemma DeleteVersionsRange_run (fromVersion toVersion : Z) (ndb : nodeDB) :
  fromVersion < toVersion ->
  toVersion <> 0 ->
  toVersion <= latest_of ndb ->
  (forall v, getPreviousVersion fromVersion ndb < v < toVersion ->
             readers ndb v = 0) ->
  closed (batch ndb) = false ->
  exists n',
    DeleteVersionsRange fromVersion toVersion ndb = (Ok tt, n')
    /\ ops (batch n')
       = ops (batch ndb)
         ++ flat_map
              (fun version =>
                 flat_map
                   (fun kv => DeleteVersionsRange_effect
                                (getPreviousVersion fromVersion ndb) kv.1 kv.2)
                   (IteratePrefix (db ndb) (orphanKeyFormat_Key1 version)))
              (seqZ fromVersion (toVersion - fromVersion))
         ++ flat_map (fun kv => [BDelete kv.1])
              (Iterator (db ndb) (Some (rootKey fromVersion))
                 (Some (rootKey toVersion)))
    /\ (forall version k h,
          In version (seqZ fromVersion (toVersion - fromVersion)) ->
          In (k, h) (IteratePrefix (db ndb) (orphanKeyFormat_Key1 version)) ->
          getPreviousVersion fromVersion ndb < (orphanKeyFormat_Scan k).2 ->
          nodeCache n' !! h = None /\ fastNodeCache n' !! k = None).
Proof.
  intros Hlt Hnz Hlatest Hfree Hopen.
  set (predecessor := getPreviousVersion fromVersion ndb) in *.
  set (n1 := set_latestVersion (latest_of ndb) ndb).
  destruct (for_versions_effect
              (fun n => closed (batch n) = false /\ db n = db ndb)
              caches_shrink
              (fun version n' =>
                 forall k h,
                   In (k, h) (IteratePrefix (db ndb) (orphanKeyFormat_Key1 version)) ->
                   predecessor < (orphanKeyFormat_Scan k).2 ->
                   nodeCache n' !! h = None /\ fastNodeCache n' !! k = None)
              (fun version =>
                 traverseOrphansVersion version (DeleteVersionsRange_fn predecessor))
              (fun version =>
                 flat_map
                   (fun kv => DeleteVersionsRange_effect predecessor kv.1 kv.2)
                   (IteratePrefix (db ndb) (orphanKeyFormat_Key1 version)))
              caches_shrink_refl caches_shrink_trans) with
    (versions := seqZ fromVersion (toVersion - fromVersion)) (n := n1)
    as (n3 & Hrun3 & (Hopen3 & Hdb3) & Hops3 & Hshrink3 & HQ3).
  - intros v n n' HQ (_ & Hn & Hf) k h Hin Hp. destruct (HQ k h Hin Hp). auto.
  - intros v n Hinv. apply traverseOrphansVersion_range_step. exact Hinv.
  - split; [exact Hopen | reflexivity].
  - destruct (evictFastNodes_frame fromVersion toVersion n3) as (Hb4 & Hshrink4).
    set (n4 := (evictFastNodes fromVersion toVersion n3).2) in *.
    assert (Hopen4 : closed (batch n4) = false) by (rewrite Hb4; exact Hopen3).
    assert (Hdb4 : db n4 = db ndb).
    { destruct Hshrink4 as ((Hd & _) & _). congruence. }
    destruct (iterate_effect caches_shrink (fun _ _ _ => True)
                deleteRecord_fn (fun k _ => [BDelete k])
                caches_shrink_refl caches_shrink_trans (fun _ _ _ _ _ _ => I)
                deleteRecord_fn_shrink_step
                (Iterator (db ndb) (Some (rootKey fromVersion))
                   (Some (rootKey toVersion))) n4 Hopen4)
      as (n5 & Hrun5 & Hopen5 & Hops5 & Hshrink5 & _).
    exists n5. split; [| split].
    + unfold DeleteVersionsRange.
      assert (H1 : (toVersion <=? fromVersion) = false) by (apply Z.leb_gt; lia).
      assert (H2 : (toVersion =? 0) = false) by (apply Z.eqb_neq; lia).
      assert (H3 : (latest_of ndb <? toVersion) = false) by (apply Z.ltb_ge; lia).
      rewrite H1, H2. unfold bind at 1. rewrite getLatestVersion_eq, H3.
      fold n1. unfold bind at 1. unfold gets at 1.
      unfold bind at 1. unfold gets at 1.
      change (getPreviousVersion fromVersion n1) with predecessor.
      rewrite (readers_conflict_none
                 (fun v => (v <? toVersion) && (predecessor <? v)) n1).
      2: { intros v Hv. apply andb_true_iff in Hv. destruct Hv as [Hv1 Hv2].
           apply Z.ltb_lt in Hv1, Hv2. apply (Hfree v). lia. }
      unfold bind at 1. rewrite Hrun3.
      unfold bind at 1. unfold evictFastNodes at 1, modify at 1.
      change (fold_right _ n3 _) with n4.
      rewrite traverseRange_eq, Hdb4. exact Hrun5.
    + rewrite Hops5, Hb4, Hops3. subst n1. cbn [batch set_latestVersion].
      now rewrite <- !app_assoc.
    + intros version k h Hv Hin Hp.
      destruct (HQ3 version Hv k h Hin Hp) as [Hn Hf].
      destruct Hshrink4 as (_ & Hn4 & Hf4). destruct Hshrink5 as (_ & Hn5 & Hf5).
      auto.
Qed.

(** What [DeleteVersionsRange] does do for every orphan record ending in the
    pruned range, when the range is valid, no reader holds a version
    strictly between the predecessor and [toVersion], and the batch accepts
    writes: the orphan record is deleted; when it was created after the
    predecessor its node record is deleted, the node is evicted from the
    node cache and the fast-node cache has no entry under the orphan key;
    otherwise the orphan is rewritten to end at the predecessor. *)
Theorem DeleteVersionsRange_orphans (fromVersion toVersion : Z) (ndb : nodeDB) :
  fromVersion < toVersion ->
  toVersion <> 0 ->
  toVersion <= latest_of ndb ->
  (forall v, getPreviousVersion fromVersion ndb < v < toVersion ->
             readers ndb v = 0) ->
  closed (batch ndb) = false ->
  let predecessor := getPreviousVersion fromVersion ndb in
  let r := DeleteVersionsRange fromVersion toVersion ndb in
  r.1 = Ok tt
  /\ exists added,
       ops (batch r.2) = ops (batch ndb) ++ added
       /\ forall version from hash,
            fromVersion <= version < toVersion ->
            Int64.in_range version -> Int64.in_range from ->
            In (orphanKey from version hash, hash) (db ndb) ->
            In (BDelete (orphanKey from version hash)) added
            /\ (predecessor < from ->
                In (BDelete (nodeKey hash)) added
                /\ nodeCache r.2 !! hash = None
                /\ fastNodeCache r.2 !! orphanKey from version hash = None)
            /\ (from <= predecessor ->
                In (BSet (orphanKey from predecessor hash) hash) added).
Proof.
  intros Hlt Hnz Hlatest Hfree Hopen. cbv zeta.
  destruct (DeleteVersionsRange_run fromVersion toVersion ndb
              Hlt Hnz Hlatest Hfree Hopen) as (n' & Hrun & Hops & Hcaches).
  rewrite Hrun. cbn [fst snd]. split; [reflexivity |].
  eexists. split; [exact Hops |].
  intros version from hash Hrange Hversion Hfrom Hin.
  set (predecessor := getPreviousVersion fromVersion ndb) in *.
  assert (Hseq : In version (seqZ fromVersion (toVersion - fromVersion))).
  { apply list_elem_of_In, elem_of_seqZ. lia. }
  assert (Hrec : In (orphanKey from version hash, hash)
                   (IteratePrefix (db ndb) (orphanKeyFormat_Key1 version))).
  { apply filter_In. split; [exact Hin |].
    apply orphanKey_HasPrefix_version. }
  assert (Hscan : orphanKeyFormat_Scan (orphanKey from version hash)
                  = (version, from))
    by (apply orphanKeyFormat_Scan_Key; assumption).
  assert (Heff :
    forall op,
      In op (DeleteVersionsRange_effect predecessor
               (orphanKey from version hash) hash) ->
      In op
        (flat_map
           (fun version0 =>
              flat_map
                (fun kv => DeleteVersionsRange_effect predecessor kv.1 kv.2)
                (IteratePrefix (db ndb) (orphanKeyFormat_Key1 version0)))
           (seqZ fromVersion (toVersion - fromVersion))
         ++ flat_map (fun kv => [BDelete kv.1])
              (Iterator (db ndb) (Some (rootKey fromVersion))
                 (Some (rootKey toVersion))))).
  { intros op Hop. apply in_or_app. left.
    apply in_flat_map. exists version. split; [exact Hseq |].
    apply in_flat_map. exists (orphanKey from version hash, hash).
    split; [exact Hrec | exact Hop]. }
  unfold DeleteVersionsRange_effect in Heff. rewrite Hscan in Heff.
  split; [apply Heff; now left |]. split.
  - intros Hp.
    assert (Hb : (predecessor <? from) = true) by (apply Z.ltb_lt; lia).
    rewrite Hb in Heff.
    split; [apply Heff; right; now left |].
    apply (Hcaches version _ _ Hseq Hrec). rewrite Hscan. exact Hp.
  - intros Hp.
    assert (Hb : (predecessor <? from) = false) by (apply Z.ltb_ge; lia).
    rewrite Hb in Heff. apply Heff. right. now left.
Qed.

(** Deleting version 2 alone from the sample database, whose predecessor is
    version 1: the orphan of [hM], created at version 2, goes with its
    node; the orphan of [hB], created at version 1, is rewritten to end at
    version 1. *)
Lemma DeleteVersionsRange_orphans_witness :
  let r := DeleteVersionsRange 2 3 Sample.ndb in
  r.1 = Ok tt
  /\ exists added,
       ops (batch r.2) = ops (batch Sample.ndb) ++ added
       /\ In (BDelete (orphanKey 2 2 Sample.hM)) added
       /\ In (BDelete (nodeKey Sample.hM)) added
       /\ In (BDelete (orphanKey 1 2 Sample.hB)) added
       /\ In (BSet (orphanKey 1 1 Sample.hB) Sample.hB) added.
Proof.
  cbv zeta.
  assert (Hfree : forall v, getPreviousVersion 2 Sample.ndb < v < 3 ->
                            readers Sample.ndb v = 0).
  { intros v _. unfold readers.
    change (versionReaders Sample.ndb) with (∅ : gmap Z Z).
    now rewrite lookup_empty. }
  destruct (DeleteVersionsRange_orphans 2 3 Sample.ndb
              ltac:(lia) ltac:(lia) ltac:(vm_compute; discriminate)
              Hfree eq_refl)
    as (Hok & added & Hops & Hrecords).
  split; [exact Hok |]. exists added. split; [exact Hops |].
  destruct (Hrecords 2 2 Sample.hM) as (HM1 & HM2 & _);
    [lia | vm_compute; split; discriminate | vm_compute; split; discriminate
    | vm_compute; tauto |].
  destruct (Hrecords 2 1 Sample.hB) as (HB1 & _ & HB2);
    [lia | vm_compute; split; discriminate | vm_compute; split; discriminate
    | vm_compute; tauto |].
  split; [exact HM1 |].
  split; [apply HM2; vm_compute; reflexivity |].
  split; [exact HB1 |].
  apply HB2. vm_compute. discriminate.
Defined.

(** * Further properties *)

(** ** Existence proofs *)

(** [convertExistenceProof] accepts a range proof with exactly one leaf and
    no other: with one leaf it answers with the key and value it was given,
    the leaf operation of that leaf's version, whose prefix is the bytes 0
    and 2 followed by the version's varint, and one inner operation per
    step of the left path, leaf first; with none or several leaves it
    answers with an error. *)
Theorem convertExistenceProof_one_leaf (p : RangeProof.t) (key value : bytes) :
  match RangeProof.Leaves p with
  | [leaf] =>
      convertExistenceProof p key value
      = inr (ics23.ExistenceProof.mk key value
               (ics23.LeafOp.mk ics23.HashOp_SHA256 ics23.HashOp_SHA256
                  ics23.LengthOp_VAR_PROTO
                  (0 :: 2 :: binary.PutVarint (ProofLeafNode.Version leaf)))
               (List.map spec_InnerOp (rev (RangeProof.LeftPath p))))
  | _ =>
      convertExistenceProof p key value
      = inl (errNew "existence proof requires RangeProof to have exactly one leaf")
  end.
Proof.
  unfold convertExistenceProof.
  destruct (RangeProof.Leaves p) as [| leaf [| leaf' leaves]]; cbn;
    try reflexivity.
  unfold convertInnerOps. rewrite convertInnerOps_loop_rev by lia.
  rewrite firstn_all.
  rewrite (map_ext _ _ convertInnerOps_step_spec). reflexivity.
Qed.

(** ** The fast iterator *)

Lemma bytes_compare_cons (x y : Z) (a b : bytes) :
  bytes_compare (x :: a) (y :: b)
  = match x ?= y with Eq => bytes_compare a b | c => c end.
Proof. reflexivity. Qed.

Lemma fast_domain_iff (start end_ : option bytes) (k : bytes) :
  in_domain
    (Some match start with Some s => fastNodeKey s | None => fastKeyFormat_Key0 end)
    (Some match end_ with
          | Some e => fastNodeKey e
          | None => [(102 + 1) mod 256]
          end) k = true
  <-> exists u,
        k = fastNodeKey u
        /\ (forall s, start = Some s -> bytes_compare s u <> Gt)
        /\ (forall e, end_ = Some e -> bytes_compare u e = Lt).
Proof.
  unfold in_domain, bytes_leb, bytes_ltb, fastNodeKey, fastKeyFormat_Key0.
  change ((102 + 1) mod 256) with 103.
  rewrite andb_true_iff. split.
  - intros [Hlo Hhi]. destruct k as [| b u].
    + destruct start; discriminate.
    + assert (Hlo' : 102 <= b).
      { destruct start; rewrite bytes_compare_cons in Hlo;
          destruct (Z.compare_spec 102 b); try discriminate; lia. }
      assert (Hhi' : b <= 102).
      { destruct end_; rewrite bytes_compare_cons in Hhi.
        - destruct (Z.compare_spec b 102); try discriminate; lia.
        - destruct (Z.compare_spec b 103); try discriminate; try lia.
          subst. destruct u; discriminate. }
      assert (Hb : b = 102) by lia. clear Hlo' Hhi'.
      subst b. exists u. split; [reflexivity |]. split.
      * intros s ->. rewrite bytes_compare_cons, Z.compare_refl in Hlo.
        intros Hgt. now rewrite Hgt in Hlo.
      * intros e ->. rewrite bytes_compare_cons, Z.compare_refl in Hhi.
        destruct (bytes_compare u e); congruence.
  - intros (u & -> & Hlo & Hhi). split.
    + destruct start as [s |]; rewrite bytes_compare_cons, Z.compare_refl.
      * specialize (Hlo s eq_refl). destruct (bytes_compare s u); congruence.
      * destruct u; reflexivity.
    + destruct end_ as [e |]; rewrite bytes_compare_cons.
      * rewrite Z.compare_refl. now rewrite (Hhi e eq_refl).
      * reflexivity.
Qed.

(** [getFastIterator] yields exactly the fast-node records of the database
    whose user key is at or after [start] and before [end], a [nil] bound
    being open; in descending order it yields the same records, last
    first; with both bounds [nil] it yields the records under the fast
    prefix. *)
Theorem getFastIterator_records (start end_ : option bytes) (ndb : nodeDB) :
  (forall k v,
     In (k, v) (getFastIterator start end_ true ndb)
     <-> In (k, v) (db ndb)
         /\ exists u,
              k = fastNodeKey u
              /\ (forall s, start = Some s -> bytes_compare s u <> Gt)
              /\ (forall e, end_ = Some e -> bytes_compare u e = Lt))
  /\ getFastIterator start end_ false ndb
     = rev (getFastIterator start end_ true ndb)
  /\ getFastIterator None None true ndb
     = IteratePrefix (db ndb) fastKeyFormat_Key0.
Proof.
  split; [| split].
  - intros k v. unfold getFastIterator, Iterator. rewrite filter_In.
    cbn [fst]. change (match fastKeyFormat_Key0 with
                       | [] => []
                       | b :: rest => (b + 1) mod 256 :: rest
                       end) with [(102 + 1) mod 256].
    now rewrite fast_domain_iff.
  - reflexivity.
  - unfold getFastIterator, Iterator, IteratePrefix.
    apply filter_ext. intros [k v]. cbn [fst].
    change (match fastKeyFormat_Key0 with
            | [] => []
            | b :: rest => (b + 1) mod 256 :: rest
            end) with [(102 + 1) mod 256].
    apply eq_true_iff_eq.
    rewrite (fast_domain_iff None None k). split.
    + intros (u & -> & _). apply (HasPrefix_app [102] u).
    + intros Hp. destruct k as [| b u]; [discriminate |].
      cbn in Hp. apply andb_true_iff in Hp. destruct Hp as [Hb _].
      apply Z.eqb_eq in Hb. subst. exists u.
      split; [reflexivity |]. split; intros ? H; discriminate.
Qed.

(** ** The two non-membership constructions *)

Lemma GetByIndex_cons (kv : bytes * bytes) (tree : ImmutableTree.t) (i : Z) :
  0 <= i ->
  ImmutableTree.GetByIndex (kv :: tree) (i + 1) = ImmutableTree.GetByIndex tree i.
Proof.
  intros Hi. unfold ImmutableTree.GetByIndex.
  destruct (Z.ltb_spec (i + 1) 0); [lia |].
  destruct (Z.ltb_spec i 0); [lia |].
  replace (Z.to_nat (i + 1)) with (S (Z.to_nat i)) by lia. reflexivity.
Qed.

Lemma GetByIndex_cons_pred (kv : bytes * bytes) (tree : ImmutableTree.t) (i : Z) :
  1 <= i ->
  ImmutableTree.GetByIndex (kv :: tree) i = ImmutableTree.GetByIndex tree (i - 1).
Proof.
  intros Hi. rewrite <- (GetByIndex_cons kv tree (i - 1)) by lia.
  f_equal. lia.
Qed.

Lemma nonMembershipFast_loop_done (key : bytes) (items : list (bytes * bytes))
    (index : Z) (prevKey nextKey : option bytes) :
  nonMembershipFast_loop key items index prevKey nextKey true
  = (index, prevKey, nextKey, true).
Proof. destruct items as [| [k v] items]; reflexivity. Qed.

(** The scan of the iterator finds what the index lookup finds: the key
    before the insertion point, the key at it when the queried key is
    absent, and whether the scan stopped. *)
Lemma nonMembershipFast_loop_spec (key : bytes) (tree : ImmutableTree.t) :
  forall (index : Z) (prevKey : option bytes),
    exists index',
      nonMembershipFast_loop key tree index prevKey None false
      = (index',
         (if 1 <=? (ImmutableTree.GetWithIndex tree key).1
          then fst <$> ImmutableTree.GetByIndex tree
                         ((ImmutableTree.GetWithIndex tree key).1 - 1)
          else prevKey),
         (match (ImmutableTree.GetWithIndex tree key).2 with
          | Some _ => None
          | None => fst <$> ImmutableTree.GetByIndex tree
                              (ImmutableTree.GetWithIndex tree key).1
          end),
         (match (ImmutableTree.GetWithIndex tree key).2 with
          | Some _ => true
          | None =>
              match ImmutableTree.GetByIndex tree
                      (ImmutableTree.GetWithIndex tree key).1 with
              | Some _ => true
              | None => false
              end
          end)).
Proof.
  induction tree as [| [k v] tree IH]; intros index prevKey.
  - exists index. reflexivity.
  - cbn [nonMembershipFast_loop ImmutableTree.GetWithIndex].
    destruct (bytes_compare k key) eqn:Hc.
    + rewrite nonMembershipFast_loop_done. exists index. reflexivity.
    + destruct (IH (index + 1) (Some k)) as [index' Hloop].
      exists index'. rewrite Hloop. clear Hloop.
      pose proof (GetWithIndex_bounds tree key) as Hb.
      destruct (ImmutableTree.GetWithIndex tree key) as [i r]. cbn [fst snd] in *.
      rewrite (GetByIndex_cons (k, v) tree i) by lia.
      destruct (Z.leb_spec 1 (i + 1)); [| lia].
      replace (i + 1 - 1) with i by lia.
      destruct (Z.leb_spec 1 i) as [Hi | Hi].
      * rewrite (GetByIndex_cons_pred (k, v) tree i) by lia. reflexivity.
      * assert (i = 0) by lia. subst i. reflexivity.
    + rewrite nonMembershipFast_loop_done. exists index. reflexivity.
Qed.

(** The construction over the fast layer answers exactly as the regular
    one: the same error for a key of the tree, and otherwise the same
    neighbours, or the same error from building their existence proofs. *)
Theorem getNonMembershipProofFast_agrees
    (GetWithProof :
       ImmutableTree.t -> bytes -> error + (option bytes * RangeProof.t))
    (tree : ImmutableTree.t) (key : bytes) :
  getNonMembershipProofFast GetWithProof tree key
  = getNonMembershipProof GetWithProof tree key.
Proof.
  unfold getNonMembershipProofFast, getNonMembershipProof, ImmutableTree_Iterator.
  destruct (nonMembershipFast_loop_spec key tree 0 None) as [index' Hloop].
  rewrite Hloop. clear Hloop.
  pose proof (GetWithIndex_bounds tree key) as Hb.
  destruct (ImmutableTree.GetWithIndex tree key) as [idx val]. cbn [fst snd] in *.
  destruct val as [v |]; [reflexivity |].
  assert (Hleft :
    (if 1 <=? idx
     then fst <$> ImmutableTree.GetByIndex tree (idx - 1)
     else None)
    = if 1 <=? idx
      then Some match ImmutableTree.GetByIndex tree (idx - 1) with
                | Some (k, _) => k
                | None => []
                end
      else None).
  { destruct (Z.leb_spec 1 idx); [| reflexivity].
    destruct (GetByIndex_Some tree (idx - 1)) as (k & w & Hk & _); [lia |].
    now rewrite Hk. }
  rewrite Hleft. clear Hleft.
  destruct (ImmutableTree.GetByIndex tree idx) as [[rk rv] |]; cbn;
    destruct (1 <=? idx); reflexivity.
Qed.

(** ** Refusals of the deletion operations *)

Lemma readers_conflict_some (p : Z -> bool) (ndb : nodeDB) (v : Z) :
  p v = true -> readers ndb v <> 0 ->
  exists v' r',
    readers_conflict p ndb = Some (v', r')
    /\ p v' = true /\ readers ndb v' = r' /\ r' <> 0.
Proof.
  intros Hp Hr. unfold readers_conflict.
  destruct (List.find _ _) as [[v' r'] |] eqn:Hfind.
  - apply find_some in Hfind. destruct Hfind as [Hin Hq].
    apply andb_true_iff in Hq. destruct Hq as [Hpv Hne]. cbn in Hpv, Hne.
    apply list_elem_of_In, elem_of_map_to_list in Hin.
    exists v', r'. split; [reflexivity |]. split; [exact Hpv |].
    unfold readers. rewrite Hin. split; [reflexivity |].
    apply negb_true_iff, Z.eqb_neq in Hne. exact Hne.
  - exfalso. unfold readers in Hr.
    destruct (versionReaders ndb !! v) as [r |] eqn:Hv; [| now apply Hr].
    cbn in Hr.
    assert (Hin : In (v, r) (map_to_list (versionReaders ndb))).
    { apply list_elem_of_In, elem_of_map_to_list. exact Hv. }
    apply (find_none _ _ Hfind) in Hin. cbn in Hin.
    rewrite Hp in Hin. cbn in Hin.
    apply negb_false_iff, Z.eqb_eq in Hin. contradiction.
Qed.

(** Every way [DeleteVersionsRange] refuses a call leaves the state as it
    was, but for the cached latest version: an empty or inverted range, an
    upper bound 0, an upper bound above the latest version, and a reader on
    a version strictly between the predecessor and the upper bound. *)
Theorem DeleteVersionsRange_refusals (fromVersion toVersion : Z) (ndb : nodeDB) :
  let r := DeleteVersionsRange fromVersion toVersion ndb in
  (toVersion <= fromVersion ->
     r = (Err (errNew "toVersion must be greater than fromVersion"), ndb))
  /\ (fromVersion < toVersion -> toVersion = 0 ->
      r = (Err (errNew "toVersion must be greater than 0"), ndb))
  /\ (fromVersion < toVersion -> toVersion <> 0 ->
      latest_of ndb < toVersion ->
      r = (Err (errCannotDeleteLatest (latest_of ndb)),
           set_latestVersion (latest_of ndb) ndb))
  /\ (fromVersion < toVersion -> toVersion <> 0 ->
      toVersion <= latest_of ndb ->
      forall v,
        getPreviousVersion fromVersion ndb < v < toVersion ->
        readers ndb v <> 0 ->
        exists v' r',
          r = (Err (errActiveReaders v' r'),
               set_latestVersion (latest_of ndb) ndb)
          /\ getPreviousVersion fromVersion ndb < v' < toVersion
          /\ readers ndb v' = r' /\ r' <> 0).
Proof.
  cbv zeta. unfold DeleteVersionsRange.
  split; [| split; [| split]].
  - intros H. apply Z.leb_le in H. now rewrite H.
  - intros H1 H2. apply Z.leb_gt in H1. rewrite H1. subst. reflexivity.
  - intros H1 H2 H3. apply Z.leb_gt in H1. apply Z.eqb_neq in H2.
    apply Z.ltb_lt in H3. rewrite H1, H2. unfold bind.
    rewrite getLatestVersion_eq, H3. reflexivity.
  - intros H1 H2 H3 v Hv Hr. apply Z.leb_gt in H1. apply Z.eqb_neq in H2.
    apply Z.ltb_ge in H3. rewrite H1, H2. unfold bind at 1.
    rewrite getLatestVersion_eq, H3. unfold bind at 1. unfold gets at 1.
    unfold bind at 1. unfold gets at 1.
    change (getPreviousVersion fromVersion
              (set_latestVersion (latest_of ndb) ndb))
      with (getPreviousVersion fromVersion ndb).
    destruct (readers_conflict_some
                (fun v0 => (v0 <? toVersion)
                           && (getPreviousVersion fromVersion ndb <? v0))
                (set_latestVersion (latest_of ndb) ndb) v)
      as (v' & r' & Hc & Hp & Hr' & Hne).
    + apply andb_true_iff. split; [apply Z.ltb_lt | apply Z.ltb_lt]; lia.
    + exact Hr.
    + rewrite Hc. exists v', r'. split; [reflexivity |].
      apply andb_true_iff in Hp. destruct Hp as [Hp1 Hp2].
      apply Z.ltb_lt in Hp1, Hp2. repeat split; auto; lia.
Qed.

(** With latest version 3 in the sample database and a reader on version 2:
    each refusal is met. *)
Lemma DeleteVersionsRange_refusals_witness :
  let busy := (incrVersionReaders 2 Sample.ndb).2 in
  (DeleteVersionsRange 2 2 Sample.ndb).2 = Sample.ndb
  /\ (DeleteVersionsRange (-1) 0 Sample.ndb).2 = Sample.ndb
  /\ (DeleteVersionsRange 1 5 Sample.ndb).1 = Err (errCannotDeleteLatest 3)
  /\ exists v' r',
       (DeleteVersionsRange 1 3 busy).1 = Err (errActiveReaders v' r').
Proof.
  cbv zeta.
  destruct (DeleteVersionsRange_refusals 2 2 Sample.ndb) as (H1 & _).
  destruct (DeleteVersionsRange_refusals (-1) 0 Sample.ndb) as (_ & H2 & _).
  destruct (DeleteVersionsRange_refusals 1 5 Sample.ndb) as (_ & _ & H3 & _).
  destruct (DeleteVersionsRange_refusals 1 3 (incrVersionReaders 2 Sample.ndb).2)
    as (_ & _ & _ & H4).
  split; [rewrite H1 by lia; reflexivity |].
  split; [rewrite H2 by lia; reflexivity |].
  split; [rewrite H3 by (vm_compute; congruence); vm_compute; reflexivity |].
  destruct (H4 ltac:(lia) ltac:(lia) ltac:(vm_compute; discriminate) 2)
    as (v' & r' & Heq & _);
    [vm_compute; split; reflexivity | vm_compute; discriminate |].
  exists v', r'. now rewrite Heq.
Defined.

(** Every way [DeleteVersionsFrom] refuses a call leaves the state as it
    was, but for the cached latest version: a missing root record of the
    latest version, and a reader on a version from the given one on. *)
Theorem DeleteVersionsFrom_refusals
    (MakeNode : bytes -> error + Node.t)
    (DeserializeFastNode : bytes -> bytes -> error + FastNode.t)
    (fuel : nat) (version : Z) (ndb : nodeDB) :
  let r := DeleteVersionsFrom MakeNode DeserializeFastNode fuel version ndb in
  version <= latest_of ndb ->
  (getRoot (latest_of ndb) ndb = None ->
     r = (Err (errRootNotFound (latest_of ndb)),
          set_latestVersion (latest_of ndb) ndb))
  /\ (is_Some (getRoot (latest_of ndb) ndb) ->
      forall v,
        version <= v -> readers ndb v <> 0 ->
        exists v' r',
          r = (Err (errActiveReaders v' r'),
               set_latestVersion (latest_of ndb) ndb)
          /\ version <= v' /\ readers ndb v' = r' /\ r' <> 0).
Proof.
  cbv zeta. intros Hlatest. unfold DeleteVersionsFrom.
  apply Z.ltb_ge in Hlatest. split.
  - intros Hroot. unfold bind at 1. rewrite getLatestVersion_eq, Hlatest.
    unfold bind at 1. unfold gets at 1.
    change (getRoot (latest_of ndb) (set_latestVersion (latest_of ndb) ndb))
      with (getRoot (latest_of ndb) ndb).
    now rewrite Hroot.
  - intros [root Hroot] v Hv Hr. unfold bind at 1.
    rewrite getLatestVersion_eq, Hlatest.
    unfold bind at 1. unfold gets at 1.
    change (getRoot (latest_of ndb) (set_latestVersion (latest_of ndb) ndb))
      with (getRoot (latest_of ndb) ndb).
    rewrite Hroot. unfold bind at 1. unfold gets at 1.
    destruct (readers_conflict_some (fun v0 => version <=? v0)
                (set_latestVersion (latest_of ndb) ndb) v)
      as (v' & r' & Hc & Hp & Hr' & Hne).
    + apply Z.leb_le. lia.
    + exact Hr.
    + rewrite Hc. exists v', r'. split; [reflexivity |].
      apply Z.leb_le in Hp. auto.
Qed.

(** In the sample database a reader on version 3 stops the rollback from
    version 2. *)
Lemma DeleteVersionsFrom_refusals_witness :
  let busy := (incrVersionReaders 3 Sample.ndb).2 in
  exists v' r',
    (DeleteVersionsFrom Sample.MakeNode Sample.DeserializeFastNode 8 2 busy).1
    = Err (errActiveReaders v' r')
    /\ batch (DeleteVersionsFrom Sample.MakeNode Sample.DeserializeFastNode 8 2
                busy).2 = batch busy.
Proof.
  cbv zeta.
  destruct (DeleteVersionsFrom_refusals Sample.MakeNode
              Sample.DeserializeFastNode 8 2 (incrVersionReaders 3 Sample.ndb).2)
    as (_ & H); [vm_compute; discriminate |].
  destruct (H ltac:(vm_compute; eauto) 3) as (v' & r' & Heq & _);
    [lia | vm_compute; discriminate |].
  exists v', r'. rewrite Heq. split; reflexivity.
Defined.

(** ** Reader counts and deletion *)

(** A reader taken on a version protects it: after [incrVersionReaders],
    [DeleteVersion] of that version is refused and changes nothing, the
    counts of other versions are untouched, and the matching
    [decrVersionReaders] restores the count.  This holds below the largest
    [uint32]; at the largest one the increment wraps to 0. *)
Theorem incrVersionReaders_protects (version : Z) (checkLatestVersion : bool)
    (ndb : nodeDB) :
  0 <= readers ndb version < 2 ^ 32 ->
  let held := (incrVersionReaders version ndb).2 in
  (forall w, w <> version -> readers held w = readers ndb w)
  /\ (readers ndb version < 2 ^ 32 - 1 ->
      readers held version = readers ndb version + 1
      /\ DeleteVersion version checkLatestVersion held
         = (Err (errActiveReaders version (readers ndb version + 1)), held)
      /\ readers (decrVersionReaders version held).2 version
         = readers ndb version)
  /\ (readers ndb version = 2 ^ 32 - 1 -> readers held version = 0).
Proof.
  intros Hrange. cbv zeta. split; [| split].
  - intros w Hw. rewrite readers_incr.
    destruct (decide (version = w)); [congruence | reflexivity].
  - intros Hbelow.
    assert (Hheld : readers (incrVersionReaders version ndb).2 version
                    = readers ndb version + 1).
    { rewrite readers_incr. destruct (decide (version = version)); [| congruence].
      unfold Uint32.wrap. apply Z.mod_small. lia. }
    split; [exact Hheld |]. split.
    + unfold DeleteVersion, bind, gets.
      fold (readers (incrVersionReaders version ndb).2 version).
      rewrite Hheld.
      destruct (Z.ltb_spec 0 (readers ndb version + 1)); [reflexivity | lia].
    + rewrite readers_decr. destruct (decide (version = version)); [| congruence].
      rewrite Hheld.
      destruct (Z.ltb_spec 0 (readers ndb version + 1)); [| lia].
      unfold Uint32.wrap. rewrite Z.mod_small by lia. lia.
  - intros Hmax. rewrite readers_incr.
    destruct (decide (version = version)); [| congruence].
    rewrite Hmax. reflexivity.
Qed.

(** A first reader on version 2 of the sample database. *)
Lemma incrVersionReaders_protects_witness :
  let held := (incrVersionReaders 2 Sample.ndb).2 in
  readers held 2 = 1
  /\ DeleteVersion 2 false held = (Err (errActiveReaders 2 1), held)
  /\ readers (decrVersionReaders 2 held).2 2 = 0.
Proof.
  cbv zeta.
  destruct (incrVersionReaders_protects 2 false Sample.ndb) as (_ & H & _);
    [vm_compute; split; [discriminate | reflexivity] |].
  destruct H as (H1 & H2 & H3); [vm_compute; reflexivity |].
  split; [exact H1 |]. split; [exact H2 | exact H3].
Defined.

(** ** Saving orphans *)

Lemma saveOrphans_loop_writes (toVersion : Z) :
  forall (orphans : list (bytes * Z)) (n : nodeDB),
    closed (batch n) = false ->
    (forall hash fromVersion,
       In (hash, fromVersion) orphans -> fromVersion <= toVersion) ->
    saveOrphans_loop toVersion orphans n
    = (Ok tt,
       set_batch
         (mkBatch
            (ops (batch n)
             ++ List.map (fun hf => BSet (orphanKey hf.2 toVersion hf.1) hf.1)
                  orphans) false) n).
Proof.
  induction orphans as [| [hash fromVersion] orphans IH]; intros n Hopen Hle.
  - cbn. unfold ret. rewrite app_nil_r. destruct n as [d [o c]]; cbn in *.
    now subst.
  - cbn [saveOrphans_loop]. unfold bind, saveOrphan.
    assert (Hok : (toVersion <? fromVersion) = false).
    { apply Z.ltb_ge. apply (Hle hash). now left. }
    rewrite Hok. unfold bind. rewrite batch_Set_open by exact Hopen.
    unfold ret. rewrite IH; [| reflexivity |].
    + cbn. now rewrite <- app_assoc.
    + intros h f Hin. apply (Hle h). now right.
Qed.

Lemma saveOrphans_loop_panics (toVersion : Z) :
  forall (orphans : list (bytes * Z)) (n : nodeDB),
    closed (batch n) = false ->
    (exists hash fromVersion,
       In (hash, fromVersion) orphans /\ toVersion < fromVersion) ->
    exists n',
      saveOrphans_loop toVersion orphans n
      = (Panic "Orphan expires before it comes alive.", n').
Proof.
  induction orphans as [| [hash fromVersion] orphans IH];
    intros n Hopen (h & f & Hin & Hlt); [destruct Hin |].
  cbn [saveOrphans_loop]. unfold bind at 1, saveOrphan.
  destruct (Z.ltb_spec toVersion fromVersion) as [Hbad | Hgood].
  - eexists. reflexivity.
  - unfold bind at 1. rewrite batch_Set_open by exact Hopen. unfold ret.
    destruct Hin as [Heq | Hin]; [inversion Heq; subst; lia |].
    apply IH; [reflexivity | eauto].
Qed.

(** [SaveOrphans] ends the lifetime of the orphans of a new version at the
    version before it: when the batch accepts writes and every orphan was
    created at or before that version, it writes one orphan record per
    entry of the map, from its creation version to the previous version,
    with the hash as value, and nothing else; an orphan created after the
    previous version makes it panic. *)
Theorem SaveOrphans_records (version : Z) (orphans : gmap bytes Z)
    (ndb : nodeDB) :
  closed (batch ndb) = false ->
  let toVersion := getPreviousVersion version ndb in
  let r := SaveOrphans version orphans ndb in
  ((forall hash fromVersion,
      orphans !! hash = Some fromVersion -> fromVersion <= toVersion) ->
   r.1 = Ok tt
   /\ exists added,
        r.2 = set_batch (mkBatch (ops (batch ndb) ++ added) false) ndb
        /\ length added = size orphans
        /\ forall op,
             In op added
             <-> exists hash fromVersion,
                   orphans !! hash = Some fromVersion
                   /\ op = BSet (orphanKey fromVersion toVersion hash) hash)
  /\ ((exists hash fromVersion,
         orphans !! hash = Some fromVersion /\ toVersion < fromVersion) ->
      r.1 = Panic "Orphan expires before it comes alive.").
Proof.
  intros Hopen. cbv zeta. unfold SaveOrphans, bind, gets. split.
  - intros Hle. rewrite saveOrphans_loop_writes; [| exact Hopen |].
    + cbn [fst snd]. split; [reflexivity |]. eexists.
      split; [reflexivity |]. split.
      * rewrite length_map. apply length_map_to_list.
      * intros op. rewrite in_map_iff. split.
        -- intros ([hash fromVersion] & <- & Hin).
           apply list_elem_of_In, elem_of_map_to_list in Hin. eauto.
        -- intros (hash & fromVersion & Hin & ->).
           exists (hash, fromVersion). split; [reflexivity |].
           apply list_elem_of_In, elem_of_map_to_list. exact Hin.
    + intros hash fromVersion Hin. apply (Hle hash).
      apply list_elem_of_In, elem_of_map_to_list in Hin. exact Hin.
  - intros (hash & fromVersion & Hin & Hlt).
    destruct (saveOrphans_loop_panics (getPreviousVersion version ndb)
                (map_to_list orphans) ndb Hopen) as [n' Hn'].
    + exists hash, fromVersion. split; [| exact Hlt].
      apply list_elem_of_In, elem_of_map_to_list. exact Hin.
    + now rewrite Hn'.
Qed.

(** Saving version 4 of the sample database, whose previous version is 3:
    an orphan created at version 3 is recorded as ending at version 3; one
    said to be created at version 4 is refused. *)
Lemma SaveOrphans_records_witness :
  ops (batch (SaveOrphans 4 {[Sample.hN := 3]} Sample.ndb).2)
  = [BSet (orphanKey 3 3 Sample.hN) Sample.hN]
  /\ (SaveOrphans 4 {[Sample.hN := 4]} Sample.ndb).1
     = Panic "Orphan expires before it comes alive.".
Proof.
  split.
  - vm_compute. reflexivity.
  - destruct (SaveOrphans_records 4 {[Sample.hN := 4]} Sample.ndb eq_refl)
      as (_ & H).
    apply H. exists Sample.hN, 4. split; [apply lookup_singleton_eq |].
    vm_compute. reflexivity.
Defined.

(** ** Committing the batch *)

Lemma Get_cons (k0 v0 : bytes) (d : DB) (k : bytes) :
  Get ((k0, v0) :: d) k = if decide (k0 = k) then Some v0 else Get d k.
Proof.
  unfold Get. cbn [find]. cbv beta. cbn [fst].
  destruct (decide (k0 = k)) as [-> | Hne].
  - now rewrite bool_decide_eq_true_2.
  - now rewrite bool_decide_eq_false_2.
Qed.

Lemma Get_db_set (k v : bytes) :
  forall (d : DB) (k' : bytes),
    Get (db_set d k v) k' = if decide (k = k') then Some v else Get d k'.
Proof.
  induction d as [| [k0 v0] d IH]; intros k'.
  - cbn [db_set]. now rewrite Get_cons.
  - cbn [db_set]. destruct (bytes_compare k k0) eqn:Hcmp.
    + apply bytes_compare_eq in Hcmp. subst k0. rewrite !Get_cons.
      destruct (decide (k = k')); reflexivity.
    + rewrite !Get_cons. reflexivity.
    + rewrite !Get_cons, IH.
      destruct (decide (k0 = k')) as [-> | Hne]; [| reflexivity].
      destruct (decide (k = k')) as [-> | _]; [| reflexivity].
      now rewrite bytes_compare_refl in Hcmp.
Qed.

Lemma Get_db_delete (k : bytes) :
  forall (d : DB) (k' : bytes),
    Get (db_delete d k) k' = if decide (k = k') then None else Get d k'.
Proof.
  induction d as [| [k0 v0] d IH]; intros k'.
  - cbn. now destruct (decide (k = k')).
  - unfold db_delete in *. cbn [List.filter]. cbv beta. cbn [fst].
    destruct (decide (k0 = k)) as [-> | Hne].
    + rewrite bool_decide_eq_true_2 by reflexivity. cbn [negb].
      rewrite IH, Get_cons. destruct (decide (k = k')); reflexivity.
    + rewrite bool_decide_eq_false_2 by exact Hne. cbn [negb].
      rewrite !Get_cons, IH.
      destruct (decide (k0 = k')) as [-> | Hne']; [| reflexivity].
      destruct (decide (k = k')); [congruence | reflexivity].
Qed.

Lemma Get_fold_db_apply (operations : list BatchOp) :
  forall (d : DB) (k : bytes),
    Get (fold_left db_apply operations d) k
    = match staged operations k with
      | Some w => w
      | None => Get d k
      end.
Proof.
  induction operations as [| op operations IH] using rev_ind; intros d k.
  - reflexivity.
  - unfold staged. rewrite !fold_left_app. cbn [fold_left].
    fold (staged operations k).
    destruct op as [k' v | k']; cbn [db_apply].
    + rewrite Get_db_set, IH. destruct (decide (k' = k)); reflexivity.
    + rewrite Get_db_delete, IH. destruct (decide (k' = k)); reflexivity.
Qed.

Lemma Commit_open (ndb : nodeDB) :
  closed (batch ndb) = false ->
  Commit ndb
  = (Ok tt,
     set_batch NewBatch (set_db (fold_left db_apply (ops (batch ndb)) (db ndb)) ndb)).
Proof.
  intros Hc. unfold Commit, Batch_WriteSync, Batch_Write. rewrite Hc.
  now destruct (opts_Sync ndb).
Qed.

(** [Commit] writes the batch and starts a new one: with a batch that
    accepts the write it succeeds, the batch is empty again, and a read of
    any key then answers what the last buffered operation on that key left
    (the value set, or nothing after a deletion) and, for a key no
    operation names, what the database held before; caches, reader counts
    and the cached latest version are untouched.  When the write fails the
    error is wrapped and the state, the pending batch included, is as it
    was. *)
Theorem Commit_applies_batch (ndb : nodeDB) :
  let r := Commit ndb in
  (closed (batch ndb) = false ->
   r.1 = Ok tt
   /\ batch r.2 = NewBatch
   /\ (forall k,
         Get (db r.2) k
         = match staged (ops (batch ndb)) k with
           | Some w => w
           | None => Get (db ndb) k
           end)
   /\ r.2 = set_batch NewBatch (set_db (db r.2) ndb))
  /\ (closed (batch ndb) = true ->
      r = (Err (errNew "failed to write batch"), ndb)).
Proof.
  cbv zeta. unfold Commit, Batch_WriteSync, Batch_Write. split; intros Hc.
  - rewrite Hc. destruct (opts_Sync ndb); cbn [fst snd];
      (split; [reflexivity |]); (split; [reflexivity |]);
      (split; [| reflexivity]); intros k; apply Get_fold_db_apply.
  - rewrite Hc. now destruct (opts_Sync ndb).
Qed.

(** A root saved and committed can be read back: when [saveRoot] succeeds,
    the root is not yet visible in the database (reads still answer what
    they did), and after [Commit] [getRoot] answers the saved hash and
    [HasRoot] is true, while every key other than the root key reads as
    the batch pending before the call left it. *)
Theorem saveRoot_Commit_getRoot (hash : bytes) (version : Z) (ndb : nodeDB) :
  (saveRoot hash version ndb).1 = Ok tt ->
  let saved := (saveRoot hash version ndb).2 in
  let committed := (Commit saved).2 in
  getRoot version saved = getRoot version ndb
  /\ (Commit saved).1 = Ok tt
  /\ getRoot version committed = Some hash
  /\ HasRoot version committed = true
  /\ forall k, k <> rootKey version ->
       Get (db committed) k = Get (db (Commit ndb).2) k.
Proof.
  cbv zeta. rewrite saveRoot_eq. cbv zeta.
  destruct ((0 <? latest_of ndb) && negb (version =? Int64.add (latest_of ndb) 1));
    [discriminate |].
  destruct (closed (batch ndb)) eqn:Hopen; [discriminate |]. intros _.
  cbn [fst snd].
  set (n2 := set_batch _ _).
  set (saved := if latest_of ndb <? version then _ else _).
  assert (Hdb : db saved = db ndb).
  { subst saved n2. destruct (latest_of ndb <? version); now destruct ndb. }
  assert (Hbatch : batch saved
            = mkBatch (ops (batch ndb) ++ [BSet (rootKey version) hash]) false).
  { subst saved n2. destruct (latest_of ndb <? version); now destruct ndb. }
  clearbody saved. clear n2.
  assert (Hopen' : closed (batch saved) = false) by now rewrite Hbatch.
  rewrite (Commit_open saved Hopen'), (Commit_open ndb Hopen). cbn [fst snd].
  change (db (set_batch NewBatch (set_db ?d ?n))) with d.
  rewrite Hbatch, Hdb. cbn [ops].
  assert (Hroot : Get (fold_left db_apply
                         (ops (batch ndb) ++ [BSet (rootKey version) hash])
                         (db ndb)) (rootKey version) = Some hash).
  { rewrite Get_fold_db_apply. unfold staged. rewrite fold_left_app.
    cbn [fold_left]. now destruct (decide (rootKey version = rootKey version)). }
  split; [unfold getRoot; now rewrite Hdb |].
  split; [reflexivity |].
  split; [unfold getRoot; exact Hroot |].
  split; [unfold HasRoot; cbn [db set_batch set_db]; now rewrite Hroot |].
  intros k Hk. cbn [db set_batch set_db]. rewrite !Get_fold_db_apply.
  unfold staged. rewrite fold_left_app. cbn [fold_left].
  destruct (decide (rootKey version = k)); [congruence | reflexivity].
Qed.

(** Version 4 saved on the sample database, whose latest version is 3. *)
Lemma saveRoot_Commit_getRoot_witness :
  getRoot 4 (Commit (saveRoot Sample.hN 4 Sample.ndb).2).2 = Some Sample.hN.
Proof.
  apply (saveRoot_Commit_getRoot Sample.hN 4 Sample.ndb).
  vm_compute. reflexivity.
Defined.

(** ** The caches *)

Lemma ids_injective {V : Type} (l : list (golist.Element V)) :
  List.NoDup (List.map golist.id l) ->
  forall x y, In x l -> In y l -> golist.id x = golist.id y -> x = y.
Proof.
  induction l as [| a l IH]; intros Hnd x y Hx Hy Hid; [destruct Hx |].
  cbn [List.map] in Hnd. apply List.NoDup_cons_iff in Hnd as [Hnotin Hnd].
  destruct Hx as [-> | Hx], Hy as [-> | Hy].
  - reflexivity.
  - exfalso. apply Hnotin. rewrite Hid. now apply in_map.
  - exfalso. apply Hnotin. rewrite <- Hid. now apply in_map.
  - now apply IH.
Qed.

Lemma NoDup_ids_filter {V : Type} (p : golist.Element V -> bool)
    (l : list (golist.Element V)) :
  List.NoDup (List.map golist.id l) ->
  List.NoDup (List.map golist.id (List.filter p l)).
Proof.
  induction l as [| a l IH]; intros Hnd; [exact Hnd |].
  cbn [List.map] in Hnd. apply List.NoDup_cons_iff in Hnd as [Hnotin Hnd].
  cbn [List.filter]. destruct (p a); [| now apply IH].
  cbn [List.map]. apply List.NoDup_cons; [| now apply IH].
  intros Hin. apply Hnotin. apply in_map_iff in Hin as (x & Hx & Hin).
  apply filter_In in Hin as [Hin _]. apply in_map_iff. eauto.
Qed.

Lemma filter_other_ids {V : Type} (e : golist.Element V)
    (l : list (golist.Element V)) :
  (forall x, In x l -> golist.id x <> golist.id e) ->
  List.filter (fun x => negb (Nat.eqb (golist.id x) (golist.id e))) l = l
  /\ List.filter (fun x => Nat.eqb (golist.id x) (golist.id e)) l = [].
Proof.
  induction l as [| a l IH]; intros Hne; [split; reflexivity |].
  cbn [List.filter].
  assert (Ha : Nat.eqb (golist.id a) (golist.id e) = false).
  { apply Nat.eqb_neq. apply Hne. now left. }
  rewrite Ha. cbn [negb].
  destruct IH as [-> ->]; [intros x Hx; apply Hne; now right |].
  split; reflexivity.
Qed.

Lemma filter_split_at {V : Type} (e : golist.Element V)
    (l : list (golist.Element V)) :
  List.NoDup (List.map golist.id l) ->
  In e l ->
  exists l1 l2,
    l = l1 ++ e :: l2
    /\ List.filter (fun x => negb (Nat.eqb (golist.id x) (golist.id e))) l
       = l1 ++ l2
    /\ List.filter (fun x => Nat.eqb (golist.id x) (golist.id e)) l = [e].
Proof.
  intros Hnd Hin. apply in_split in Hin as (l1 & l2 & ->).
  exists l1, l2. split; [reflexivity |].
  assert (Hother : forall x, In x (l1 ++ l2) -> golist.id x <> golist.id e).
  { intros x Hx Hid.
    rewrite map_app in Hnd. cbn [List.map] in Hnd.
    apply List.NoDup_remove_2 in Hnd. apply Hnd.
    rewrite <- map_app, <- Hid. now apply in_map. }
  rewrite !List.filter_app. cbn [List.filter].
  rewrite Nat.eqb_refl. cbn [negb].
  destruct (filter_other_ids e l1) as [-> ->];
    [intros x Hx; apply Hother, in_or_app; now left |].
  destruct (filter_other_ids e l2) as [-> ->];
    [intros x Hx; apply Hother, in_or_app; now right |].
  split; reflexivity.
Qed.

Lemma lru_coherent_Remove {V : Type} (keyof : V -> bytes)
    (cache : gmap bytes (golist.Element V)) (queue : golist.List V)
    (k : bytes) (e : golist.Element V) :
  lru_coherent keyof cache queue ->
  cache !! k = Some e ->
  lru_coherent keyof (delete k cache) (golist.Remove e queue)
  /\ golist.Len (golist.Remove e queue) = golist.Len queue - 1.
Proof.
  intros (H1 & H2 & H3 & H4) Hk.
  destruct (H1 k e Hk) as [Hin Hkey].
  destruct (filter_split_at e (golist.elems queue) H3 Hin)
    as (l1 & l2 & Hsplit & Hrest & _).
  assert (Hmem : forall x, In x (l1 ++ l2) <-> In x (golist.elems queue) /\ x <> e).
  { intros x. rewrite <- Hrest, filter_In. split.
    - intros [Hx Hid]. split; [exact Hx |]. intros ->.
      now rewrite Nat.eqb_refl in Hid.
    - intros [Hx Hne]. split; [exact Hx |].
      apply negb_true_iff, Nat.eqb_neq. intros Hid. apply Hne.
      now apply (ids_injective (golist.elems queue)). }
  unfold lru_coherent, golist.Remove, golist.Len. cbn [golist.elems golist.fresh].
  rewrite Hrest. split; [split; [| split; [| split]] |].
  - intros k' e' Hk'. apply lookup_delete_Some in Hk' as [Hne Hk'].
    destruct (H1 k' e' Hk') as [Hin' Hkey']. split; [| exact Hkey'].
    apply Hmem. split; [exact Hin' |]. intros ->. congruence.
  - intros e' He'. apply Hmem in He' as [Hin' Hne].
    apply lookup_delete_Some. split; [| now apply H2].
    intros Heq. apply Hne. specialize (H2 e' Hin'). rewrite <- Heq in H2.
    congruence.
  - rewrite <- Hrest. now apply NoDup_ids_filter.
  - intros e' He'. apply Hmem in He' as [Hin' _]. now apply H4.
  - rewrite Hsplit, !length_app. cbn [length]. lia.
Qed.

Lemma lru_coherent_MoveToBack {V : Type} (keyof : V -> bytes)
    (cache : gmap bytes (golist.Element V)) (queue : golist.List V)
    (k : bytes) (e : golist.Element V) :
  lru_coherent keyof cache queue ->
  cache !! k = Some e ->
  lru_coherent keyof cache (golist.MoveToBack e queue)
  /\ golist.Len (golist.MoveToBack e queue) = golist.Len queue
  /\ exists l, golist.elems (golist.MoveToBack e queue) = l ++ [e].
Proof.
  intros (H1 & H2 & H3 & H4) Hk.
  destruct (H1 k e Hk) as [Hin Hkey].
  destruct (filter_split_at e (golist.elems queue) H3 Hin)
    as (l1 & l2 & Hsplit & Hrest & Hsame).
  unfold lru_coherent, golist.MoveToBack, golist.Len.
  cbn [golist.elems golist.fresh]. rewrite Hrest, Hsame.
  assert (Hmem : forall x, In x ((l1 ++ l2) ++ [e]) <-> In x (golist.elems queue)).
  { intros x. rewrite Hsplit, !in_app_iff. cbn [In]. tauto. }
  split; [split; [| split; [| split]] | split].
  - intros k' e' Hk'. destruct (H1 k' e' Hk') as [Hin' Hkey'].
    split; [now apply Hmem | exact Hkey'].
  - intros e' He'. apply H2. now apply Hmem.
  - rewrite Hsplit in H3. rewrite !map_app in *. cbn [List.map] in *.
    rewrite <- app_assoc.
    apply (Permutation.Permutation_NoDup (l := List.map golist.id l1
                                              ++ golist.id e :: List.map golist.id l2));
      [| exact H3].
    apply Permutation.Permutation_app_head.
    change (golist.id e :: List.map golist.id l2)
      with ([golist.id e] ++ List.map golist.id l2).
    apply Permutation.Permutation_app_comm.
  - intros e' He'. apply H4. now apply Hmem.
  - rewrite Hsplit, !length_app. cbn [length]. lia.
  - now exists (l1 ++ l2).
Qed.

Lemma MoveToBack_last {V : Type} (queue : golist.List V)
    (l : list (golist.Element V)) (e : golist.Element V) :
  List.NoDup (List.map golist.id (golist.elems queue)) ->
  golist.elems queue = l ++ [e] ->
  golist.MoveToBack e queue = queue.
Proof.
  intros Hnd Hl. unfold golist.MoveToBack. rewrite Hl in *.
  assert (Hother : forall x, In x l -> golist.id x <> golist.id e).
  { intros x Hx Hid. rewrite map_app in Hnd. cbn [List.map] in Hnd.
    apply List.NoDup_remove_2 in Hnd. apply Hnd.
    rewrite app_nil_r, <- Hid. now apply in_map. }
  rewrite !List.filter_app. cbn [List.filter]. rewrite Nat.eqb_refl. cbn [negb].
  destruct (filter_other_ids e l Hother) as [-> ->].
  rewrite app_nil_r. cbn [app]. destruct queue as [els fr].
  cbn [golist.elems golist.fresh] in *. now rewrite Hl.
Qed.

(** The body shared by [cacheNode] and [cacheFastNode]: push the value,
    map its key to the new element, and drop the oldest element when the
    queue is over the limit. *)
Lemma lru_push {V : Type} (keyof : V -> bytes)
    (cache : gmap bytes (golist.Element V)) (queue : golist.List V)
    (size : Z) (v : V) :
  lru_ok keyof cache queue size ->
  cache !! keyof v = None ->
  let e := golist.mkElement (golist.fresh queue) v in
  let q := golist.mkList (golist.elems queue ++ [e]) (S (golist.fresh queue)) in
  let c := <[keyof v := e]> cache in
  exists c' q',
    (if size <? golist.Len q
     then match golist.Front q with
          | Some oldest =>
              (delete (keyof (golist.Value oldest)) c, golist.Remove oldest q)
          | None => (c, q)
          end
     else (c, q)) = (c', q')
    /\ lru_ok keyof c' q' size
    /\ (0 < size ->
        c' !! keyof v = Some e /\ exists l, golist.elems q' = l ++ [e]).
Proof.
  intros [(H1 & H2 & H3 & H4) Hlen] Hnew. cbv zeta.
  set (e := golist.mkElement (golist.fresh queue) v).
  set (q := golist.mkList (golist.elems queue ++ [e]) (S (golist.fresh queue))).
  set (c := <[keyof v := e]> cache).
  assert (Hfresh : forall x, In x (golist.elems queue) -> x <> e).
  { intros x Hx ->. apply H4 in Hx. cbn in Hx. lia. }
  assert (Hcoh : lru_coherent keyof c q).
  { unfold lru_coherent, q, c. cbn [golist.elems golist.fresh].
    split; [| split; [| split]].
    - intros k e' Hk. apply lookup_insert_Some in Hk as [[<- <-] | [Hne Hk]].
      + split; [apply in_or_app; right; now left | reflexivity].
      + destruct (H1 k e' Hk) as [Hin Hkey].
        split; [apply in_or_app; now left | exact Hkey].
    - intros e' He'. apply in_app_or in He' as [He' | [<- | []]].
      + apply lookup_insert_Some. right. split; [| now apply H2].
        intros Heq. specialize (H2 e' He'). rewrite <- Heq in H2. congruence.
      + apply lookup_insert_Some. left. split; reflexivity.
    - rewrite map_app. cbn [List.map].
      apply (Permutation.Permutation_NoDup
               (l := golist.id e :: List.map golist.id (golist.elems queue))).
      + change (golist.id e :: List.map golist.id (golist.elems queue))
          with ([golist.id e] ++ List.map golist.id (golist.elems queue)).
        apply Permutation.Permutation_app_comm.
      + apply List.NoDup_cons; [| exact H3].
        intros Hin. apply in_map_iff in Hin as (x & Hid & Hx).
        apply H4 in Hx. cbn in Hid. lia.
    - intros e' He'. apply in_app_or in He' as [He' | [<- | []]].
      + apply H4 in He'. lia.
      + cbn. lia. }
  assert (HlenQ : golist.Len q = golist.Len queue + 1).
  { unfold golist.Len, q. cbn [golist.elems]. rewrite length_app. cbn [length]. lia. }
  assert (Hce : c !! keyof v = Some e) by apply lookup_insert_eq.
  destruct (Z.ltb_spec size (golist.Len q)) as [Hover | Hfits].
  - destruct (golist.Front q) as [oldest |] eqn:Hfront.
    + assert (Hold : In oldest (golist.elems q)).
      { unfold golist.Front in Hfront. destruct (golist.elems q); [discriminate |].
        cbn in Hfront. injection Hfront as ->. now left. }
      assert (Hcold : c !! keyof (golist.Value oldest) = Some oldest).
      { destruct Hcoh as (_ & Hc2 & _). now apply Hc2. }
      destruct (lru_coherent_Remove keyof c q _ oldest Hcoh Hcold) as [Hcoh' Hlen'].
      eexists _, _. split; [reflexivity |]. split; [split; [exact Hcoh' | lia] |].
      intros Hpos.
      assert (Hne : golist.elems queue <> []).
      { intros Hnil. unfold golist.Len in HlenQ, Hover, Hlen.
        rewrite Hnil in *. cbn in *. lia. }
      assert (Hin : In oldest (golist.elems queue)).
      { unfold golist.Front, q in Hfront. cbn [golist.elems] in Hfront.
        destruct (golist.elems queue) as [| a rest]; [congruence |].
        cbn in Hfront. injection Hfront as ->. now left. }
      assert (Hid : golist.id oldest <> golist.id e).
      { apply H4 in Hin. cbn. lia. }
      split.
      * apply lookup_delete_Some. split; [| exact Hce].
        intros Heq. specialize (H2 oldest Hin). rewrite Heq in H2. congruence.
      * unfold golist.Remove, q. cbn [golist.elems].
        rewrite List.filter_app. cbn [List.filter].
        assert (Hk : Nat.eqb (golist.id e) (golist.id oldest) = false).
        { apply Nat.eqb_neq. congruence. }
        rewrite Hk. cbn [negb]. eauto.
    + exfalso. unfold golist.Front, q in Hfront. cbn [golist.elems] in Hfront.
      destruct (golist.elems queue); discriminate.
  - eexists _, _. split; [reflexivity |]. split; [split; [exact Hcoh | lia] |].
    intros _. split; [exact Hce |]. unfold q. cbn [golist.elems]. eauto.
Qed.
Lemma set_nodeCache_same (n : nodeDB) :
  set_nodeCache (nodeCache n) (nodeCacheQueue n) n = n.
Proof. now destruct n. Qed.

Lemma set_fastNodeCache_same (n : nodeDB) :
  set_fastNodeCache (fastNodeCache n) (fastNodeCacheQueue n) n = n.
Proof. now destruct n. Qed.

Lemma cacheNode_ok (node : Node.t) (n : nodeDB) :
  nodeCache_ok n ->
  nodeCache n !! Node.hash node = None ->
  exists c q,
    cacheNode node n = (Ok tt, set_nodeCache c q n)
    /\ lru_ok Node.hash c q (nodeCacheSize n)
    /\ (0 < nodeCacheSize n ->
        exists e l,
          c !! Node.hash node = Some e /\ golist.Value e = node
          /\ golist.elems q = l ++ [e]).
Proof.
  intros Hok Hnew.
  destruct (lru_push Node.hash _ _ _ node Hok Hnew) as (c & q & Heq & Hok' & Hlast).
  exists c, q. split; [| split; [exact Hok' |]].
  - unfold cacheNode, modify, golist.PushBack. f_equal.
    destruct (nodeCacheSize n <? _); [| now inversion Heq].
    destruct (golist.Front _); now inversion Heq.
  - intros Hpos. destruct (Hlast Hpos) as (Hc & l & Hl). eauto.
Qed.

Lemma cacheFastNode_ok (node : FastNode.t) (n : nodeDB) :
  fastNodeCache_ok n ->
  fastNodeCache n !! FastNode.key node = None ->
  exists c q,
    cacheFastNode node n = (Ok tt, set_fastNodeCache c q n)
    /\ lru_ok FastNode.key c q (fastNodeCacheSize n)
    /\ (0 < fastNodeCacheSize n ->
        exists e l,
          c !! FastNode.key node = Some e /\ golist.Value e = node
          /\ golist.elems q = l ++ [e]).
Proof.
  intros Hok Hnew.
  destruct (lru_push FastNode.key _ _ _ node Hok Hnew) as (c & q & Heq & Hok' & Hlast).
  exists c, q. split; [| split; [exact Hok' |]].
  - unfold cacheFastNode, modify, golist.PushBack. f_equal.
    destruct (fastNodeCacheSize n <? _); [| now inversion Heq].
    destruct (golist.Front _); now inversion Heq.
  - intros Hpos. destruct (Hlast Hpos) as (Hc & l & Hl). eauto.
Qed.

Lemma GetNode_hit (MakeNode : bytes -> error + Node.t) (hash : bytes)
    (e : golist.Element Node.t) (n : nodeDB) :
  length hash <> 0%nat ->
  nodeCache n !! hash = Some e ->
  GetNode MakeNode hash n
  = (Ok (golist.Value e),
     set_nodeCache (nodeCache n) (golist.MoveToBack e (nodeCacheQueue n)) n).
Proof.
  intros Hlen Hc. unfold GetNode.
  destruct (Nat.eqb_spec (length hash) 0); [contradiction |].
  unfold bind, gets, modify, ret. now rewrite Hc.
Qed.

Lemma GetNode_miss (MakeNode : bytes -> error + Node.t) (hash : bytes)
    (n : nodeDB) :
  length hash <> 0%nat ->
  nodeCache n !! hash = None ->
  GetNode MakeNode hash n
  = match Get (db n) (nodeKey hash) with
    | None => (Panic "Value missing for hash", n)
    | Some buf =>
        match MakeNode buf with
        | inl _ => (Panic "Error reading Node.", n)
        | inr node =>
            (Ok (Node.set_loaded hash node),
             (cacheNode (Node.set_loaded hash node) n).2)
        end
    end.
Proof.
  intros Hlen Hc. unfold GetNode.
  destruct (Nat.eqb_spec (length hash) 0); [contradiction |].
  unfold bind, gets. rewrite Hc.
  destruct (Get (db n) (nodeKey hash)) as [buf |]; [| reflexivity].
  destruct (MakeNode buf); reflexivity.
Qed.

Lemma GetNode_again (MakeNode : bytes -> error + Node.t) (hash : bytes)
    (e : golist.Element Node.t) (l : list (golist.Element Node.t))
    (n : nodeDB) :
  length hash <> 0%nat ->
  nodeCache_ok n ->
  nodeCache n !! hash = Some e ->
  golist.elems (nodeCacheQueue n) = l ++ [e] ->
  GetNode MakeNode hash n = (Ok (golist.Value e), n).
Proof.
  intros Hlen [(_ & _ & Hnd & _) _] Hc Hl.
  rewrite (GetNode_hit MakeNode hash e n Hlen Hc).
  rewrite (MoveToBack_last _ l e Hnd Hl). now rewrite set_nodeCache_same.
Qed.

(** [GetNode] and the node cache: from a coherent cache within its size
    limit, a call leaves the cache coherent and within the limit and
    touches neither the database nor the batch; a node it returns carries
    the hash asked for, and, with a cache of positive size, asking again
    returns the same node from the cache and leaves the state as it is.  A
    hash that is empty, or that is neither cached nor stored, makes it
    panic. *)
Theorem GetNode_cache (MakeNode : bytes -> error + Node.t) (hash : bytes)
    (ndb : nodeDB) :
  nodeCache_ok ndb ->
  let r := GetNode MakeNode hash ndb in
  nodeCache_ok r.2
  /\ db r.2 = db ndb /\ batch r.2 = batch ndb
  /\ (forall node, r.1 = Ok node ->
        Node.hash node = hash
        /\ (0 < nodeCacheSize ndb ->
            GetNode MakeNode hash r.2 = (Ok node, r.2)))
  /\ (hash = []
      \/ (nodeCache ndb !! hash = None /\ Get (db ndb) (nodeKey hash) = None) ->
      exists msg, r = (Panic msg, ndb)).
Proof.
  intros Hok. cbv zeta.
  destruct (Nat.eqb_spec (length hash) 0) as [Hempty | Hlen].
  { unfold GetNode. rewrite Hempty. cbn [Nat.eqb fst snd]. unfold panic.
    cbn [fst snd]. split; [exact Hok |]. split; [reflexivity |].
    split; [reflexivity |]. split; [discriminate |]. intros _. eauto. }
  destruct (nodeCache ndb !! hash) as [e |] eqn:Hc.
  - rewrite (GetNode_hit MakeNode hash e ndb Hlen Hc). cbn [fst snd].
    destruct Hok as [Hcoh Hsize].
    destruct (lru_coherent_MoveToBack Node.hash _ _ hash e Hcoh Hc)
      as (Hcoh' & Hlen' & l & Hl).
    assert (Hok' : nodeCache_ok
              (set_nodeCache (nodeCache ndb)
                 (golist.MoveToBack e (nodeCacheQueue ndb)) ndb)).
    { split; [exact Hcoh' |]. cbn [nodeCacheQueue nodeCacheSize set_nodeCache].
      rewrite Hlen'. exact Hsize. }
    split; [exact Hok' |]. split; [reflexivity |]. split; [reflexivity |].
    split.
    + intros node [= <-]. split; [apply (proj1 Hcoh hash e Hc) |].
      intros _. apply (GetNode_again MakeNode hash e l); auto.
    + intros [-> | [Habs _]]; [now cbn in Hlen | discriminate].
  - rewrite (GetNode_miss MakeNode hash ndb Hlen Hc).
    destruct (Get (db ndb) (nodeKey hash)) as [buf |] eqn:Hget.
    + destruct (MakeNode buf) as [err | node] eqn:Hmake.
      * cbn [fst snd]. split; [exact Hok |].
        split; [reflexivity |]. split; [reflexivity |]. split; [discriminate |].
        intros [-> | [_ Habs]]; [now cbn in Hlen | discriminate].
      * destruct (cacheNode_ok (Node.set_loaded hash node) ndb Hok)
          as (c & q & Hrun & Hok' & Hlast); [exact Hc |].
        rewrite Hrun. cbn [fst snd].
        split; [exact Hok' |]. split; [reflexivity |]. split; [reflexivity |].
        split.
        -- intros node' [= <-]. split; [reflexivity |]. intros Hpos.
           destruct (Hlast Hpos) as (e & l & Hce & Hval & Hl).
           rewrite <- Hval. apply (GetNode_again MakeNode hash e l); auto.
        -- intros [-> | [_ Habs]]; [now cbn in Hlen | discriminate].
    + cbn [fst snd]. split; [exact Hok |].
      split; [reflexivity |]. split; [reflexivity |]. split; [discriminate |].
      intros _. eauto.
Qed.
(** ** Operations that keep the caches coherent *)

Section CacheInvariant.

Variable limit : Z.

Lemma caches_ok_fields (n n' : nodeDB) :
  nodeCache n' = nodeCache n ->
  nodeCacheQueue n' = nodeCacheQueue n ->
  nodeCacheSize n' = nodeCacheSize n ->
  fastNodeCache n' = fastNodeCache n ->
  fastNodeCacheQueue n' = fastNodeCacheQueue n ->
  fastNodeCacheSize n' = fastNodeCacheSize n ->
  caches_ok limit n -> caches_ok limit n'.
Proof.
  unfold caches_ok, nodeCache_ok, fastNodeCache_ok.
  intros -> -> -> -> -> ->. auto.
Qed.

Lemma caches_ok_set_nodeCache (c : gmap bytes (golist.Element Node.t))
    (q : golist.List Node.t) (n : nodeDB) :
  lru_ok Node.hash c q (nodeCacheSize n) ->
  caches_ok limit n -> caches_ok limit (set_nodeCache c q n).
Proof. intros Hc (_ & Hf & Hs). split; [exact Hc | split; [exact Hf | exact Hs]]. Qed.

Lemma caches_ok_set_fastNodeCache (c : gmap bytes (golist.Element FastNode.t))
    (q : golist.List FastNode.t) (n : nodeDB) :
  lru_ok FastNode.key c q (fastNodeCacheSize n) ->
  caches_ok limit n -> caches_ok limit (set_fastNodeCache c q n).
Proof. intros Hc (Hn & _ & Hs). split; [exact Hn | split; [exact Hc | exact Hs]]. Qed.

Lemma lru_ok_Remove {V : Type} (keyof : V -> bytes)
    (cache : gmap bytes (golist.Element V)) (queue : golist.List V)
    (size : Z) (k : bytes) (e : golist.Element V) :
  lru_ok keyof cache queue size ->
  cache !! k = Some e ->
  lru_ok keyof (delete k cache) (golist.Remove e queue) size.
Proof.
  intros [Hcoh Hlen] Hk.
  destruct (lru_coherent_Remove keyof cache queue k e Hcoh Hk) as [Hcoh' Hlen'].
  split; [exact Hcoh' | lia].
Qed.

Lemma keeps_ret {A : Type} (P : nodeDB -> Prop) (a : A) : keeps P (ret a).
Proof. intros n r n' HP H. now inversion H; subst. Qed.

Lemma keeps_fail {A : Type} (P : nodeDB -> Prop) (e : error) :
  keeps P (@fail A e).
Proof. intros n r n' HP H. now inversion H; subst. Qed.

Lemma keeps_panic {A : Type} (P : nodeDB -> Prop) (msg : string) :
  keeps P (@panic A msg).
Proof. intros n r n' HP H. now inversion H; subst. Qed.

Lemma keeps_gets {A : Type} (P : nodeDB -> Prop) (f : nodeDB -> A) :
  keeps P (gets f).
Proof. intros n r n' HP H. now inversion H; subst. Qed.

Lemma keeps_modify (P : nodeDB -> Prop) (f : nodeDB -> nodeDB) :
  (forall n, P n -> P (f n)) -> keeps P (modify f).
Proof. intros Hf n r n' HP H. inversion H; subst. now apply Hf. Qed.

Lemma keeps_bind {A B : Type} (P : nodeDB -> Prop) (m : M A) (k : A -> M B) :
  keeps P m -> (forall a, keeps P (k a)) -> keeps P (bind m k).
Proof.
  intros Hm Hk n r n' HP H. unfold bind in H.
  destruct (m n) as [[a | e | msg |] n1] eqn:Hmn;
    try (inversion H; subst; eapply Hm; eassumption).
  eapply Hk; [eapply Hm; eassumption | eassumption].
Qed.

Lemma keeps_iterate (P : nodeDB -> Prop) (fn : bytes -> bytes -> M unit) :
  (forall k v, keeps P (fn k v)) ->
  forall items : DB, keeps P (iterate fn items).
Proof.
  intros Hfn. induction items as [| [k v] items IH]; cbn [iterate].
  - apply keeps_ret.
  - apply keeps_bind; [apply Hfn | intros _; exact IH].
Qed.

Lemma keeps_for_versions (P : nodeDB -> Prop) (body : Z -> M unit) :
  (forall v, keeps P (body v)) ->
  forall versions : list Z, keeps P (for_versions body versions).
Proof.
  intros Hbody. induction versions as [| v versions IH]; cbn [for_versions].
  - apply keeps_ret.
  - apply keeps_bind; [apply Hbody | intros _; exact IH].
Qed.

Lemma keeps_traversePrefix (P : nodeDB -> Prop) (prefix : bytes)
    (fn : bytes -> bytes -> M unit) :
  (forall k v, keeps P (fn k v)) -> keeps P (traversePrefix prefix fn).
Proof.
  intros Hfn. unfold traversePrefix.
  apply keeps_bind; [apply keeps_gets | intros d; now apply keeps_iterate].
Qed.

Lemma keeps_traverseRange (P : nodeDB -> Prop) (start end_ : option bytes)
    (fn : bytes -> bytes -> M unit) :
  (forall k v, keeps P (fn k v)) -> keeps P (traverseRange start end_ fn).
Proof.
  intros Hfn. unfold traverseRange.
  apply keeps_bind; [apply keeps_gets | intros d; now apply keeps_iterate].
Qed.

Lemma keeps_batch_Set (key value : bytes) : keeps (caches_ok limit) (batch_Set key value).
Proof.
  intros n r n' HP H. unfold batch_Set in H.
  destruct (Batch_Set (batch n) key value); inversion H; subst; [exact HP |].
  now apply (caches_ok_fields n).
Qed.

Lemma keeps_batch_Delete (key : bytes) : keeps (caches_ok limit) (batch_Delete key).
Proof.
  intros n r n' HP H. unfold batch_Delete in H.
  destruct (Batch_Delete (batch n) key); inversion H; subst; [exact HP |].
  now apply (caches_ok_fields n).
Qed.

Lemma keeps_uncacheNode (hash : bytes) : keeps (caches_ok limit) (uncacheNode hash).
Proof.
  apply keeps_modify. intros n HP.
  destruct (nodeCache n !! hash) as [e |] eqn:Hc; [| exact HP].
  apply caches_ok_set_nodeCache; [| exact HP].
  apply lru_ok_Remove; [apply HP | exact Hc].
Qed.

Lemma keeps_uncacheFastNode (key : bytes) : keeps (caches_ok limit) (uncacheFastNode key).
Proof.
  apply keeps_modify. intros n HP.
  destruct (fastNodeCache n !! key) as [e |] eqn:Hc; [| exact HP].
  apply caches_ok_set_fastNodeCache; [| exact HP].
  apply lru_ok_Remove; [apply HP | exact Hc].
Qed.

Lemma keeps_getLatestVersion : keeps (caches_ok limit) getLatestVersion.
Proof.
  intros n r n' HP H. unfold getLatestVersion in H.
  destruct (latestVersion n =? 0); inversion H; subst; [| exact HP].
  now apply (caches_ok_fields n).
Qed.

Lemma keeps_updateLatestVersion (version : Z) :
  keeps (caches_ok limit) (updateLatestVersion version).
Proof.
  apply keeps_modify. intros n HP.
  destruct (latestVersion n <? version); [| exact HP].
  now apply (caches_ok_fields n).
Qed.

Lemma keeps_GetNode (MakeNode : bytes -> error + Node.t) (hash : bytes) :
  keeps (caches_ok limit) (GetNode MakeNode hash).
Proof.
  intros n r n' HP H.
  destruct (Nat.eqb_spec (length hash) 0) as [Hempty | Hlen].
  { unfold GetNode in H. rewrite Hempty in H. inversion H; subst. exact HP. }
  destruct (nodeCache n !! hash) as [e |] eqn:Hc.
  - rewrite (GetNode_hit MakeNode hash e n Hlen Hc) in H. inversion H; subst.
    apply caches_ok_set_nodeCache; [| exact HP].
    destruct HP as ([Hcoh Hsize] & _).
    destruct (lru_coherent_MoveToBack Node.hash _ _ hash e Hcoh Hc)
      as (Hcoh' & Hlen' & _).
    split; [exact Hcoh' | now rewrite Hlen'].
  - rewrite (GetNode_miss MakeNode hash n Hlen Hc) in H.
    destruct (Get (db n) (nodeKey hash)) as [buf |];
      [| inversion H; subst; exact HP].
    destruct (MakeNode buf) as [err | node]; [inversion H; subst; exact HP |].
    destruct (cacheNode_ok (Node.set_loaded hash node) n (proj1 HP) Hc)
      as (c & q & Hrun & Hok' & _).
    rewrite Hrun in H. inversion H; subst.
    now apply caches_ok_set_nodeCache.
Qed.

Ltac keeps_step :=
  first
    [ apply keeps_ret | apply keeps_fail | apply keeps_panic | apply keeps_gets
    | apply keeps_batch_Set | apply keeps_batch_Delete
    | apply keeps_uncacheNode | apply keeps_uncacheFastNode
    | apply keeps_getLatestVersion | apply keeps_updateLatestVersion
    | apply keeps_GetNode
    | apply keeps_bind; [| intros ?]
    | match goal with
      | |- keeps _ (match ?x with _ => _ end) => destruct x
      end ].

Ltac keeps_auto := repeat keeps_step.

Lemma keeps_saveOrphan (hash : bytes) (fromVersion toVersion : Z) :
  keeps (caches_ok limit) (saveOrphan hash fromVersion toVersion).
Proof. unfold saveOrphan. keeps_auto. Qed.

Lemma keeps_deleteNodesFrom (MakeNode : bytes -> error + Node.t) (version : Z) :
  forall (fuel : nat) (hash : bytes),
    keeps (caches_ok limit) (deleteNodesFrom MakeNode fuel version hash).
Proof.
  induction fuel as [| fuel IH]; intros hash; cbn [deleteNodesFrom];
    destruct (length hash =? 0)%nat; try apply keeps_ret.
  - intros n r n' HP H. now inversion H; subst.
  - apply keeps_bind; [apply keeps_GetNode |]. intros node.
    apply keeps_bind;
      [destruct (Node.leftHash node); [apply IH | apply keeps_ret] |].
    intros _. apply keeps_bind;
      [destruct (Node.rightHash node); [apply IH | apply keeps_ret] |].
    intros _. keeps_auto.
Qed.

Lemma keeps_DeleteFastNode (key : bytes) : keeps (caches_ok limit) (DeleteFastNode key).
Proof. unfold DeleteFastNode. keeps_auto. Qed.

Lemma keeps_deleteOrphans (version : Z) : keeps (caches_ok limit) (deleteOrphans version).
Proof.
  unfold deleteOrphans. apply keeps_bind; [apply keeps_gets |]. intros p.
  apply keeps_traversePrefix. intros k v. unfold deleteOrphans_fn.
  keeps_auto; apply keeps_saveOrphan.
Qed.

Lemma keeps_DeleteVersion (version : Z) (checkLatestVersion : bool) :
  keeps (caches_ok limit) (DeleteVersion version checkLatestVersion).
Proof.
  unfold DeleteVersion. apply keeps_bind; [apply keeps_gets |]. intros r.
  destruct (0 <? r); [apply keeps_fail |].
  apply keeps_bind; [apply keeps_deleteOrphans |]. intros _.
  unfold deleteRoot. keeps_auto.
Qed.

Lemma evictFastNodes_fold_ok (fromVersion toVersion : Z) (n : nodeDB) :
  caches_ok limit n ->
  forall l : list (bytes * golist.Element FastNode.t),
    List.NoDup (List.map fst l) ->
    (forall k e, In (k, e) l -> fastNodeCache n !! k = Some e) ->
    let n' :=
      fold_right
        (fun (ke : bytes * golist.Element FastNode.t) (n : nodeDB) =>
           let fastNode := golist.Value ke.2 in
           if (fromVersion <=? FastNode.versionLastUpdatedAt fastNode)
              && (FastNode.versionLastUpdatedAt fastNode <? toVersion)
           then set_fastNodeCache (delete ke.1 (fastNodeCache n))
                                  (golist.Remove ke.2 (fastNodeCacheQueue n)) n
           else n)
        n l in
    caches_ok limit n'
    /\ forall k, ~ In k (List.map fst l) ->
         fastNodeCache n' !! k = fastNodeCache n !! k.
Proof.
  intros HP. induction l as [| [k e] l IH]; intros Hnd Hin; cbn [fold_right].
  - split; [exact HP | reflexivity].
  - cbn [List.map fst] in Hnd. apply List.NoDup_cons_iff in Hnd as [Hk Hnd].
    destruct (IH Hnd) as [HP' Hout]; [intros k' e' H'; apply Hin; now right |].
    cbv zeta in *. cbn [fst snd].
    match goal with
    | |- context [fold_right ?f n l] => set (n1 := fold_right f n l) in *
    end.
    destruct ((fromVersion <=? _) && (_ <? toVersion)).
    + split.
      * apply caches_ok_set_fastNodeCache; [| exact HP'].
        apply lru_ok_Remove; [apply HP' |].
        rewrite (Hout k Hk). apply Hin. now left.
      * intros k' Hk'. cbn [fastNodeCache set_fastNodeCache].
        rewrite lookup_delete_ne by (intros ->; apply Hk'; now left).
        apply Hout. intros Hin'. apply Hk'. now right.
    + split; [exact HP' |]. intros k' Hk'. apply Hout.
      intros Hin'. apply Hk'. now right.
Qed.

Lemma keeps_evictFastNodes (fromVersion toVersion : Z) :
  keeps (caches_ok limit) (evictFastNodes fromVersion toVersion).
Proof.
  apply keeps_modify. intros n HP.
  apply (evictFastNodes_fold_ok fromVersion toVersion n HP).
  - apply NoDup_ListNoDup, NoDup_fst_map_to_list.
  - intros k e Hin. now apply elem_of_map_to_list, list_elem_of_In.
Qed.

Lemma keeps_deleteRecord_fn (k v : bytes) : keeps (caches_ok limit) (deleteRecord_fn k v).
Proof. unfold deleteRecord_fn. keeps_auto. Qed.

Lemma keeps_DeleteVersionsRange (fromVersion toVersion : Z) :
  keeps (caches_ok limit) (DeleteVersionsRange fromVersion toVersion).
Proof.
  unfold DeleteVersionsRange.
  destruct (toVersion <=? fromVersion); [apply keeps_fail |].
  destruct (toVersion =? 0); [apply keeps_fail |].
  apply keeps_bind; [apply keeps_getLatestVersion |]. intros latest.
  destruct (latest <? toVersion); [apply keeps_fail |].
  apply keeps_bind; [apply keeps_gets |]. intros p.
  apply keeps_bind; [apply keeps_gets |]. intros [[v r] |]; [apply keeps_fail |].
  apply keeps_bind.
  { apply keeps_for_versions. intros v. apply keeps_traversePrefix.
    intros k h. unfold DeleteVersionsRange_fn. keeps_auto.
    apply keeps_saveOrphan. }
  intros _. apply keeps_bind; [apply keeps_evictFastNodes |]. intros _.
  apply keeps_traverseRange. apply keeps_deleteRecord_fn.
Qed.

Lemma keeps_DeleteVersionsFrom (MakeNode : bytes -> error + Node.t)
    (DeserializeFastNode : bytes -> bytes -> error + FastNode.t)
    (fuel : nat) (version : Z) :
  keeps (caches_ok limit) (DeleteVersionsFrom MakeNode DeserializeFastNode fuel version).
Proof.
  unfold DeleteVersionsFrom.
  apply keeps_bind; [apply keeps_getLatestVersion |]. intros latest.
  destruct (latest <? version); [apply keeps_ret |].
  apply keeps_bind; [apply keeps_gets |]. intros [root |]; [| apply keeps_fail].
  apply keeps_bind; [apply keeps_gets |]. intros [[v r] |]; [apply keeps_fail |].
  apply keeps_bind; [apply keeps_deleteNodesFrom |]. intros _.
  apply keeps_bind.
  { apply keeps_traversePrefix. intros k h.
    unfold DeleteVersionsFrom_orphan_fn. keeps_auto. }
  intros _. apply keeps_bind.
  { apply keeps_traverseRange. apply keeps_deleteRecord_fn. }
  intros _. apply keeps_traversePrefix. intros k v.
  unfold DeleteVersionsFrom_fast_fn.
  destruct (DeserializeFastNode (drop 1 k) v) as [e | fastNode];
    [apply keeps_fail |].
  destruct (version <=? FastNode.versionLastUpdatedAt fastNode);
    [apply keeps_DeleteFastNode | apply keeps_ret].
Qed.

Lemma keeps_saveOrphans_loop (toVersion : Z) :
  forall orphans : list (bytes * Z),
    keeps (caches_ok limit) (saveOrphans_loop toVersion orphans).
Proof.
  induction orphans as [| [hash fromVersion] orphans IH]; cbn [saveOrphans_loop].
  - apply keeps_ret.
  - apply keeps_bind; [apply keeps_saveOrphan | intros _; exact IH].
Qed.

Lemma keeps_saveRoot (hash : bytes) (version : Z) :
  keeps (caches_ok limit) (saveRoot hash version).
Proof. unfold saveRoot. keeps_auto. Qed.

Lemma keeps_setFastStorageVersionToBatch :
  keeps (caches_ok limit) setFastStorageVersionToBatch.
Proof.
  unfold setFastStorageVersionToBatch. keeps_auto.
  apply keeps_modify. intros n HP. now apply (caches_ok_fields n).
Qed.

Lemma keeps_Commit : keeps (caches_ok limit) Commit.
Proof.
  intros n r n' HP H. unfold Commit in H.
  destruct (if opts_Sync n then _ else _); inversion H; subst; [exact HP |].
  now apply (caches_ok_fields n).
Qed.

Lemma GetFastNode_keeps
    (DeserializeFastNode : bytes -> bytes -> error + FastNode.t) (key : bytes) :
  (forall buf fastNode,
     DeserializeFastNode key buf = inr fastNode -> FastNode.key fastNode = key) ->
  keeps (caches_ok limit) (GetFastNode DeserializeFastNode key).
Proof.
  intros Hkey n r n' HP H. unfold GetFastNode in H.
  unfold bind at 1, gets at 1 in H.
  destruct (negb (hasUpgradedToFastStorage n)); [inversion H; subst; exact HP |].
  destruct (length key =? 0)%nat; [inversion H; subst; exact HP |].
  unfold bind at 1, gets at 1 in H.
  destruct (fastNodeCache n !! key) as [e |] eqn:Hc.
  - unfold bind, modify, ret in H. inversion H; subst.
    apply caches_ok_set_fastNodeCache; [| exact HP].
    destruct HP as (_ & [Hcoh Hsize] & _).
    destruct (lru_coherent_MoveToBack FastNode.key _ _ key e Hcoh Hc)
      as (Hcoh' & Hlen' & _).
    split; [exact Hcoh' | now rewrite Hlen'].
  - unfold bind at 1, gets at 1 in H.
    destruct (Get (db n) (fastNodeKey key)) as [buf |];
      [| inversion H; subst; exact HP].
    destruct (DeserializeFastNode key buf) as [err | fastNode] eqn:Hdec;
      [inversion H; subst; exact HP |].
    apply Hkey in Hdec.
    destruct (cacheFastNode_ok fastNode n (proj1 (proj2 HP))) as (c & q & Hrun & Hok' & _);
      [now rewrite Hdec |].
    unfold bind, ret in H. rewrite Hrun in H. inversion H; subst.
    now apply caches_ok_set_fastNodeCache.
Qed.

End CacheInvariant.

Lemma newNodeDB_caches_ok (d : DB) (cacheSize : Z) (sync : bool) :
  caches_ok cacheSize (newNodeDB d cacheSize sync).
Proof.
  assert (Hempty : forall (V : Type) (keyof : V -> bytes),
            lru_ok keyof ∅ golist.New cacheSize).
  { intros V keyof. split; [| change (0 <= Z.max 0 cacheSize); lia].
    split; [intros k e Hk; now rewrite lookup_empty in Hk |].
    split; [intros e [] |]. split; [apply List.NoDup_nil | intros e []]. }
  split; [apply Hempty |]. split; [apply Hempty |]. split; reflexivity.
Qed.

Lemma run_call_caches_ok
    (MakeNode : bytes -> error + Node.t)
    (DeserializeFastNode : bytes -> bytes -> error + FastNode.t)
    (size : Z) (c : Call) (n : nodeDB) :
  (forall key buf fastNode,
     DeserializeFastNode key buf = inr fastNode -> FastNode.key fastNode = key) ->
  caches_ok size n ->
  caches_ok size (run_call MakeNode DeserializeFastNode n c).
Proof.
  intros Hkey HP.
  assert (Hrun : forall (A : Type) (m : M A),
            keeps (caches_ok size) m -> caches_ok size (m n).2).
  { intros A m Hm. destruct (m n) as [r n'] eqn:Hmn. exact (Hm n r n' HP Hmn). }
  destruct c; cbn [run_call]; apply Hrun.
  - apply keeps_GetNode.
  - apply GetFastNode_keeps. intros buf fastNode. apply Hkey.
  - apply keeps_DeleteVersion.
  - apply keeps_DeleteVersionsFrom.
  - apply keeps_DeleteVersionsRange.
  - unfold SaveOrphans. apply keeps_bind; [apply keeps_gets |].
    intros p. apply keeps_saveOrphans_loop.
  - unfold SaveRoot. destruct (length (Node.hash root) =? 0)%nat;
      [apply keeps_panic | apply keeps_saveRoot].
  - apply keeps_saveRoot.
  - apply keeps_setFastStorageVersionToBatch.
  - apply keeps_Commit.
  - apply keeps_modify. intros n0 H0. now apply (caches_ok_fields size n0).
  - apply keeps_modify. intros n0 H0.
    destruct (0 <? _); [now apply (caches_ok_fields size n0) | exact H0].
Qed.

(** The caches stay coherent and bounded.  From a database just opened,
    after any sequence of the calls modelled here (reads of nodes and fast
    nodes, deletions of versions, saved orphans and roots, commits, reader
    counts), however each call ends: every entry of a cache map is an
    element of its queue and holds a value of the entry's key, every
    element of the queue is the entry of its key, no element is in the
    queue twice, and the queue is never longer than the cache size (nor
    than 0 for a negative size).  The decoder of fast nodes is taken to
    answer a node of the key it was given. *)
Theorem caches_stay_coherent
    (MakeNode : bytes -> error + Node.t)
    (DeserializeFastNode : bytes -> bytes -> error + FastNode.t)
    (d : DB) (cacheSize : Z) (sync : bool) (calls : list Call) :
  (forall key buf fastNode,
     DeserializeFastNode key buf = inr fastNode -> FastNode.key fastNode = key) ->
  let ndb := run_calls MakeNode DeserializeFastNode calls
               (newNodeDB d cacheSize sync) in
  lru_coherent Node.hash (nodeCache ndb) (nodeCacheQueue ndb)
  /\ lru_coherent FastNode.key (fastNodeCache ndb) (fastNodeCacheQueue ndb)
  /\ golist.Len (nodeCacheQueue ndb) <= Z.max 0 cacheSize
  /\ golist.Len (fastNodeCacheQueue ndb) <= Z.max 0 cacheSize.
Proof.
  intros Hkey. cbv zeta.
  assert (Hinv : forall calls n,
            caches_ok cacheSize n ->
            caches_ok cacheSize (run_calls MakeNode DeserializeFastNode calls n)).
  { clear calls. induction calls as [| c calls IH]; intros n Hn; [exact Hn |].
    cbn [run_calls fold_left]. apply IH. now apply run_call_caches_ok. }
  destruct (Hinv calls (newNodeDB d cacheSize sync)
              (newNodeDB_caches_ok d cacheSize sync))
    as ([Hn1 Hn2] & [Hf1 Hf2] & Hs1 & Hs2).
  rewrite Hs1 in Hn2. rewrite Hs2 in Hf2. auto.
Qed.

(** Reads and deletions on the sample records with a cache of two
    entries. *)
Lemma caches_stay_coherent_witness :
  let ndb :=
    run_calls Sample.MakeNode Sample.DeserializeFastNode
      [CallGetNode Sample.hA; CallGetNode Sample.hB; CallGetNode Sample.hL;
       CallGetFastNode [7]; CallDeleteVersion 1 true;
       CallDeleteVersionsFrom 8 3; CallCommit]
      (newNodeDB Sample.records 2 false) in
  golist.Len (nodeCacheQueue ndb) <= 2
  /\ golist.Len (fastNodeCacheQueue ndb) <= 2.
Proof.
  cbv zeta.
  assert (Hkey : forall key buf fastNode,
            Sample.DeserializeFastNode key buf = inr fastNode ->
            FastNode.key fastNode = key).
  { intros key buf fastNode. unfold Sample.DeserializeFastNode.
    destruct buf; [discriminate |]. now intros [= <-]. }
  destruct (caches_stay_coherent Sample.MakeNode Sample.DeserializeFastNode
              Sample.records 2 false
              [CallGetNode Sample.hA; CallGetNode Sample.hB;
               CallGetNode Sample.hL; CallGetFastNode [7];
               CallDeleteVersion 1 true; CallDeleteVersionsFrom 8 3;
               CallCommit] Hkey) as (_ & _ & H1 & H2).
  split; [exact H1 | exact H2].
Defined.
(** A node of the sample records is read, cached, and read again. *)
Lemma GetNode_cache_witness :
  let ndb := newNodeDB Sample.records 16 false in
  let r := GetNode Sample.MakeNode Sample.hL ndb in
  r.1 = Ok (Node.mk [8] (Some []) Sample.hL None None 1 1 0 true)
  /\ GetNode Sample.MakeNode Sample.hL r.2 = r.
Proof.
  cbv zeta.
  destruct (GetNode_cache Sample.MakeNode Sample.hL
              (newNodeDB Sample.records 16 false)
              (proj1 (newNodeDB_caches_ok Sample.records 16 false)))
    as (_ & _ & _ & H & _).
  assert (Hres : (GetNode Sample.MakeNode Sample.hL
                    (newNodeDB Sample.records 16 false)).1
                 = Ok (Node.mk [8] (Some []) Sample.hL None None 1 1 0 true))
    by (vm_compute; reflexivity).
  split; [exact Hres |].
  destruct (H _ Hres) as [_ Hagain]. rewrite Hagain by (cbn; lia).
  rewrite <- Hres. now destruct (GetNode _ _ _).
Defined.

(** ** Reading fast nodes *)

Lemma GetFastNode_legacy
    (DeserializeFastNode : bytes -> bytes -> error + FastNode.t)
    (key : bytes) (n : nodeDB) :
  hasUpgradedToFastStorage n = false ->
  GetFastNode DeserializeFastNode key n
  = (Err (errNew "storage version is not fast"), n).
Proof. intros H. unfold GetFastNode, bind, gets. now rewrite H. Qed.

Lemma GetFastNode_hit
    (DeserializeFastNode : bytes -> bytes -> error + FastNode.t)
    (key : bytes) (e : golist.Element FastNode.t) (n : nodeDB) :
  hasUpgradedToFastStorage n = true ->
  length key <> 0%nat ->
  fastNodeCache n !! key = Some e ->
  GetFastNode DeserializeFastNode key n
  = (Ok (Some (golist.Value e)),
     set_fastNodeCache (fastNodeCache n)
       (golist.MoveToBack e (fastNodeCacheQueue n)) n).
Proof.
  intros Hup Hlen Hc. unfold GetFastNode, bind, gets. rewrite Hup. cbn [negb].
  destruct (Nat.eqb_spec (length key) 0); [contradiction |].
  rewrite Hc. reflexivity.
Qed.

Lemma GetFastNode_miss
    (DeserializeFastNode : bytes -> bytes -> error + FastNode.t)
    (key : bytes) (n : nodeDB) :
  hasUpgradedToFastStorage n = true ->
  length key <> 0%nat ->
  fastNodeCache n !! key = None ->
  GetFastNode DeserializeFastNode key n
  = match Get (db n) (fastNodeKey key) with
    | None => (Ok None, n)
    | Some buf =>
        match DeserializeFastNode key buf with
        | inl _ => (Err (errNew "error reading FastNode."), n)
        | inr fastNode => (Ok (Some fastNode), (cacheFastNode fastNode n).2)
        end
    end.
Proof.
  intros Hup Hlen Hc. unfold GetFastNode, bind, gets. rewrite Hup. cbn [negb].
  destruct (Nat.eqb_spec (length key) 0); [contradiction |].
  rewrite Hc.
  destruct (Get (db n) (fastNodeKey key)) as [buf |]; [| reflexivity].
  destruct (DeserializeFastNode key buf); reflexivity.
Qed.

Lemma GetFastNode_again
    (DeserializeFastNode : bytes -> bytes -> error + FastNode.t)
    (key : bytes) (e : golist.Element FastNode.t)
    (l : list (golist.Element FastNode.t)) (n : nodeDB) :
  hasUpgradedToFastStorage n = true ->
  length key <> 0%nat ->
  fastNodeCache_ok n ->
  fastNodeCache n !! key = Some e ->
  golist.elems (fastNodeCacheQueue n) = l ++ [e] ->
  GetFastNode DeserializeFastNode key n = (Ok (Some (golist.Value e)), n).
Proof.
  intros Hup Hlen [(_ & _ & Hnd & _) _] Hc Hl.
  rewrite (GetFastNode_hit DeserializeFastNode key e n Hup Hlen Hc).
  rewrite (MoveToBack_last _ l e Hnd Hl). now rewrite set_fastNodeCache_same.
Qed.

(** [GetFastNode] and the fast-node cache, for a decoder that answers a
    node of the key it was given.  From a coherent cache within its limit
    a call leaves the cache so and touches neither the database nor the
    batch.  On a store not upgraded to fast storage it is refused and
    changes nothing.  A fast node it returns carries the key asked for,
    and, with a cache of positive size, asking again returns the same node
    and leaves the state as it is.  The answer is [nil] without an error
    only for a key that is neither cached nor stored, and the state is then
    as it was. *)
Theorem GetFastNode_cache
    (DeserializeFastNode : bytes -> bytes -> error + FastNode.t)
    (key : bytes) (ndb : nodeDB) :
  fastNodeCache_ok ndb ->
  (forall buf fastNode,
     DeserializeFastNode key buf = inr fastNode -> FastNode.key fastNode = key) ->
  let r := GetFastNode DeserializeFastNode key ndb in
  fastNodeCache_ok r.2
  /\ db r.2 = db ndb /\ batch r.2 = batch ndb
  /\ (hasUpgradedToFastStorage ndb = false ->
      r = (Err (errNew "storage version is not fast"), ndb))
  /\ (forall fastNode, r.1 = Ok (Some fastNode) ->
        FastNode.key fastNode = key
        /\ (0 < fastNodeCacheSize ndb ->
            GetFastNode DeserializeFastNode key r.2 = (Ok (Some fastNode), r.2)))
  /\ (r.1 = Ok None ->
      r.2 = ndb
      /\ fastNodeCache ndb !! key = None
      /\ Get (db ndb) (fastNodeKey key) = None).
Proof.
  intros Hok Hkey. cbv zeta.
  destruct (hasUpgradedToFastStorage ndb) eqn:Hup.
  2: { rewrite (GetFastNode_legacy DeserializeFastNode key ndb Hup).
       cbn [fst snd]. split; [exact Hok |]. split; [reflexivity |].
       split; [reflexivity |]. split; [reflexivity |].
       split; discriminate. }
  destruct (Nat.eqb_spec (length key) 0) as [Hempty | Hlen].
  { unfold GetFastNode, bind, gets. rewrite Hup, Hempty.
    cbn [negb Nat.eqb fst snd]. unfold fail. cbn [fst snd].
    split; [exact Hok |]. split; [reflexivity |]. split; [reflexivity |].
    split; [discriminate |]. split; discriminate. }
  destruct (fastNodeCache ndb !! key) as [e |] eqn:Hc.
  - rewrite (GetFastNode_hit DeserializeFastNode key e ndb Hup Hlen Hc).
    cbn [fst snd]. destruct Hok as [Hcoh Hsize].
    destruct (lru_coherent_MoveToBack FastNode.key _ _ key e Hcoh Hc)
      as (Hcoh' & Hlen' & l & Hl).
    assert (Hok' : fastNodeCache_ok
              (set_fastNodeCache (fastNodeCache ndb)
                 (golist.MoveToBack e (fastNodeCacheQueue ndb)) ndb)).
    { split; [exact Hcoh' |].
      cbn [fastNodeCacheQueue fastNodeCacheSize set_fastNodeCache].
      rewrite Hlen'. exact Hsize. }
    split; [exact Hok' |]. split; [reflexivity |]. split; [reflexivity |].
    split; [discriminate |]. split; [| discriminate].
    intros fastNode [= <-]. split; [apply (proj1 Hcoh key e Hc) |].
    intros _. apply (GetFastNode_again DeserializeFastNode key e l); auto.
  - rewrite (GetFastNode_miss DeserializeFastNode key ndb Hup Hlen Hc).
    destruct (Get (db ndb) (fastNodeKey key)) as [buf |] eqn:Hget.
    + destruct (DeserializeFastNode key buf) as [err | fastNode] eqn:Hdec.
      * cbn [fst snd]. split; [exact Hok |]. split; [reflexivity |].
        split; [reflexivity |]. split; [discriminate |]. split; discriminate.
      * pose proof (Hkey buf fastNode Hdec) as Hk.
        destruct (cacheFastNode_ok fastNode ndb Hok)
          as (c & q & Hrun & Hok' & Hlast); [now rewrite Hk |].
        rewrite Hrun. cbn [fst snd].
        split; [exact Hok' |]. split; [reflexivity |]. split; [reflexivity |].
        split; [discriminate |]. split; [| discriminate].
        intros fastNode' [= <-]. split; [exact Hk |]. intros Hpos.
        destruct (Hlast Hpos) as (e & l & Hce & Hval & Hl).
        rewrite <- Hval. rewrite Hk in Hce.
        apply (GetFastNode_again DeserializeFastNode key e l); auto.
    + cbn [fst snd]. split; [exact Hok |]. split; [reflexivity |].
      split; [reflexivity |]. split; [discriminate |]. split; [discriminate |].
      intros _. auto.
Qed.

(** The sample records once their storage version says fast: the fast
    node of key 7 is read, cached, and read again. *)
Lemma GetFastNode_cache_witness :
  let ndb := set_storageVersion "1.1.0-3" (newNodeDB Sample.records 16 false) in
  let r := GetFastNode Sample.DeserializeFastNode [7] ndb in
  r.1 = Ok (Some (FastNode.mk [7] 3 [70]))
  /\ GetFastNode Sample.DeserializeFastNode [7] r.2 = r.
Proof.
  cbv zeta.
  assert (Hkey : forall buf fastNode,
            Sample.DeserializeFastNode [7] buf = inr fastNode ->
            FastNode.key fastNode = [7]).
  { intros buf fastNode. unfold Sample.DeserializeFastNode.
    destruct buf; [discriminate |]. now intros [= <-]. }
  destruct (GetFastNode_cache Sample.DeserializeFastNode [7]
              (set_storageVersion "1.1.0-3" (newNodeDB Sample.records 16 false))
              (proj1 (proj2 (newNodeDB_caches_ok Sample.records 16 false))) Hkey)
    as (_ & _ & _ & _ & H & _).
  assert (Hres : (GetFastNode Sample.DeserializeFastNode [7]
                    (set_storageVersion "1.1.0-3"
                       (newNodeDB Sample.records 16 false))).1
                 = Ok (Some (FastNode.mk [7] 3 [70])))
    by (vm_compute; reflexivity).
  split; [exact Hres |].
  destruct (H _ Hres) as [_ Hagain]. rewrite Hagain by (cbn; lia).
  rewrite <- Hres. now destruct (GetFastNode _ _ _).
Defined.

(** ** Root records and the previous version *)

Lemma bytes_compare_app (a b : bytes) :
  forall c d : bytes,
    length a = length b ->
    bytes_compare (a ++ c) (b ++ d)
    = match bytes_compare a b with
      | Eq => bytes_compare c d
      | r => r
      end.
Proof.
  revert b. induction a as [| x a IH]; intros [| y b] c d Hlen;
    try discriminate; [reflexivity |].
  cbn [app]. rewrite !bytes_compare_cons.
  destruct (x ?= y); [| reflexivity | reflexivity].
  apply IH. now injection Hlen.
Qed.

Lemma be_bytes_compare (n : nat) :
  forall x y : Z,
    0 <= x < 256 ^ Z.of_nat n -> 0 <= y < 256 ^ Z.of_nat n ->
    bytes_compare (be_bytes n x) (be_bytes n y) = (x ?= y).
Proof.
  induction n as [| n IH]; intros x y Hx Hy.
  - cbn in Hx, Hy. assert (x = 0) by lia. assert (y = 0) by lia. now subst.
  - cbn [be_bytes].
    rewrite bytes_compare_app by now rewrite !length_be_bytes.
    rewrite Nat2Z.inj_succ, Z.pow_succ_r in Hx, Hy by lia.
    rewrite IH by (split; [apply Z.div_pos; lia
                          | apply Z.div_lt_upper_bound; lia]).
    pose proof (Z.div_mod x 256 ltac:(lia)) as Hdx.
    pose proof (Z.div_mod y 256 ltac:(lia)) as Hdy.
    pose proof (Z.mod_pos_bound x 256 ltac:(lia)) as Hmx.
    pose proof (Z.mod_pos_bound y 256 ltac:(lia)) as Hmy.
    destruct (Z.compare_spec (x / 256) (y / 256)) as [Heq | Hlt | Hgt].
    + rewrite bytes_compare_cons.
      destruct (Z.compare_spec (x mod 256) (y mod 256)) as [Heq' | Hlt' | Hgt'];
        symmetry.
      * apply Z.compare_eq_iff. lia.
      * apply Z.compare_lt_iff. lia.
      * apply Z.compare_gt_iff. lia.
    + symmetry. apply Z.compare_lt_iff. lia.
    + symmetry. apply Z.compare_gt_iff. lia.
Qed.

Lemma rootKey_compare (a b : Z) :
  bytes_compare (rootKey a) (rootKey b) = (a mod 2 ^ 64 ?= b mod 2 ^ 64).
Proof.
  unfold rootKey, packInt64. rewrite bytes_compare_cons, Z.compare_refl.
  apply be_bytes_compare;
    change (256 ^ Z.of_nat 8) with (2 ^ 64); apply Z.mod_pos_bound; lia.
Qed.

(** A root key lies between those of two non-negative versions exactly
    when its version does. *)
Lemma rootKey_in_domain (lo hi w : Z) :
  0 <= lo <= Int64.MaxInt64 ->
  0 <= hi <= Int64.MaxInt64 ->
  Int64.in_range w ->
  in_domain (Some (rootKey lo)) (Some (rootKey hi)) (rootKey w) = true
  <-> lo <= w < hi.
Proof.
  intros Hlo Hhi Hw. unfold in_domain, bytes_leb, bytes_ltb.
  rewrite !rootKey_compare.
  unfold Int64.in_range, Int64.MinInt64, Int64.MaxInt64 in *.
  rewrite (Z.mod_small lo), (Z.mod_small hi) by lia.
  assert (Hmod : (0 <= w /\ w mod 2 ^ 64 = w)
                 \/ (w < 0 /\ w mod 2 ^ 64 = w + 2 ^ 64)).
  { destruct (Z.lt_ge_cases w 0) as [Hneg | Hpos].
    - right. split; [exact Hneg |].
      replace w with (w + 2 ^ 64 + (-1) * 2 ^ 64) at 1 by lia.
      rewrite Z_mod_plus_full. apply Z.mod_small. lia.
    - left. split; [exact Hpos | apply Z.mod_small; lia]. }
  destruct (Z.compare_spec lo (w mod 2 ^ 64)) as [Hc1 | Hc1 | Hc1],
           (Z.compare_spec (w mod 2 ^ 64) hi) as [Hc2 | Hc2 | Hc2];
    cbn [andb]; split; intros Hgoal; try discriminate; try reflexivity; lia.
Qed.

Lemma in_domain_root_prefix (lo hi : Z) (k : bytes) :
  in_domain (Some (rootKey lo)) (Some (rootKey hi)) k = true ->
  HasPrefix k rootKeyFormat_Key0 = true.
Proof.
  unfold in_domain, bytes_leb, bytes_ltb, rootKey, rootKeyFormat_Key0.
  intros H. apply andb_true_iff in H as [Hlo Hhi].
  destruct k as [| b rest]; [discriminate |].
  rewrite bytes_compare_cons in Hlo, Hhi.
  assert (b = 114).
  { destruct (Z.compare_spec 114 b), (Z.compare_spec b 114);
      try discriminate; lia. }
  subst b. apply (HasPrefix_app [114] rest).
Qed.

Lemma Get_Some_In (d : DB) (k v : bytes) : Get d k = Some v -> In (k, v) d.
Proof.
  induction d as [| [k0 v0] d IH]; [discriminate |].
  rewrite Get_cons. destruct (decide (k0 = k)) as [-> | Hne].
  - intros [= ->]. now left.
  - intros H. right. now apply IH.
Qed.

Lemma In_Get_sorted (d : DB) (k v : bytes) :
  keys_sorted d -> In (k, v) d -> Get d k = Some v.
Proof.
  intros Hs. induction Hs as [| [k0 v0] d Hs IH Hall]; [intros [] |].
  rewrite Get_cons. intros [[= -> ->] | Hin].
  - now destruct (decide (k = k)).
  - destruct (decide (k0 = k)) as [-> | Hne]; [| now apply IH].
    exfalso. rewrite List.Forall_forall in Hall.
    specialize (Hall (k, v) Hin). cbn [fst] in Hall.
    now rewrite bytes_compare_refl in Hall.
Qed.

Lemma keys_sorted_filter (p : bytes * bytes -> bool) (d : DB) :
  keys_sorted d -> keys_sorted (List.filter p d).
Proof.
  intros Hs. induction Hs as [| kv d Hs IH Hall]; [constructor |].
  cbn [List.filter]. destruct (p kv); [| exact IH].
  constructor; [exact IH |].
  rewrite List.Forall_forall in *. intros x Hx.
  apply Hall. now apply filter_In in Hx as [Hx _].
Qed.

Lemma keys_sorted_last (d : DB) (x y : bytes * bytes) :
  keys_sorted (d ++ [x]) -> In y d -> bytes_compare y.1 x.1 = Lt.
Proof.
  induction d as [| a d IH]; intros Hs Hin; [destruct Hin |].
  cbn [app] in Hs. apply StronglySorted_inv in Hs as [Hs Hall].
  destruct Hin as [-> | Hin]; [| now apply IH].
  rewrite List.Forall_forall in Hall. apply Hall.
  apply in_or_app. right. now left.
Qed.

(** [getPreviousVersion] on a well-formed database, for a positive
    version: the answer is the largest version below the given one, and at
    least 1, whose root record is in the database, and 0 when there is
    none. *)
Theorem getPreviousVersion_largest_below (version : Z) (ndb : nodeDB) :
  roots_wf (db ndb) ->
  1 <= version <= Int64.MaxInt64 ->
  let p := getPreviousVersion version ndb in
  (p = 0 \/ (1 <= p < version /\ HasRoot p ndb = true))
  /\ forall w, p < w < version -> HasRoot w ndb = false.
Proof.
  intros [Hsorted Hwf] Hv. cbv zeta. unfold getPreviousVersion, ReverseIterator.
  set (L := Iterator (db ndb) (Some (rootKey 1)) (Some (rootKey version))).
  assert (HL : forall k v,
            In (k, v) L ->
            In (k, v) (db ndb)
            /\ exists w, k = rootKey w /\ Int64.in_range w /\ 1 <= w < version).
  { intros k v Hin. apply filter_In in Hin as [Hin Hdom]. cbn [fst] in Hdom.
    split; [exact Hin |].
    destruct (Hwf k v Hin (in_domain_root_prefix 1 version k Hdom))
      as (w & Hw & ->).
    exists w. split; [reflexivity |]. split; [exact Hw |].
    apply (rootKey_in_domain 1 version w); auto.
    all: unfold Int64.MaxInt64 in *; lia. }
  assert (Hroot : forall w,
            1 <= w < version -> HasRoot w ndb = true ->
            exists v, In (rootKey w, v) L).
  { intros w Hw Hhas. unfold HasRoot in Hhas.
    destruct (Get (db ndb) (rootKey w)) as [v |] eqn:Hget; [| discriminate].
    exists v. apply filter_In. split; [now apply Get_Some_In |].
    cbn [fst]. apply rootKey_in_domain; [| | | exact Hw];
      unfold Int64.in_range, Int64.MinInt64, Int64.MaxInt64 in *; lia. }
  assert (HLs : keys_sorted L) by now apply keys_sorted_filter.
  clearbody L.
  assert (Hnone : forall w, HasRoot w ndb = false \/ HasRoot w ndb = true).
  { intros w. destruct (HasRoot w ndb); auto. }
  destruct L as [| x L'] using rev_ind.
  - cbn [rev]. split; [now left |]. intros w Hw.
    destruct (Hnone w) as [H | H]; [exact H |].
    destruct (Hroot w ltac:(lia) H) as [v []].
  - clear IHL'. rewrite rev_app_distr. cbn [rev app]. destruct x as [k v].
    destruct (HL k v) as (Hin & p & -> & Hp & Hrange);
      [apply in_or_app; right; now left |].
    rewrite rootKeyFormat_Scan_Key by exact Hp. split.
    + right. split; [exact Hrange |]. unfold HasRoot.
      now rewrite (In_Get_sorted (db ndb) (rootKey p) v Hsorted Hin).
    + intros w Hw. destruct (Hnone w) as [H | H]; [exact H |]. exfalso.
      destruct (Hroot w ltac:(lia) H) as [v' Hin'].
      apply in_app_or in Hin' as [Hin' | [Heq | []]].
      * pose proof (keys_sorted_last L' (rootKey p, v) (rootKey w, v') HLs Hin')
          as Hlt.
        cbn [fst] in Hlt. rewrite rootKey_compare in Hlt.
        unfold Int64.in_range, Int64.MinInt64, Int64.MaxInt64 in *.
        rewrite !Z.mod_small in Hlt by lia. rewrite Z.compare_lt_iff in Hlt. lia.
      * apply (f_equal (fun kv => rootKeyFormat_Scan kv.1)) in Heq.
        cbn [fst] in Heq.
        rewrite !rootKeyFormat_Scan_Key in Heq; [lia | |];
          unfold Int64.in_range, Int64.MinInt64, Int64.MaxInt64 in *; lia.
Qed.

Lemma Sample_records_roots_wf : roots_wf Sample.records.
Proof.
  split.
  - unfold keys_sorted, Sample.records.
    repeat (apply SSorted_cons;
            [| repeat (apply List.Forall_cons; [vm_compute; reflexivity |]);
               apply List.Forall_nil]).
    apply SSorted_nil.
  - intros k v Hin Hpre. unfold Sample.records in Hin. cbn [In] in Hin.
    repeat (destruct Hin as [[= <- <-] | Hin]; [try discriminate Hpre |]);
      try contradiction.
    + exists 1. split; [vm_compute; split; discriminate | reflexivity].
    + exists 2. split; [vm_compute; split; discriminate | reflexivity].
    + exists 3. split; [vm_compute; split; discriminate | reflexivity].
Qed.

(** In the sample records, below version 3 the previous version is 2, and
    version 2 has a root. *)
Lemma getPreviousVersion_largest_below_witness :
  let p := getPreviousVersion 3 Sample.ndb in
  (p = 0 \/ (1 <= p < 3 /\ HasRoot p Sample.ndb = true))
  /\ forall w, p < w < 3 -> HasRoot w Sample.ndb = false.
Proof.
  apply (getPreviousVersion_largest_below 3 Sample.ndb).
  - exact Sample_records_roots_wf.
  - vm_compute. split; discriminate.
Defined.
Lemma Get_filter_key (q : bytes -> bool) (k : bytes) :
  forall d : DB,
    Get (List.filter (fun kv => q kv.1) d) k = if q k then Get d k else None.
Proof.
  induction d as [| [k0 v0] d IH].
  - now destruct (q k).
  - cbn [List.filter]. cbv beta. cbn [fst]. destruct (q k0) eqn:Hq0.
    + rewrite !Get_cons, IH.
      destruct (decide (k0 = k)) as [-> | _]; [now rewrite Hq0 | reflexivity].
    + rewrite Get_cons, IH.
      destruct (decide (k0 = k)) as [-> | _]; [now rewrite Hq0 | reflexivity].
Qed.

Lemma getRoots_fold (w : Z) :
  Int64.in_range w ->
  forall (l : DB) (m : gmap Z bytes),
    keys_sorted l ->
    (forall k v, In (k, v) l -> exists w', Int64.in_range w' /\ k = rootKey w') ->
    fold_left (fun (roots : gmap Z bytes) (kv : bytes * bytes) =>
                 <[rootKeyFormat_Scan kv.1 := kv.2]> roots) l m !! w
    = match Get l (rootKey w) with
      | Some v => Some v
      | None => m !! w
      end.
Proof.
  intros Hw. induction l as [| [k v] l IH]; intros m Hs Hwf; [reflexivity |].
  apply StronglySorted_inv in Hs as [Hs Hall].
  cbn [fold_left fst snd].
  rewrite IH; [| exact Hs | intros k' v' H'; apply (Hwf k' v'); now right].
  destruct (Hwf k v) as (w0 & Hw0 & ->); [now left |].
  rewrite rootKeyFormat_Scan_Key by exact Hw0. rewrite Get_cons.
  destruct (decide (rootKey w0 = rootKey w)) as [Heq | Hne].
  - assert (w0 = w) as ->.
    { apply (f_equal rootKeyFormat_Scan) in Heq.
      now rewrite !rootKeyFormat_Scan_Key in Heq. }
    destruct (Get l (rootKey w)) as [v' |] eqn:Hget.
    + exfalso. apply Get_Some_In in Hget. rewrite List.Forall_forall in Hall.
      specialize (Hall _ Hget). cbn [fst] in Hall.
      now rewrite bytes_compare_refl in Hall.
    + apply lookup_insert_eq.
  - destruct (Get l (rootKey w)); [reflexivity |].
    apply lookup_insert_ne. congruence.
Qed.

(** [getRoots] on a well-formed database collects exactly the roots
    [getRoot] reads one by one: the map has, at every version, the hash
    [getRoot] answers for it (and none where [HasRoot] is false). *)
Theorem getRoots_getRoot (ndb : nodeDB) (w : Z) :
  roots_wf (db ndb) ->
  Int64.in_range w ->
  getRoots ndb !! w = getRoot w ndb
  /\ (HasRoot w ndb = false <-> getRoots ndb !! w = None).
Proof.
  intros [Hsorted Hwf] Hw.
  assert (Heq : getRoots ndb !! w = getRoot w ndb).
  { unfold getRoots, getRoot, IteratePrefix.
    rewrite (getRoots_fold w Hw).
    - rewrite (Get_filter_key (fun k => HasPrefix k rootKeyFormat_Key0)).
      cbv beta.
      assert (Hp : HasPrefix (rootKey w) rootKeyFormat_Key0 = true)
        by apply (HasPrefix_app [114] (packInt64 w)).
      rewrite Hp, lookup_empty.
      now destruct (Get (db ndb) (rootKey w)).
    - now apply keys_sorted_filter.
    - intros k v Hin. apply filter_In in Hin as [Hin Hpre]. now apply (Hwf k v). }
  split; [exact Heq |]. rewrite Heq. unfold HasRoot, getRoot.
  destruct (Get (db ndb) (rootKey w)); split; intros; congruence.
Qed.

(** The three roots of the sample records. *)
Lemma getRoots_getRoot_witness :
  getRoots Sample.ndb !! 2 = Some Sample.hR2
  /\ getRoots Sample.ndb !! 4 = None.
Proof.
  split.
  - rewrite (proj1 (getRoots_getRoot Sample.ndb 2 Sample_records_roots_wf
                      ltac:(vm_compute; split; discriminate))).
    reflexivity.
  - apply (proj2 (getRoots_getRoot Sample.ndb 4 Sample_records_roots_wf
                    ltac:(vm_compute; split; discriminate))).
    reflexivity.
Defined.
(** ** One version deleted either way *)

Lemma HasPrefix_split (prefix : bytes) :
  forall s : bytes, HasPrefix s prefix = true -> exists rest, s = prefix ++ rest.
Proof.
  induction prefix as [| b prefix IH]; intros s H; [now exists s |].
  destruct s as [| c s]; [discriminate |]. cbn [HasPrefix] in H.
  apply andb_true_iff in H as [Hb H]. apply Z.eqb_eq in Hb. subst c.
  destruct (IH s H) as [rest ->]. now exists rest.
Qed.

Lemma orphan_prefix_toVersion (version : Z) (k : bytes) :
  Int64.in_range version ->
  HasPrefix k (orphanKeyFormat_Key1 version) = true ->
  (orphanKeyFormat_Scan k).1 = version.
Proof.
  intros Hv Hpre. apply HasPrefix_split in Hpre as [rest ->].
  unfold orphanKeyFormat_Scan, orphanKeyFormat_Key1, int64Size. cbn [fst app drop].
  rewrite drop_0.
  rewrite (take_app_length' (packInt64 version) rest 8 (length_packInt64 version)).
  now apply unpackInt64_packInt64.
Qed.

Lemma filter_singleton {A : Type} (p : A -> bool) (x : A) :
  forall l : list A,
    List.NoDup l -> In x l -> p x = true ->
    (forall y, In y l -> p y = true -> y = x) ->
    List.filter p l = [x].
Proof.
  induction l as [| a l IH]; intros Hnd Hin Hpx Huniq; [destruct Hin |].
  apply List.NoDup_cons_iff in Hnd as [Hnotin Hnd]. cbn [List.filter].
  destruct Hin as [-> | Hin].
  - rewrite Hpx. f_equal.
    destruct (List.filter p l) as [| y rest] eqn:Hf; [reflexivity |].
    assert (Hy : In y (List.filter p l)) by (rewrite Hf; now left).
    apply filter_In in Hy as [Hy Hpy].
    assert (y = x) by (apply Huniq; [now right | exact Hpy]). now subst.
  - destruct (p a) eqn:Hpa.
    + assert (a = x) by (apply Huniq; [now left | exact Hpa]). now subst.
    + apply IH; auto. intros y Hy. apply Huniq. now right.
Qed.

Lemma keys_sorted_NoDup (d : DB) : keys_sorted d -> List.NoDup d.
Proof.
  intros Hs. induction Hs as [| kv d Hs IH Hall]; [constructor |].
  constructor; [| exact IH]. intros Hin. rewrite List.Forall_forall in Hall.
  specialize (Hall kv Hin). now rewrite bytes_compare_refl in Hall.
Qed.

Lemma flat_map_agree {A B : Type} (f g : A -> list B) (l : list A) :
  (forall a, In a l -> f a = g a) -> flat_map f l = flat_map g l.
Proof.
  induction l as [| a l IH]; intros H; [reflexivity |].
  cbn [flat_map]. rewrite (H a) by now left.
  f_equal. apply IH. intros b Hb. apply H. now right.
Qed.

Lemma root_range_single (version : Z) (hash : bytes) (d : DB) :
  roots_wf d ->
  0 <= version < Int64.MaxInt64 ->
  Get d (rootKey version) = Some hash ->
  Iterator d (Some (rootKey version)) (Some (rootKey (version + 1)))
  = [(rootKey version, hash)].
Proof.
  intros [Hsorted Hwf] Hv Hget. unfold Iterator.
  assert (Hr : Int64.in_range version)
    by (unfold Int64.in_range, Int64.MinInt64, Int64.MaxInt64 in *; lia).
  apply filter_singleton.
  - now apply keys_sorted_NoDup.
  - now apply Get_Some_In.
  - cbn [fst]. apply rootKey_in_domain; auto;
      unfold Int64.MaxInt64 in *; lia.
  - intros [k v] Hin Hdom. cbn [fst] in Hdom.
    destruct (Hwf k v Hin (in_domain_root_prefix _ _ k Hdom)) as (w & Hw & ->).
    apply rootKey_in_domain in Hdom; auto;
      try (unfold Int64.MaxInt64 in *; lia).
    assert (w = version) by lia. subst w. f_equal.
    pose proof (In_Get_sorted d (rootKey version) v Hsorted Hin). congruence.
Qed.

(** [DeleteVersionsRange] over the single version [v, v+1) issues the batch
    operations [DeleteVersion v] issues.  On a well-formed database, for a
    version from 1 that is below the latest and has a root record, with no
    reader on a version after the predecessor up to [v] and a batch that
    accepts writes, both calls succeed and leave the same operations in the
    batch. *)
Theorem DeleteVersionsRange_one_version_as_DeleteVersion
    (version : Z) (checkLatestVersion : bool) (ndb : nodeDB) :
  roots_wf (db ndb) ->
  1 <= version < Int64.MaxInt64 ->
  version + 1 <= latest_of ndb ->
  HasRoot version ndb = true ->
  (forall v, getPreviousVersion version ndb < v <= version -> readers ndb v = 0) ->
  closed (batch ndb) = false ->
  let one := DeleteVersion version checkLatestVersion ndb in
  let range := DeleteVersionsRange version (version + 1) ndb in
  one.1 = Ok tt /\ range.1 = Ok tt
  /\ ops (batch one.2) = ops (batch range.2).
Proof.
  intros Hwf Hv Hlatest Hroot Hreaders Hopen. cbv zeta.
  assert (Hr : Int64.in_range version)
    by (unfold Int64.in_range, Int64.MinInt64, Int64.MaxInt64 in *; lia).
  assert (Hpred : getPreviousVersion version ndb < version).
  { assert (Hpos : 1 <= version <= Int64.MaxInt64)
      by (unfold Int64.MaxInt64 in *; lia).
    destruct Hwf as [Hsorted Hwf'].
    unfold getPreviousVersion, ReverseIterator.
    destruct (rev _) as [| [k v] rest] eqn:Hrev; [lia |].
    assert (Hin : In (k, v) (Iterator (db ndb) (Some (rootKey 1))
                               (Some (rootKey version)))).
    { apply in_rev. rewrite Hrev. now left. }
    apply filter_In in Hin as [Hin Hdom]. cbn [fst] in Hdom.
    destruct (Hwf' k v Hin (in_domain_root_prefix _ _ k Hdom)) as (w & Hw & ->).
    apply rootKey_in_domain in Hdom; auto; try (unfold Int64.MaxInt64 in *; lia).
    rewrite rootKeyFormat_Scan_Key by exact Hw. lia. }
  destruct (DeleteVersion_run version checkLatestVersion ndb)
    as (n1 & _ & _ & Hops1 & Hrun1); [| exact Hopen |].
  { rewrite Hreaders by lia. reflexivity. }
  destruct (DeleteVersionsRange_run version (version + 1) ndb)
    as (n2 & Hrun2 & Hops2 & _); [lia | lia | exact Hlatest | | exact Hopen |].
  { intros v Hrange. apply Hreaders. lia. }
  rewrite Hrun1, Hrun2. cbv zeta.
  assert (Hne : (version =? latest_of ndb) = false) by (apply Z.eqb_neq; lia).
  rewrite Hne, andb_false_r. cbn [fst snd].
  split; [reflexivity |]. split; [reflexivity |].
  assert (Hbatch : forall b n, ops (batch (set_batch b n)) = ops b)
    by (intros b n; reflexivity).
  rewrite Hbatch. cbn [ops]. rewrite Hops1, Hops2.
  replace (version + 1 - version) with 1 by lia.
  change (seqZ version 1) with [version]. cbn [flat_map]. rewrite app_nil_r.
  unfold HasRoot in Hroot.
  destruct (Get (db ndb) (rootKey version)) as [hash |] eqn:Hget;
    [| discriminate].
  rewrite (root_range_single version hash (db ndb) Hwf ltac:(lia) Hget).
  cbn [flat_map fst app]. rewrite <- app_assoc. f_equal. f_equal.
  apply flat_map_agree. intros [k h] Hin. cbn [fst snd].
  apply filter_In in Hin as [_ Hpre]. cbn [fst] in Hpre.
  pose proof (orphan_prefix_toVersion version k Hr Hpre) as Hto.
  unfold deleteOrphans_effect, DeleteVersionsRange_effect.
  destruct (orphanKeyFormat_Scan k) as [toVersion fromVersion].
  cbn [fst] in Hto. subst toVersion. f_equal.
  destruct (Z.ltb_spec (getPreviousVersion version ndb) fromVersion) as [Hlt | Hge];
    [reflexivity |].
  destruct (Z.eqb_spec fromVersion version) as [-> | Hne']; [lia | reflexivity].
Qed.

(** Version 1 of the sample database, deleted either way. *)
Lemma DeleteVersionsRange_one_version_as_DeleteVersion_witness :
  ops (batch (DeleteVersion 1 true Sample.ndb).2)
  = ops (batch (DeleteVersionsRange 1 2 Sample.ndb).2).
Proof.
  apply (DeleteVersionsRange_one_version_as_DeleteVersion 1 true Sample.ndb).
  - exact Sample_records_roots_wf.
  - vm_compute. split; [discriminate | reflexivity].
  - vm_compute. discriminate.
  - vm_compute. reflexivity.
  - intros v Hv. vm_compute. reflexivity.
  - reflexivity.
Defined.

(** ** The storage version once set *)

Lemma prefix_empty (s : string) : String.prefix EmptyString s = true.
Proof. now destruct s. Qed.

Lemma Split_first (s : string) :
  exists hd tl t,
    Split s fastStorageVersionDelimiter = hd :: tl
    /\ s = (hd ++ t)%string
    /\ no_delimiter hd = true
    /\ (t = EmptyString \/ exists t', t = String "-" t').
Proof.
  unfold Split, fastStorageVersionDelimiter.
  induction s as [| c s IH].
  - exists EmptyString, [], EmptyString. cbn. auto.
  - cbn [Split_from String.prefix String.length Nat.sub].
    destruct (ascii_dec "-" c) as [<- | Hne].
    + exists EmptyString, (Split_from "-" 0 s), (String "-" s).
      rewrite prefix_empty. cbn. repeat split; eauto.
    + destruct IH as (hd & tl & t & -> & -> & Hhd & Ht).
      exists (String c hd), tl, t. cbn [String.append no_delimiter].
      repeat split; auto.
      apply andb_true_iff. split; [| exact Hhd].
      apply negb_true_iff, Ascii.eqb_neq. congruence.
Qed.

Lemma Split_no_delimiter (q : string) :
  no_delimiter q = true -> Split q fastStorageVersionDelimiter = [q].
Proof.
  unfold Split, fastStorageVersionDelimiter.
  induction q as [| c q IH]; intros H; [reflexivity |].
  cbn [no_delimiter] in H. apply andb_true_iff in H as [Hc Hq].
  apply negb_true_iff, Ascii.eqb_neq in Hc.
  cbn [Split_from String.prefix]. destruct (ascii_dec "-" c); [congruence |].
  now rewrite (IH Hq).
Qed.

Lemma Split_two (p q : string) :
  no_delimiter p = true -> no_delimiter q = true ->
  Split (p ++ "-" ++ q) fastStorageVersionDelimiter = [p; q].
Proof.
  intros Hp Hq. pose proof (Split_no_delimiter q Hq) as Hsq.
  unfold Split, fastStorageVersionDelimiter in *.
  induction p as [| c p IH].
  - change (EmptyString ++ "-" ++ q)%string with (String "-" q).
    cbn [Split_from String.prefix String.length Nat.sub].
    destruct (ascii_dec "-" "-"); [| congruence].
    rewrite prefix_empty. now rewrite Hsq.
  - cbn [no_delimiter] in Hp. apply andb_true_iff in Hp as [Hc Hp].
    apply negb_true_iff, Ascii.eqb_neq in Hc.
    change (String c p ++ "-" ++ q)%string with (String c (p ++ "-" ++ q)).
    cbn [Split_from String.prefix].
    destruct (ascii_dec "-" c); [congruence |]. now rewrite (IH Hp).
Qed.

Lemma leb_first_part (F : string) :
  List.Forall (fun c => Ascii.compare c "-" = Gt) (list_ascii_of_string F) ->
  forall p t x : string,
    no_delimiter p = true ->
    (t = EmptyString \/ exists t', t = String "-" t') ->
    String.leb F (p ++ t) = true ->
    String.leb F (p ++ String "-" x) = true.
Proof.
  unfold String.leb.
  induction F as [| c F IH]; intros HF p t x Hp Ht Hle.
  - cbn [String.compare]. now destruct (p ++ String "-" x)%string.
  - cbn [list_ascii_of_string] in HF. apply List.Forall_cons_iff in HF as [Hc HF].
    destruct p as [| d p].
    + exfalso. change (EmptyString ++ t)%string with t in Hle.
      destruct Ht as [-> | [t' ->]]; cbn [String.compare] in Hle;
        [discriminate |].
      rewrite Hc in Hle. discriminate.
    + cbn [no_delimiter] in Hp. apply andb_true_iff in Hp as [_ Hp].
      change (String d p ++ t)%string with (String d (p ++ t)) in Hle.
      change (String d p ++ String "-" x)%string
        with (String d (p ++ String "-" x)).
      cbn [String.compare] in *.
      destruct (Ascii.compare c d); try reflexivity; try discriminate.
      now apply (IH HF p t x).
Qed.

Lemma string_of_uint_no_delimiter (d : Decimal.uint) :
  no_delimiter (NilZero.string_of_uint d) = true.
Proof.
  assert (H : no_delimiter (NilEmpty.string_of_uint d) = true).
  { induction d; cbn [NilEmpty.string_of_uint no_delimiter];
      [reflexivity | rewrite IHd; reflexivity ..]. }
  destruct d; [reflexivity | exact H ..].
Qed.

Lemma Itoa_no_delimiter (i : Z) : 0 <= i -> no_delimiter (Itoa i) = true.
Proof.
  intros Hi. unfold Itoa, NilZero.string_of_int, Z.to_int.
  destruct i as [| p | p]; [reflexivity | | lia].
  apply string_of_uint_no_delimiter.
Qed.

Lemma latest_of_fields (n n' : nodeDB) :
  db n' = db n -> latestVersion n' = latestVersion n ->
  latest_of n' = latest_of n.
Proof.
  intros Hd Hl. unfold latest_of, getLatestVersion, getPreviousVersion.
  rewrite Hl, Hd. destruct (latestVersion n =? 0); reflexivity.
Qed.

Lemma latest_of_cached (ndb : nodeDB) :
  latest_of (set_latestVersion (latest_of ndb) ndb) = latest_of ndb.
Proof.
  destruct (Z.eq_dec (latest_of ndb) 0) as [H0 | Hne];
    [| now apply latest_of_set_latestVersion].
  rewrite H0. unfold latest_of, getLatestVersion in *.
  cbn [latestVersion set_latestVersion Z.eqb fst].
  destruct (latestVersion ndb =? 0) eqn:Hz; cbn [fst] in H0.
  - unfold getPreviousVersion in *. exact H0.
  - apply Z.eqb_neq in Hz. congruence.
Qed.

(** Once [setFastStorageVersionToBatch] has succeeded the store counts as
    upgraded: [hasUpgradedToFastStorage] is true; and, with a latest
    version that is not negative, the stored string has exactly two parts
    of which the second is the latest version, so that
    [shouldForceFastStorageUpgrade] answers false and a second call
    succeeds and stores the same string. *)
Theorem setFastStorageVersionToBatch_upgrades (ndb : nodeDB) :
  (setFastStorageVersionToBatch ndb).1 = Ok tt ->
  let n' := (setFastStorageVersionToBatch ndb).2 in
  hasUpgradedToFastStorage n' = true
  /\ (0 <= latest_of ndb ->
      (exists version,
         Split (storageVersion n') fastStorageVersionDelimiter
         = [version; Itoa (latest_of ndb)])
      /\ (shouldForceFastStorageUpgrade n').1 = Ok false
      /\ (setFastStorageVersionToBatch n').1 = Ok tt
      /\ storageVersion (setFastStorageVersionToBatch n').2 = storageVersion n').
Proof.
  rewrite setFastStorageVersionToBatch_eq. cbv zeta.
  destruct (Split_first (storageVersion ndb))
    as (hd & tl & t & Hsplit & Hcur & Hhd & Ht).
  rewrite Hsplit.
  assert (Hchoice :
            exists first,
              (if string_geb (storageVersion ndb) fastStorageVersionValue
               then nth 0 (hd :: tl) EmptyString
               else fastStorageVersionValue) = first
              /\ no_delimiter first = true
              /\ string_geb
                   (first ++ fastStorageVersionDelimiter
                    ++ Itoa (latest_of ndb)) fastStorageVersionValue = true).
  { destruct (string_geb (storageVersion ndb) fastStorageVersionValue) eqn:Hge.
    - exists hd. split; [reflexivity |]. split; [exact Hhd |].
      unfold string_geb, fastStorageVersionDelimiter in *.
      change (hd ++ "-" ++ Itoa (latest_of ndb))%string
        with (hd ++ String "-" (Itoa (latest_of ndb)))%string.
      assert (HF : List.Forall (fun c => Ascii.compare c "-" = Gt)
                     (list_ascii_of_string fastStorageVersionValue)).
      { vm_compute. repeat (apply List.Forall_cons; [reflexivity |]).
        apply List.Forall_nil. }
      apply (leb_first_part fastStorageVersionValue HF hd t);
        [exact Hhd | exact Ht |]. now rewrite <- Hcur.
    - exists fastStorageVersionValue. split; [reflexivity |].
      split; reflexivity. }
  destruct Hchoice as (first & -> & Hfirst & Hfast).
  destruct (string_geb (storageVersion ndb) fastStorageVersionValue
            && (2 <? length (hd :: tl))%nat); [discriminate |].
  destruct (closed (batch ndb)) eqn:Hopen; [discriminate |].
  intros _. cbn [fst snd].
  set (new := (first ++ fastStorageVersionDelimiter ++ Itoa (latest_of ndb))%string)
    in *.
  split; [exact Hfast |]. intros Hpos.
  assert (Hparts : Split new fastStorageVersionDelimiter
                   = [first; Itoa (latest_of ndb)]).
  { apply Split_two; [exact Hfirst | now apply Itoa_no_delimiter]. }
  match goal with
  | |- context [set_storageVersion new ?n] => set (n1 := n)
  end.
  assert (Hlatest : latest_of (set_storageVersion new n1) = latest_of ndb).
  { rewrite (latest_of_fields (set_latestVersion (latest_of ndb) ndb)
               (set_storageVersion new n1)) by reflexivity.
    apply latest_of_cached. }
  split; [now exists first |]. split.
  - unfold shouldForceFastStorageUpgrade, bind, gets, ret.
    cbn [storageVersion set_storageVersion]. rewrite Hparts.
    cbn [length Nat.eqb nth]. rewrite getLatestVersion_eq, Hlatest.
    now rewrite String.eqb_refl.
  - rewrite setFastStorageVersionToBatch_eq. cbv zeta.
    cbn [storageVersion set_storageVersion]. rewrite Hparts, Hfast, Hlatest.
    cbn [length Nat.ltb Nat.leb andb nth].
    change (closed (batch (set_storageVersion new n1))) with false.
    cbn [fst snd storageVersion set_storageVersion]. split; reflexivity.
Qed.

(** The sample database, in legacy storage with latest version 3, is
    upgraded to ["1.1.0-3"]. *)
Lemma setFastStorageVersionToBatch_upgrades_witness :
  let n' := (setFastStorageVersionToBatch Sample.ndb).2 in
  storageVersion n' = "1.1.0-3"%string
  /\ hasUpgradedToFastStorage n' = true
  /\ (shouldForceFastStorageUpgrade n').1 = Ok false.
Proof.
  cbv zeta.
  destruct (setFastStorageVersionToBatch_upgrades Sample.ndb) as [Hup Hrest];
    [vm_compute; reflexivity |].
  destruct Hrest as (_ & Hforce & _); [vm_compute; discriminate |].
  split; [vm_compute; reflexivity |]. split; [exact Hup | exact Hforce].
Defined.

(** ** Reopening the database *)

Lemma string_of_bytes_of_string (s : string) :
  string_of_list_ascii
    (List.map (fun b => ascii_of_N (Z.to_N b)) (bytes_of_string s)) = s.
Proof.
  unfold bytes_of_string. rewrite List.map_map.
  rewrite (List.map_ext _ (fun c => c)), List.map_id.
  - apply string_of_list_ascii_of_string.
  - intros c. now rewrite N2Z.id, ascii_N_embedding.
Qed.

Lemma staged_last_set (operations : list BatchOp) (k v : bytes) :
  staged (operations ++ [BSet k v]) k = Some (Some v).
Proof.
  unfold staged. rewrite fold_left_app. cbn [fold_left].
  now destruct (decide (k = k)).
Qed.

(** The storage version survives a reopening once committed.  After a
    successful [setFastStorageVersionToBatch] the new string is in the
    batch only: a node database opened on the store still reads the old
    one.  After [Commit], which then succeeds, a node database opened on
    the store reads the new string. *)
Theorem storageVersion_survives_reopen (ndb : nodeDB) (cacheSize : Z)
    (sync : bool) :
  (setFastStorageVersionToBatch ndb).1 = Ok tt ->
  let pending := (setFastStorageVersionToBatch ndb).2 in
  let committed := (Commit pending).2 in
  storageVersion (newNodeDB (db pending) cacheSize sync)
  = storageVersion (newNodeDB (db ndb) cacheSize sync)
  /\ (Commit pending).1 = Ok tt
  /\ storageVersion (newNodeDB (db committed) cacheSize sync)
     = storageVersion pending.
Proof.
  rewrite setFastStorageVersionToBatch_eq. cbv zeta.
  destruct (string_geb (storageVersion ndb) fastStorageVersionValue
            && (2 <? length (Split (storageVersion ndb)
                               fastStorageVersionDelimiter))%nat);
    [discriminate |].
  destruct (closed (batch ndb)) eqn:Hopen; [discriminate |].
  intros _. cbn [fst snd].
  match goal with
  | |- context [set_storageVersion ?s (set_batch ?b ?n)] =>
      set (new := s);
        match goal with
        | |- context [set_storageVersion new ?m] =>
            set (pending := set_storageVersion new m)
        end
  end.
  assert (Hdb : db pending = db ndb) by reflexivity.
  assert (Hbatch : batch pending
            = mkBatch
                (ops (batch ndb)
                 ++ [BSet (metadataKeyFormat_Key (bytes_of_string storageVersionKey))
                          (bytes_of_string new)]) false) by reflexivity.
  assert (Hsv : storageVersion pending = new) by reflexivity.
  clearbody pending.
  split; [now rewrite Hdb |].
  rewrite (Commit_open pending) by now rewrite Hbatch.
  cbn [fst snd]. split; [reflexivity |].
  unfold newNodeDB. cbn [storageVersion db set_batch set_db].
  rewrite Get_fold_db_apply, Hbatch. cbn [ops]. rewrite staged_last_set.
  now rewrite string_of_bytes_of_string.
Qed.

(** The sample database: opened again after the commit, it reads
    ["1.1.0-3"]. *)
Lemma storageVersion_survives_reopen_witness :
  storageVersion
    (newNodeDB (db (Commit (setFastStorageVersionToBatch Sample.ndb).2).2)
       16 false)
  = "1.1.0-3"%string.
Proof.
  destruct (storageVersion_survives_reopen Sample.ndb 16 false)
    as (_ & _ & H); [vm_compute; reflexivity |].
  rewrite H. vm_compute. reflexivity.
Defined.

(** ** Membership and non-membership proofs *)

(** Exactly one of [GetMembershipProof] and [GetNonMembershipProof]
    answers a proof.  For a tree in key order, with [GetWithProof]
    answering the value and a one-leaf range proof for a key of the tree
    and no value for any other key: for a key of the tree the membership
    proof is an existence proof of that key and the non-membership proof is
    refused; for any other key the membership proof is refused with
    ["cannot create ExistanceProof when Key not in State"] and the
    non-membership proof is a non-existence proof of that key. *)
Theorem membership_proofs_exclusive
    (GetWithProof :
       ImmutableTree.t -> bytes -> error + (option bytes * RangeProof.t))
    (tree : ImmutableTree.t) (key : bytes) :
  keys_sorted tree ->
  (forall (tree : ImmutableTree.t) (key : bytes),
     (exists v, In (key, v) tree) ->
     exists v p,
       GetWithProof tree key = inr (Some v, p)
       /\ length (RangeProof.Leaves p) = 1%nat) ->
  (forall (tree : ImmutableTree.t) (key : bytes),
     (forall v, ~ In (key, v) tree) ->
     exists p, GetWithProof tree key = inr (None, p)) ->
  ((exists v, In (key, v) tree) ->
     (exists ex,
        GetMembershipProof GetWithProof tree key
        = inr (ics23.CommitmentProof_Exist ex)
        /\ ics23.ExistenceProof.Key ex = key)
     /\ GetNonMembershipProof GetWithProof tree key
        = inl (errNew "cannot create NonExistanceProof when Key in State"))
  /\ ((forall v, ~ In (key, v) tree) ->
      GetMembershipProof GetWithProof tree key
      = inl (errNew "cannot create ExistanceProof when Key not in State")
      /\ exists nonexist,
           GetNonMembershipProof GetWithProof tree key
           = inr (ics23.CommitmentProof_Nonexist nonexist)
           /\ ics23.NonExistenceProof.Key nonexist = key).
Proof.
  intros Hsorted Hpresent Habsent. split.
  - intros Hin. split.
    + destruct (createExistenceProof_present GetWithProof Hpresent tree key Hin)
        as (ep & Hep & Hkey).
      exists ep. unfold GetMembershipProof. now rewrite Hep.
    + destruct (GetWithIndex_present tree key Hsorted Hin) as [v Hv].
      unfold GetNonMembershipProof, getNonMembershipProof.
      destruct (ImmutableTree.GetWithIndex tree key) as [idx val].
      cbn [snd] in Hv. now subst val.
  - intros Hnot. split.
    + destruct (Habsent tree key Hnot) as [p Hp].
      unfold GetMembershipProof, createExistenceProof. now rewrite Hp.
    + pose proof (GetWithIndex_bounds tree key) as Hbounds.
      unfold GetNonMembershipProof, getNonMembershipProof.
      destruct (ImmutableTree.GetWithIndex tree key) as [idx val] eqn:Hget.
      cbn [fst] in Hbounds.
      destruct val as [v |];
        [exfalso; eapply Hnot, GetWithIndex_found; exact Hget |].
      assert (Hleft :
        exists lproof,
          (if 1 <=? idx
           then
             match
               createExistenceProof GetWithProof tree
                 match ImmutableTree.GetByIndex tree (idx - 1) with
                 | Some (k, _) => k
                 | None => []
                 end
             with
             | inl e => inl e
             | inr p => inr (Some p)
             end
           else inr None) = inr lproof).
      { destruct (Z.leb_spec 1 idx) as [Hidx | Hidx]; [| eauto].
        destruct (GetByIndex_Some tree (idx - 1)) as (k & v & Hk & Hin); [lia |].
        rewrite Hk.
        destruct (createExistenceProof_present GetWithProof Hpresent tree k
                    (ex_intro _ v Hin)) as (ep & Hep & _).
        rewrite Hep. eauto. }
      destruct Hleft as [lproof Hlproof]. rewrite Hlproof.
      destruct (ImmutableTree.GetByIndex tree idx) as [[rightkey rv] |] eqn:Hright.
      * destruct (createExistenceProof_present GetWithProof Hpresent tree rightkey
                    (ex_intro _ rv (GetByIndex_In _ _ _ _ Hright)))
          as (ep & Hep & _).
        rewrite Hep. eexists. split; reflexivity.
      * eexists. split; reflexivity.
Qed.

Lemma Sample_GetWithProof_absent (tree : ImmutableTree.t) (key : bytes) :
  (forall v, ~ In (key, v) tree) ->
  exists p, Sample.GetWithProof tree key = inr (None, p).
Proof.
  intros Hnot. unfold Sample.GetWithProof.
  destruct (List.find _ tree) as [[k v] |] eqn:Hfind; [| eauto].
  exfalso. apply find_some in Hfind as [Hin Hk]. cbn [fst] in Hk.
  apply bool_decide_eq_true in Hk. subst k. exact (Hnot v Hin).
Qed.

(** Key 3 is in the sample tree and key 4 is not. *)
Lemma membership_proofs_exclusive_witness :
  GetNonMembershipProof Sample.GetWithProof Sample.tree [3]
  = inl (errNew "cannot create NonExistanceProof when Key in State")
  /\ GetMembershipProof Sample.GetWithProof Sample.tree [4]
     = inl (errNew "cannot create ExistanceProof when Key not in State").
Proof.
  split.
  - apply (membership_proofs_exclusive Sample.GetWithProof Sample.tree [3]
             Sample_tree_sorted Sample_GetWithProof_present
             Sample_GetWithProof_absent).
    exists [30]. vm_compute. auto.
  - apply (membership_proofs_exclusive Sample.GetWithProof Sample.tree [4]
             Sample_tree_sorted Sample_GetWithProof_present
             Sample_GetWithProof_absent).
    intros v Hin. vm_compute in Hin.
    repeat (destruct Hin as [Hin | Hin]; [discriminate |]). exact Hin.
Defined.

(** ** Deleting the nodes under a hash *)

Lemma bind_ok {A B : Type} (m : M A) (k : A -> M B) (n n1 : nodeDB) (a : A) :
  m n = (Ok a, n1) -> bind m k n = k a n1.
Proof. intros H. unfold bind. now rewrite H. Qed.

Lemma doomed_in_tree (version : Z) (t : NodeTree) (h : bytes) :
  In h (doomed version t) -> In h (tree_hashes t).
Proof.
  induction t as [| hash node l IHl r IHr]; [intros [] |].
  cbn [doomed tree_hashes]. rewrite !in_app_iff. intros [H | [H | H]].
  - right. apply in_or_app. left. auto.
  - right. apply in_or_app. right. auto.
  - destruct (version <=? Node.version node); [| destruct H].
    destruct H as [<- | []]. now left.
Qed.

Lemma stored_nil_inv (MakeNode : bytes -> error + Node.t) (d : DB)
    (hash : bytes) :
  stored MakeNode d hash TNil -> length hash = 0%nat.
Proof. intros H. now inversion H. Qed.

Lemma stored_node_inv (MakeNode : bytes -> error + Node.t) (d : DB)
    (hash x : bytes) (node : Node.t) (l r : NodeTree) :
  stored MakeNode d hash (TNode x node l r) ->
  exists buf raw,
    x = hash /\ node = Node.set_loaded hash raw
    /\ length hash <> 0%nat
    /\ Get d (nodeKey hash) = Some buf
    /\ MakeNode buf = inr raw
    /\ (forall h, Node.leftHash raw = Some h -> stored MakeNode d h l)
    /\ (Node.leftHash raw = None -> l = TNil)
    /\ (forall h, Node.rightHash raw = Some h -> stored MakeNode d h r)
    /\ (Node.rightHash raw = None -> r = TNil).
Proof.
  intros H. inversion H; subst. eexists _, _. repeat split; eauto.
Qed.

(** Whether a hash of the tree is deleted depends on its record alone. *)
Lemma doomed_by_record (MakeNode : bytes -> error + Node.t) (d : DB)
    (version : Z) (h : bytes) :
  forall (t : NodeTree) (hash : bytes),
    stored MakeNode d hash t ->
    In h (tree_hashes t) ->
    exists buf raw,
      Get d (nodeKey h) = Some buf /\ MakeNode buf = inr raw
      /\ (In h (doomed version t) <-> version <= Node.version raw).
Proof.
  induction t as [| x node l IHl r IHr]; intros hash Hs Hin; [destruct Hin |].
  apply stored_node_inv in Hs
    as (buf & raw & -> & -> & Hlen & Hget & Hmake & Hl & Hl0 & Hr & Hr0).
  assert (Hsub : forall (c : option bytes) (t' : NodeTree),
            (forall h', c = Some h' -> stored MakeNode d h' t') ->
            (c = None -> t' = TNil) ->
            (forall hash', stored MakeNode d hash' t' -> In h (tree_hashes t') ->
               exists buf raw,
                 Get d (nodeKey h) = Some buf /\ MakeNode buf = inr raw
                 /\ (In h (doomed version t') <-> version <= Node.version raw)) ->
            In h (tree_hashes t') ->
            exists buf raw,
              Get d (nodeKey h) = Some buf /\ MakeNode buf = inr raw
              /\ (In h (doomed version t') <-> version <= Node.version raw)).
  { intros [c |] t' Hsome Hnone IH Hin'.
    - apply (IH c); auto.
    - rewrite (Hnone eq_refl) in Hin'. destruct Hin'. }
  assert (Hleft : In h (tree_hashes l) ->
            exists buf raw,
              Get d (nodeKey h) = Some buf /\ MakeNode buf = inr raw
              /\ (In h (doomed version l) <-> version <= Node.version raw))
    by (apply (Hsub (Node.leftHash raw)); auto).
  assert (Hright : In h (tree_hashes r) ->
            exists buf raw,
              Get d (nodeKey h) = Some buf /\ MakeNode buf = inr raw
              /\ (In h (doomed version r) <-> version <= Node.version raw))
    by (apply (Hsub (Node.rightHash raw)); auto).
  clear Hsub IHl IHr.
  assert (Hrec : exists buf raw,
            Get d (nodeKey h) = Some buf /\ MakeNode buf = inr raw).
  { cbn [tree_hashes] in Hin. destruct Hin as [<- | Hin]; [eauto |].
    apply in_app_or in Hin as [Hin | Hin];
      [destruct (Hleft Hin) as (b & w & ? & ? & _)
      | destruct (Hright Hin) as (b & w & ? & ? & _)]; eauto. }
  destruct Hrec as (bufh & rawh & Hgeth & Hmakeh).
  exists bufh, rawh. split; [exact Hgeth |]. split; [exact Hmakeh |].
  assert (Hsame : forall b w,
            Get d (nodeKey h) = Some b -> MakeNode b = inr w -> w = rawh).
  { intros b w Hb Hw. congruence. }
  cbn [doomed Node.version Node.set_loaded]. rewrite !in_app_iff. split.
  - intros [H | [H | H]].
    + destruct (Hleft (doomed_in_tree _ _ _ H)) as (b & w & Hb & Hw & Hiff).
      rewrite <- (Hsame b w Hb Hw). now apply Hiff.
    + destruct (Hright (doomed_in_tree _ _ _ H)) as (b & w & Hb & Hw & Hiff).
      rewrite <- (Hsame b w Hb Hw). now apply Hiff.
    + destruct (Z.leb_spec version (Node.version raw)) as [Hle | Hgt];
        [| destruct H].
      destruct H as [<- | []]. now rewrite <- (Hsame buf raw Hget Hmake).
  - intros Hle. cbn [tree_hashes] in Hin. destruct Hin as [<- | Hin].
    + right. right. rewrite (Hsame buf raw Hget Hmake).
      destruct (Z.leb_spec version (Node.version rawh)); [now left | lia].
    + apply in_app_or in Hin as [Hin | Hin].
      * left. destruct (Hleft Hin) as (b & w & Hb & Hw & Hiff).
        apply Hiff. now rewrite (Hsame b w Hb Hw).
      * right. left. destruct (Hright Hin) as (b & w & Hb & Hw & Hiff).
        apply Hiff. now rewrite (Hsame b w Hb Hw).
Qed.

Lemma GetNode_stored (MakeNode : bytes -> error + Node.t) (hash buf : bytes)
    (raw : Node.t) (n : nodeDB) :
  length hash <> 0%nat ->
  Get (db n) (nodeKey hash) = Some buf ->
  MakeNode buf = inr raw ->
  cache_agrees MakeNode n ->
  exists n1,
    GetNode MakeNode hash n = (Ok (Node.set_loaded hash raw), n1)
    /\ db n1 = db n /\ batch n1 = batch n
    /\ cache_agrees MakeNode n1
    /\ forall h, nodeCache n1 !! h <> None ->
         nodeCache n !! h <> None \/ h = hash.
Proof.
  intros Hlen Hget Hmake Hagree.
  destruct (nodeCache n !! hash) as [e |] eqn:Hc.
  - rewrite (GetNode_hit MakeNode hash e n Hlen Hc).
    destruct (Hagree hash e Hc) as (b & w & Hb & Hw & Hval).
    assert (w = raw) by congruence. subst w. rewrite Hval.
    eexists. split; [reflexivity |]. split; [reflexivity |].
    split; [reflexivity |]. split; [exact Hagree | auto].
  - rewrite (GetNode_miss MakeNode hash n Hlen Hc), Hget, Hmake.
    eexists. split; [reflexivity |].
    unfold cacheNode, modify, golist.PushBack. cbn [snd].
    set (e := golist.mkElement _ _).
    set (q := golist.mkList _ _).
    assert (Hins : forall h e',
              <[hash := e]> (nodeCache n) !! h = Some e' ->
              (h = hash /\ e' = e) \/ nodeCache n !! h = Some e').
    { intros h e' H. apply lookup_insert_Some in H as [[<- <-] | [_ H]]; auto. }
    assert (Hvale : golist.Value e = Node.set_loaded hash raw) by reflexivity.
    assert (Hgoal : forall c : gmap bytes (golist.Element Node.t),
              (forall h e', c !! h = Some e' ->
                 <[hash := e]> (nodeCache n) !! h = Some e') ->
              forall q',
                let n1 := set_nodeCache c q' n in
                db n1 = db n /\ batch n1 = batch n
                /\ cache_agrees MakeNode n1
                /\ forall h, nodeCache n1 !! h <> None ->
                     nodeCache n !! h <> None \/ h = hash).
    { intros c Hsubmap q'. cbv zeta. split; [reflexivity |].
      split; [reflexivity |]. split.
      - intros h e' He'. cbn [nodeCache set_nodeCache] in He'.
        destruct (Hins h e' (Hsubmap h e' He')) as [[-> ->] | Hold].
        + exists buf, raw. auto.
        + exact (Hagree h e' Hold).
      - intros h Hh. cbn [nodeCache set_nodeCache] in Hh.
        destruct (c !! h) as [e' |] eqn:He'; [| congruence].
        destruct (Hins h e' (Hsubmap h e' He')) as [[-> _] | Hold]; [auto |].
        left. congruence. }
    clearbody e q.
    destruct (nodeCacheSize n <? golist.Len q); [| apply Hgoal; auto].
    destruct (golist.Front q) as [oldest |]; [| apply Hgoal; auto].
    apply Hgoal. intros h e' H. now apply lookup_delete_Some in H as [_ H].
Qed.

Lemma deleteNodesFrom_run (MakeNode : bytes -> error + Node.t) (d : DB)
    (version : Z) :
  forall (t : NodeTree) (fuel : nat) (hash : bytes) (n : nodeDB),
    stored MakeNode d hash t ->
    db n = d ->
    cache_agrees MakeNode n ->
    closed (batch n) = false ->
    (tree_depth t <= fuel)%nat ->
    exists n',
      deleteNodesFrom MakeNode fuel version hash n = (Ok tt, n')
      /\ db n' = d
      /\ cache_agrees MakeNode n'
      /\ closed (batch n') = false
      /\ ops (batch n')
         = ops (batch n)
           ++ List.map (fun h => BDelete (nodeKey h)) (doomed version t)
      /\ forall h, nodeCache n' !! h <> None ->
           ~ In h (doomed version t)
           /\ (nodeCache n !! h <> None \/ In h (tree_hashes t)).
Proof.
  induction t as [| x node l IHl r IHr];
    intros fuel hash n Hs Hdb Hagree Hopen Hfuel.
  - apply stored_nil_inv in Hs as Hlen.
    exists n. destruct fuel; cbn [deleteNodesFrom]; rewrite Hlen;
      cbn [Nat.eqb doomed List.map]; rewrite app_nil_r;
      repeat split; auto.
  - apply stored_node_inv in Hs
      as (buf & raw & -> & -> & Hlen & Hget & Hmake & Hl & Hl0 & Hr & Hr0).
    subst d.
    destruct fuel as [| fuel]; [cbn in Hfuel; lia |].
    cbn [tree_depth] in Hfuel.
    cbn [deleteNodesFrom].
    destruct (Nat.eqb_spec (length hash) 0) as [| _]; [contradiction |].
    destruct (GetNode_stored MakeNode hash buf raw n Hlen Hget Hmake Hagree)
      as (n1 & Hrun1 & Hdb1 & Hb1 & Hagree1 & Hcache1).
    rewrite (bind_ok _ _ _ _ _ Hrun1).
    cbn [Node.leftHash Node.rightHash Node.version Node.set_loaded].
    assert (Hopen1 : closed (batch n1) = false) by now rewrite Hb1.
    (* the left child *)
    assert (Hleft : exists n2,
              match Node.leftHash raw with
              | Some h => deleteNodesFrom MakeNode fuel version h
              | None => ret tt
              end n1 = (Ok tt, n2)
              /\ db n2 = db n
              /\ cache_agrees MakeNode n2
              /\ closed (batch n2) = false
              /\ ops (batch n2)
                 = ops (batch n1)
                   ++ List.map (fun h => BDelete (nodeKey h)) (doomed version l)
              /\ forall h, nodeCache n2 !! h <> None ->
                   ~ In h (doomed version l)
                   /\ (nodeCache n1 !! h <> None \/ In h (tree_hashes l))).
    { destruct (Node.leftHash raw) as [h |].
      - apply (IHl fuel h n1); auto; lia.
      - rewrite (Hl0 eq_refl). exists n1. cbn [doomed List.map tree_hashes].
        rewrite app_nil_r. repeat split; auto; congruence. }
    destruct Hleft as (n2 & Hrun2 & Hdb2 & Hagree2 & Hopen2 & Hops2 & Hcache2).
    rewrite (bind_ok _ _ _ _ _ Hrun2).
    (* the right child *)
    assert (Hright : exists n3,
              match Node.rightHash raw with
              | Some h => deleteNodesFrom MakeNode fuel version h
              | None => ret tt
              end n2 = (Ok tt, n3)
              /\ db n3 = db n
              /\ cache_agrees MakeNode n3
              /\ closed (batch n3) = false
              /\ ops (batch n3)
                 = ops (batch n2)
                   ++ List.map (fun h => BDelete (nodeKey h)) (doomed version r)
              /\ forall h, nodeCache n3 !! h <> None ->
                   ~ In h (doomed version r)
                   /\ (nodeCache n2 !! h <> None \/ In h (tree_hashes r))).
    { destruct (Node.rightHash raw) as [h |].
      - apply (IHr fuel h n2); auto; lia.
      - rewrite (Hr0 eq_refl). exists n2. cbn [doomed List.map tree_hashes].
        rewrite app_nil_r. repeat split; auto. }
    destruct Hright as (n3 & Hrun3 & Hdb3 & Hagree3 & Hopen3 & Hops3 & Hcache3).
    rewrite (bind_ok _ _ _ _ _ Hrun3).
    (* what the walk has left in the cache so far *)
    assert (Hcache : forall h, nodeCache n3 !! h <> None ->
              ~ In h (doomed version l) /\ ~ In h (doomed version r)
              /\ (nodeCache n !! h <> None
                  \/ In h (tree_hashes (TNode hash (Node.set_loaded hash raw) l r)))).
    { intros h Hh. destruct (Hcache3 h Hh) as [Hnr Hfrom]. cbn [tree_hashes].
      destruct Hfrom as [Hc2 | Hinr].
      - destruct (Hcache2 h Hc2) as [Hnl Hfrom]. split; [exact Hnl |].
        split; [exact Hnr |]. destruct Hfrom as [Hc1 | Hinl].
        + destruct (Hcache1 h Hc1) as [Hc | ->]; [now left | right; now left].
        + right. right. apply in_or_app. now left.
      - split; [| split; [exact Hnr | right; right; apply in_or_app; now right]].
        intros Hdl.
        assert (Hsr : exists hr, stored MakeNode (db n) hr r).
        { destruct (Node.rightHash raw) as [hr |] eqn:Hrh; [eauto |].
          rewrite (Hr0 eq_refl) in Hinr. destruct Hinr. }
        assert (Hsl : exists hl, stored MakeNode (db n) hl l).
        { destruct (Node.leftHash raw) as [hl |] eqn:Hlh; [eauto |].
          rewrite (Hl0 eq_refl) in Hdl. destruct Hdl. }
        destruct Hsr as [hr Hsr]. destruct Hsl as [hl Hsl].
        destruct (doomed_by_record MakeNode (db n) version h l hl Hsl
                    (doomed_in_tree _ _ _ Hdl)) as (b1 & w1 & Hb1' & Hw1 & Hiff1).
        destruct (doomed_by_record MakeNode (db n) version h r hr Hsr Hinr)
          as (b2 & w2 & Hb2 & Hw2 & Hiff2).
        assert (w1 = w2) by congruence. subst w2.
        apply Hnr, Hiff2, Hiff1, Hdl. }
    cbn [doomed Node.version Node.set_loaded].
    destruct (Z.leb_spec version (Node.version raw)) as [Hdoomed | Hkept].
    + rewrite (bind_ok _ _ _ _ _ (batch_Delete_open (nodeKey hash) n3 Hopen3)).
      rewrite uncacheNode_run. eexists. split; [reflexivity |].
      match goal with
      | |- context [set_batch ?b n3] => set (n4 := set_batch b n3)
      end.
      destruct (uncacheNode_frame hash n4) as (Hb5 & (Hdb5 & _) & _).
      split; [rewrite Hdb5; exact Hdb3 |].
      split.
      { intros h e He. rewrite uncacheNode_evicts in He.
        destruct (decide (hash = h)); [discriminate |].
        destruct (Hagree3 h e He) as (b & w & Hb & Hw & Hv).
        exists b, w. split; [rewrite Hdb5; exact Hb | auto]. }
      split; [rewrite Hb5; reflexivity |].
      split.
      { rewrite Hb5. cbn [batch set_batch ops n4].
        rewrite Hops3, Hops2, Hb1, !map_app, <- !app_assoc. reflexivity. }
      intros h Hh. rewrite uncacheNode_evicts in Hh.
      destruct (decide (hash = h)) as [| Hne]; [congruence |].
      destruct (Hcache h Hh) as (Hnl & Hnr & Hfrom).
      split; [| exact Hfrom]. rewrite !in_app_iff.
      intros [H | [H | [H | []]]]; auto.
    + unfold ret. eexists. split; [reflexivity |].
      split; [exact Hdb3 |]. split; [exact Hagree3 |]. split; [exact Hopen3 |].
      split; [rewrite Hops3, Hops2, Hb1, app_nil_r, map_app, <- app_assoc;
              reflexivity |].
      intros h Hh. destruct (Hcache h Hh) as (Hnl & Hnr & Hfrom).
      split; [| exact Hfrom]. rewrite app_nil_r, in_app_iff. tauto.
Qed.
(** [deleteNodesFrom] on a finite tree of stored nodes.  When the records
    under the hash decode to a tree, every cached node is the node its
    record decodes to, the batch accepts writes and the fuel covers the
    depth of the tree, the walk returns without error, leaves the database
    untouched, appends to the batch one deletion of the node record for
    each node of the tree whose version is at least [version], children
    before their parent and left before right, and none of the deleted
    nodes is in the node cache afterwards. *)
Theorem deleteNodesFrom_tree (MakeNode : bytes -> error + Node.t)
    (version : Z) (fuel : nat) (hash : bytes) (t : NodeTree) (ndb : nodeDB) :
  stored MakeNode (db ndb) hash t ->
  cache_agrees MakeNode ndb ->
  closed (batch ndb) = false ->
  (tree_depth t <= fuel)%nat ->
  let r := deleteNodesFrom MakeNode fuel version hash ndb in
  r.1 = Ok tt
  /\ db r.2 = db ndb
  /\ ops (batch r.2)
     = ops (batch ndb)
       ++ List.map (fun h => BDelete (nodeKey h)) (doomed version t)
  /\ forall h, In h (doomed version t) -> nodeCache r.2 !! h = None.
Proof.
  intros Hs Hagree Hopen Hfuel. cbv zeta.
  destruct (deleteNodesFrom_run MakeNode (db ndb) version t fuel hash ndb
              Hs eq_refl Hagree Hopen Hfuel)
    as (n' & Hrun & Hdb & _ & _ & Hops & Hcache).
  rewrite Hrun. cbn [fst snd]. split; [reflexivity |]. split; [exact Hdb |].
  split; [exact Hops |]. intros h Hin.
  destruct (nodeCache n' !! h) as [e |] eqn:Hc; [| reflexivity].
  exfalso. destruct (Hcache h) as [Hnot _]; [congruence | contradiction].
Qed.

Lemma Sample_stored_root :
  exists t,
    stored Sample.MakeNode Sample.records Sample.hR3 t
    /\ doomed 3 t = [Sample.hN; Sample.hR3]
    /\ tree_depth t = 2%nat.
Proof.
  assert (Hleaf : forall hash version k,
            length hash <> 0%nat ->
            Get Sample.records (nodeKey hash) = Some [version; k] ->
            stored Sample.MakeNode Sample.records hash
              (TNode hash
                 (Node.set_loaded hash
                    (Node.mk [k] (Some []) [] None None version 1 0 false))
                 TNil TNil)).
  { intros hash version k Hlen Hget.
    apply (stored_node Sample.MakeNode Sample.records hash [version; k]);
      [exact Hlen | exact Hget | reflexivity | discriminate | reflexivity
      | discriminate | reflexivity]. }
  eexists. split.
  - apply (stored_node Sample.MakeNode Sample.records Sample.hR3
             (3 :: 8 :: Sample.hL ++ Sample.hN)
             (Node.mk [8] None [] (Some Sample.hL) (Some Sample.hN) 3 2 1 false)).
    + vm_compute. discriminate.
    + vm_compute. reflexivity.
    + vm_compute. reflexivity.
    + intros h [= <-]. apply (Hleaf Sample.hL 1 8);
        [vm_compute; discriminate | vm_compute; reflexivity].
    + discriminate.
    + intros h [= <-]. apply (Hleaf Sample.hN 3 7);
        [vm_compute; discriminate | vm_compute; reflexivity].
    + discriminate.
  - split; reflexivity.
Qed.

(** The tree of version 3 in the sample records: its root and the leaf
    written at version 3 are deleted, the older leaf is kept. *)
Lemma deleteNodesFrom_tree_witness :
  ops (batch (deleteNodesFrom Sample.MakeNode 2 3 Sample.hR3
                (newNodeDB Sample.records 16 false)).2)
  = [BDelete (nodeKey Sample.hN); BDelete (nodeKey Sample.hR3)].
Proof.
  destruct Sample_stored_root as (t & Hs & Hdoomed & Hdepth).
  destruct (deleteNodesFrom_tree Sample.MakeNode 3 2 Sample.hR3 t
              (newNodeDB Sample.records 16 false) Hs)
    as (_ & _ & Hops & _).
  - intros h e He. unfold newNodeDB in He. cbn [nodeCache] in He.
    rewrite lookup_empty in He. discriminate.
  - reflexivity.
  - rewrite Hdepth. lia.
  - rewrite Hops, Hdoomed. reflexivity.
Defined.

(** ** Deleted nodes after the commit *)

Lemma staged_snoc (operations : list BatchOp) (op : BatchOp) (k : bytes) :
  staged (operations ++ [op]) k
  = match op with
    | BSet k' v => if decide (k' = k) then Some (Some v) else staged operations k
    | BDelete k' => if decide (k' = k) then Some None else staged operations k
    end.
Proof. unfold staged. rewrite fold_left_app. reflexivity. Qed.

Lemma staged_app (a b : list BatchOp) (k : bytes) :
  staged (a ++ b) k
  = match staged b k with
    | Some w => Some w
    | None => staged a k
    end.
Proof.
  induction b as [| op b IH] using rev_ind.
  - now rewrite app_nil_r.
  - rewrite app_assoc, !staged_snoc, IH.
    destruct op as [k' v | k']; destruct (decide (k' = k)); reflexivity.
Qed.

Lemma staged_node_deletes (hashes : list bytes) (h : bytes) :
  (In h hashes ->
   staged (List.map (fun x => BDelete (nodeKey x)) hashes) (nodeKey h)
   = Some None)
  /\ (~ In h hashes ->
      staged (List.map (fun x => BDelete (nodeKey x)) hashes) (nodeKey h)
      = None).
Proof.
  induction hashes as [| x hashes [IHin IHout]] using rev_ind.
  - split; [intros [] | reflexivity].
  - rewrite map_app. cbn [List.map]. rewrite staged_snoc.
    destruct (decide (nodeKey x = nodeKey h)) as [Heq | Hne].
    + split; [reflexivity |]. intros Hnot. exfalso. apply Hnot.
      apply in_or_app. right. left. unfold nodeKey in Heq. congruence.
    + split.
      * intros Hin. apply in_app_or in Hin as [Hin | [-> | []]];
          [now apply IHin | congruence].
      * intros Hnot. apply IHout. intros Hin. apply Hnot.
        apply in_or_app. now left.
Qed.

Lemma tree_hashes_nonempty (MakeNode : bytes -> error + Node.t) (d : DB)
    (h : bytes) :
  forall (t : NodeTree) (hash : bytes),
    stored MakeNode d hash t -> In h (tree_hashes t) ->
    length h <> 0%nat
    /\ exists buf, Get d (nodeKey h) = Some buf.
Proof.
  induction t as [| x node l IHl r IHr]; intros hash Hs Hin; [destruct Hin |].
  apply stored_node_inv in Hs
    as (buf & raw & -> & -> & Hlen & Hget & Hmake & Hl & Hl0 & Hr & Hr0).
  cbn [tree_hashes] in Hin. destruct Hin as [<- | Hin]; [eauto |].
  apply in_app_or in Hin as [Hin | Hin].
  - destruct (Node.leftHash raw) as [c |]; [apply (IHl c); auto |].
    rewrite (Hl0 eq_refl) in Hin. destruct Hin.
  - destruct (Node.rightHash raw) as [c |]; [apply (IHr c); auto |].
    rewrite (Hr0 eq_refl) in Hin. destruct Hin.
Qed.

(** The nodes [deleteNodesFrom] deletes are gone after [Commit].  Under
    the conditions of the walk (a finite tree of stored nodes, a cache that
    agrees with the records, a batch that accepts writes, enough depth),
    [Commit] then succeeds; for every deleted node [Has] answers false and
    [GetNode] panics; and a node of the tree that was kept still has its
    record, unless an operation already pending before the walk named
    it. *)
Theorem deleteNodesFrom_Commit_gone (MakeNode : bytes -> error + Node.t)
    (version : Z) (fuel : nat) (hash : bytes) (t : NodeTree) (ndb : nodeDB) :
  stored MakeNode (db ndb) hash t ->
  cache_agrees MakeNode ndb ->
  closed (batch ndb) = false ->
  (tree_depth t <= fuel)%nat ->
  let walked := (deleteNodesFrom MakeNode fuel version hash ndb).2 in
  let committed := (Commit walked).2 in
  (Commit walked).1 = Ok tt
  /\ (forall h, In h (doomed version t) ->
        Has h committed = false
        /\ exists msg, GetNode MakeNode h committed = (Panic msg, committed))
  /\ (forall h, In h (tree_hashes t) -> ~ In h (doomed version t) ->
        staged (ops (batch ndb)) (nodeKey h) = None ->
        Has h committed = true).
Proof.
  intros Hs Hagree Hopen Hfuel. cbv zeta.
  destruct (deleteNodesFrom_run MakeNode (db ndb) version t fuel hash ndb
              Hs eq_refl Hagree Hopen Hfuel)
    as (n1 & Hrun & Hdb & _ & Hopen1 & Hops & Hcache).
  rewrite Hrun. cbn [snd]. rewrite (Commit_open n1 Hopen1). cbn [fst snd].
  assert (Hget : forall h,
            Get (db (set_batch NewBatch
                       (set_db (fold_left db_apply (ops (batch n1)) (db n1)) n1)))
              (nodeKey h)
            = match
                staged (List.map (fun x => BDelete (nodeKey x)) (doomed version t))
                  (nodeKey h)
              with
              | Some w => w
              | None =>
                  match staged (ops (batch ndb)) (nodeKey h) with
                  | Some w => w
                  | None => Get (db ndb) (nodeKey h)
                  end
              end).
  { intros h. cbn [db set_batch set_db].
    rewrite Get_fold_db_apply, Hops, staged_app, Hdb.
    now destruct (staged (List.map _ (doomed version t)) (nodeKey h)). }
  split; [reflexivity |]. split.
  - intros h Hin.
    assert (Hnone : Get (db (set_batch NewBatch
                               (set_db (fold_left db_apply (ops (batch n1)) (db n1))
                                  n1))) (nodeKey h) = None).
    { rewrite Hget.
      now rewrite (proj1 (staged_node_deletes (doomed version t) h) Hin). }
    split; [unfold Has; now rewrite Hnone |].
    destruct (tree_hashes_nonempty MakeNode (db ndb) h t hash Hs
                (doomed_in_tree _ _ _ Hin)) as [Hlen _].
    rewrite GetNode_miss; [rewrite Hnone; eauto | exact Hlen |].
    cbn [nodeCache set_batch set_db].
    destruct (nodeCache n1 !! h) as [e |] eqn:Hc; [| reflexivity].
    exfalso. destruct (Hcache h) as [Hnot _]; [congruence | contradiction].
  - intros h Hin Hkept Hpending. unfold Has. rewrite Hget, Hpending.
    rewrite (proj2 (staged_node_deletes (doomed version t) h) Hkept).
    destruct (tree_hashes_nonempty MakeNode (db ndb) h t hash Hs Hin)
      as [_ [buf Hbuf]].
    now rewrite Hbuf.
Qed.

(** The tree of version 3 in the sample records, deleted from version 3
    and committed: the leaf of version 3 is gone, the older leaf is
    there. *)
Lemma deleteNodesFrom_Commit_gone_witness :
  let committed :=
    (Commit (deleteNodesFrom Sample.MakeNode 2 3 Sample.hR3
               (newNodeDB Sample.records 16 false)).2).2 in
  Has Sample.hN committed = false /\ Has Sample.hL committed = true.
Proof.
  cbv zeta. destruct Sample_stored_root as (t & Hs & Hdoomed & Hdepth).
  destruct (deleteNodesFrom_Commit_gone Sample.MakeNode 3 2 Sample.hR3 t
              (newNodeDB Sample.records 16 false) Hs)
    as (_ & Hgone & _).
  - intros h e He. unfold newNodeDB in He. cbn [nodeCache] in He.
    rewrite lookup_empty in He. discriminate.
  - reflexivity.
  - rewrite Hdepth. lia.
  - split; [| vm_compute; reflexivity].
    apply Hgone. rewrite Hdoomed. now left.
Defined.

(** ** A deleted version after the commit *)

Lemma staged_none (operations : list BatchOp) (k : bytes) :
  (forall op, In op operations -> op_key op <> k) ->
  staged operations k = None.
Proof.
  induction operations as [| op operations IH] using rev_ind; intros H;
    [reflexivity |].
  rewrite staged_snoc.
  assert (Hop : op_key op <> k) by (apply H, in_or_app; right; now left).
  assert (Hrest : staged operations k = None)
    by (apply IH; intros op' Hin; apply H, in_or_app; now left).
  destruct op as [k' v | k']; cbn [op_key] in Hop;
    destruct (decide (k' = k)); congruence.
Qed.

Lemma deleteOrphans_effect_keys (predecessor version : Z) (k h : bytes)
    (op : BatchOp) :
  HasPrefix k (orphanKeyFormat_Key1 version) = true ->
  In op (deleteOrphans_effect predecessor k h) ->
  exists rest, op_key op = 110 :: rest \/ op_key op = 111 :: rest.
Proof.
  intros Hpre Hin. apply HasPrefix_split in Hpre as [rest ->].
  unfold deleteOrphans_effect in Hin.
  destruct (orphanKeyFormat_Scan _) as [toVersion fromVersion].
  destruct Hin as [<- | Hin].
  - cbn [op_key]. unfold orphanKeyFormat_Key1. cbn [app]. eauto.
  - destruct ((predecessor <? fromVersion) || (fromVersion =? toVersion));
      destruct Hin as [<- | []]; cbn [op_key].
    + unfold nodeKey. eauto.
    + unfold orphanKey, orphanKeyFormat_Key. eauto.
Qed.

(** [DeleteVersion] followed by [Commit] removes the root of the version
    and no other root.  When [DeleteVersion] succeeds, the root record of
    the version is still read before the commit; after [Commit], which then
    succeeds, [getRoot] answers nothing for the version and [HasRoot] is
    false, and every other root key reads as a commit of the operations
    pending before the call would have left it. *)
Theorem DeleteVersion_Commit_root (version : Z) (checkLatestVersion : bool)
    (ndb : nodeDB) :
  (DeleteVersion version checkLatestVersion ndb).1 = Ok tt ->
  let deleted := (DeleteVersion version checkLatestVersion ndb).2 in
  let committed := (Commit deleted).2 in
  getRoot version deleted = getRoot version ndb
  /\ (Commit deleted).1 = Ok tt
  /\ getRoot version committed = None
  /\ HasRoot version committed = false
  /\ forall w, rootKey w <> rootKey version ->
       getRoot w committed = getRoot w (Commit ndb).2.
Proof.
  intros Hok. cbv zeta.
  assert (Hreaders : (0 <? readers ndb version) = false).
  { unfold DeleteVersion, bind, gets in Hok. fold (readers ndb version) in Hok.
    destruct (0 <? readers ndb version); [discriminate | reflexivity]. }
  destruct (closed (batch ndb)) eqn:Hopen.
  { exfalso. unfold DeleteVersion, bind, gets in Hok.
    fold (readers ndb version) in Hok. rewrite Hreaders in Hok.
    unfold deleteOrphans, bind, gets, traverseOrphansVersion, traversePrefix,
      bind, gets in Hok.
    destruct (IteratePrefix (db ndb) (orphanKeyFormat_Key1 version))
      as [| [k h] items].
    - cbn [iterate] in Hok. unfold ret, deleteRoot, bind in Hok.
      destruct checkLatestVersion.
      + rewrite getLatestVersion_eq in Hok. unfold ret in Hok.
        destruct (version =? latest_of ndb); [discriminate |].
        rewrite batch_Delete_closed in Hok by exact Hopen. discriminate.
      + unfold ret in Hok.
        rewrite batch_Delete_closed in Hok by exact Hopen. discriminate.
    - cbn [iterate] in Hok. unfold bind at 1, deleteOrphans_fn in Hok.
      destruct (orphanKeyFormat_Scan k) as [toVersion fromVersion].
      unfold bind at 1 in Hok.
      rewrite batch_Delete_closed in Hok by exact Hopen. discriminate. }
  destruct (DeleteVersion_run version checkLatestVersion ndb Hreaders Hopen)
    as (n1 & (Hdb1 & _) & Hopen1 & Hops1 & Hrun).
  rewrite Hrun in Hok |- *. cbv zeta in Hok |- *.
  destruct (checkLatestVersion && (version =? latest_of ndb)); [discriminate |].
  cbn [fst snd].
  match goal with
  | |- context [Commit ?n] => set (deleted := n)
  end.
  assert (Hdbd : db deleted = db ndb).
  { unfold deleted. destruct checkLatestVersion; exact Hdb1. }
  assert (Hopsd : ops (batch deleted)
            = (ops (batch ndb)
               ++ flat_map
                    (fun kv => deleteOrphans_effect
                                 (getPreviousVersion version ndb) kv.1 kv.2)
                    (IteratePrefix (db ndb) (orphanKeyFormat_Key1 version)))
              ++ [BDelete (rootKey version)]).
  { unfold deleted. cbn [batch set_batch ops]. now rewrite Hops1. }
  assert (Hopend : closed (batch deleted) = false) by reflexivity.
  clearbody deleted.
  rewrite (Commit_open deleted Hopend), (Commit_open ndb Hopen). cbn [fst snd].
  unfold getRoot, HasRoot. cbn [db set_batch set_db].
  rewrite Hdbd. split; [reflexivity |]. split; [reflexivity |].
  assert (Hgone : Get (fold_left db_apply (ops (batch deleted)) (db ndb))
                    (rootKey version) = None).
  { rewrite Get_fold_db_apply, Hopsd, staged_snoc.
    now destruct (decide (rootKey version = rootKey version)). }
  split; [exact Hgone |]. split; [now rewrite Hgone |].
  intros w Hw. rewrite !Get_fold_db_apply, Hopsd, staged_snoc.
  destruct (decide (rootKey version = rootKey w)); [congruence |].
  rewrite staged_app, staged_none; [reflexivity |].
  intros op Hin. apply in_flat_map in Hin as ([k h] & Hkv & Hin).
  apply filter_In in Hkv as [_ Hpre]. cbn [fst snd] in *.
  destruct (deleteOrphans_effect_keys _ version k h op Hpre Hin)
    as [rest [Hk | Hk]]; rewrite Hk; unfold rootKey; congruence.
Qed.

(** Version 1 of the sample database, deleted and committed. *)
Lemma DeleteVersion_Commit_root_witness :
  let committed := (Commit (DeleteVersion 1 true Sample.ndb).2).2 in
  getRoot 1 committed = None /\ getRoot 2 committed = Some Sample.hR2.
Proof.
  cbv zeta.
  destruct (DeleteVersion_Commit_root 1 true Sample.ndb) as (_ & _ & H & _);
    [vm_compute; reflexivity |].
  split; [exact H | vm_compute; reflexivity].
Defined.

(** ** A deleted fast node *)

(** [DeleteFastNode] and what is read afterwards.  When [DeleteFastNode]
    succeeds the key has left the fast-node cache while its record is still
    in the database; after [Commit], which then succeeds, on a store
    upgraded to fast storage [GetFastNode] answers [nil] without error for
    the key (a key that is not empty), and the state is left as it is.
    With a batch that refuses the write [DeleteFastNode] fails and the
    cache keeps the key. *)
Theorem DeleteFastNode_Commit_gone
    (DeserializeFastNode : bytes -> bytes -> error + FastNode.t)
    (key : bytes) (ndb : nodeDB) :
  let deleted := (DeleteFastNode key ndb).2 in
  let committed := (Commit deleted).2 in
  ((DeleteFastNode key ndb).1 = Ok tt ->
   fastNodeCache deleted !! key = None
   /\ db deleted = db ndb
   /\ (Commit deleted).1 = Ok tt
   /\ (hasUpgradedToFastStorage ndb = true -> key <> [] ->
       GetFastNode DeserializeFastNode key committed = (Ok None, committed)))
  /\ (closed (batch ndb) = true ->
      DeleteFastNode key ndb = (Err errBatchClosed, ndb)).
Proof.
  cbv zeta. unfold DeleteFastNode. split.
  - destruct (closed (batch ndb)) eqn:Hopen.
    { unfold bind. rewrite batch_Delete_closed by exact Hopen. discriminate. }
    rewrite (bind_ok _ _ _ _ _ (batch_Delete_open (fastNodeKey key) ndb Hopen)).
    rewrite uncacheFastNode_run. cbn [fst snd]. intros _.
    match goal with
    | |- context [uncacheFastNode key ?n] => set (n1 := n)
    end.
    destruct (uncacheFastNode_frame key n1)
      as (Hb & (Hdb & _ & _ & Hsv) & _ & _).
    pose proof (uncacheFastNode_evicts key key n1) as Hevict.
    destruct (decide (key = key)); [| congruence].
    set (deleted := (uncacheFastNode key n1).2) in *. clearbody deleted.
    assert (Hopend : closed (batch deleted) = false) by now rewrite Hb.
    split; [exact Hevict |]. split; [exact Hdb |].
    rewrite (Commit_open deleted Hopend). cbn [fst snd].
    split; [reflexivity |]. intros Hup Hkey.
    rewrite GetFastNode_miss.
    + cbn [db set_batch set_db]. rewrite Get_fold_db_apply, Hb.
      cbn [batch set_batch ops n1]. rewrite staged_snoc.
      now destruct (decide (fastNodeKey key = fastNodeKey key)).
    + unfold hasUpgradedToFastStorage, getStorageVersion in *.
      cbn [storageVersion set_batch set_db]. now rewrite Hsv.
    + destruct key; [congruence | discriminate].
    + exact Hevict.
  - intros Hclosed. unfold bind.
    now rewrite batch_Delete_closed by exact Hclosed.
Qed.

(** The cached fast node of key 7, deleted and committed on the sample
    records once their storage version says fast. *)
Lemma DeleteFastNode_Commit_gone_witness :
  let ndb := set_storageVersion "1.1.0-3" Sample.ndb in
  let committed := (Commit (DeleteFastNode [7] ndb).2).2 in
  is_Some (fastNodeCache ndb !! [7])
  /\ (GetFastNode Sample.DeserializeFastNode [7] committed).1 = Ok None.
Proof.
  cbv zeta. split; [vm_compute; eauto |].
  destruct (DeleteFastNode_Commit_gone Sample.DeserializeFastNode [7]
              (set_storageVersion "1.1.0-3" Sample.ndb)) as [H _].
  destruct H as (_ & _ & _ & H); [vm_compute; reflexivity |].
  rewrite H; [reflexivity | vm_compute; reflexivity | discriminate].
Defined.
